(** * scrapedocs: a documentation crawler, embedded and verified

    The development follows [scrapedocs.py]: the URL plumbing the script
    takes from [urllib.parse] and [os.path], the digest it takes from
    [hashlib], the parsed page as
    BeautifulSoup hands it over, [is_valid], [is_internal_link],
    [get_markdown_content] and the crawl loop of [scrape_docs].

    Python [str] values are kept as [string], read as the UTF-8 encoding
    of the text: every delimiter the script and [urllib.parse] look for is
    ASCII, so searching, splitting and joining act on the bytes exactly as
    they act on the code points. *)

From Stdlib Require Import ZArith NArith Ascii String List Bool Lia.
From stdpp Require Import base option list gmap strings.

Local Open Scope string_scope.
Local Open Scope list_scope.

#[local] Arguments String.append !_ _ / : simpl nomatch.

(** ** Strings, the way the Python methods behave *)

Module Str.

Definition code (c : ascii) : N := N_of_ascii c.

Definition in_range (lo hi : N) (c : ascii) : bool :=
  (lo <=? code c)%N && (code c <=? hi)%N.

Definition is_upper (c : ascii) : bool := in_range 65 90 c.
Definition is_lower (c : ascii) : bool := in_range 97 122 c.
Definition is_digit (c : ascii) : bool := in_range 48 57 c.
Definition is_alpha (c : ascii) : bool := is_upper c || is_lower c.
Definition is_alnum (c : ascii) : bool := is_alpha c || is_digit c.
Definition is_ascii (c : ascii) : bool := (code c <? 128)%N.

(** [str.isspace] on the ASCII range: TAB, LF, VT, FF, CR, FS..US, SPACE. *)
Definition is_space (c : ascii) : bool :=
  in_range 9 13 c || in_range 28 32 c.

Definition lower_char (c : ascii) : ascii :=
  if is_upper c then ascii_of_N (code c + 32) else c.

Fixpoint map (f : ascii -> ascii) (s : string) : string :=
  match s with
  | EmptyString => EmptyString
  | String c s' => String (f c) (map f s')
  end.

Fixpoint filter (p : ascii -> bool) (s : string) : string :=
  match s with
  | EmptyString => EmptyString
  | String c s' => if p c then String c (filter p s') else filter p s'
  end.

Fixpoint forallb (p : ascii -> bool) (s : string) : bool :=
  match s with
  | EmptyString => true
  | String c s' => p c && forallb p s'
  end.

Fixpoint existsb (p : ascii -> bool) (s : string) : bool :=
  match s with
  | EmptyString => false
  | String c s' => p c || existsb p s'
  end.

(** [c in s] *)
Definition contains (c : ascii) (s : string) : bool :=
  existsb (Ascii.eqb c) s.

(** [s.lower()], on the ASCII letters. *)
Definition lower (s : string) : string := map lower_char s.

Definition is_empty (s : string) : bool :=
  match s with EmptyString => true | _ => false end.

(** [s.lstrip(chars)], with the character set as a predicate. *)
Fixpoint lstrip (p : ascii -> bool) (s : string) : string :=
  match s with
  | EmptyString => EmptyString
  | String c s' => if p c then lstrip p s' else s
  end.

(** [s.rstrip(chars)]: a character goes when everything after it went. *)
Fixpoint rstrip (p : ascii -> bool) (s : string) : string :=
  match s with
  | EmptyString => EmptyString
  | String c s' =>
      match rstrip p s' with
      | EmptyString => if p c then EmptyString else String c EmptyString
      | r => String c r
      end
  end.

Definition strip (p : ascii -> bool) (s : string) : string :=
  rstrip p (lstrip p s).

(** Whether the first, or the last, character satisfies [p]. *)
Definition head_is (p : ascii -> bool) (s : string) : bool :=
  match s with
  | String c _ => p c
  | EmptyString => false
  end.

Fixpoint last_is (p : ascii -> bool) (s : string) : bool :=
  match s with
  | EmptyString => false
  | String c EmptyString => p c
  | String _ s' => last_is p s'
  end.

(** [s.partition(c)] for a one-character separator: the text before the
    first [c] and the text after it, [None] when [c] does not occur. *)
Fixpoint partition (c : ascii) (s : string) : option (string * string) :=
  match s with
  | EmptyString => None
  | String d s' =>
      if Ascii.eqb d c then Some (EmptyString, s')
      else match partition c s' with
           | Some (a, b) => Some (String d a, b)
           | None => None
           end
  end.

(** [s.rpartition(c)]: split at the last [c]. *)
Fixpoint rpartition (c : ascii) (s : string) : option (string * string) :=
  match s with
  | EmptyString => None
  | String d s' =>
      match rpartition c s' with
      | Some (a, b) => Some (String d a, b)
      | None => if Ascii.eqb d c then Some (EmptyString, s') else None
      end
  end.

(** [s.split(c)] for a one-character separator: never the empty list. *)
Fixpoint split (c : ascii) (s : string) : list string :=
  match s with
  | EmptyString => [EmptyString]
  | String d s' =>
      if Ascii.eqb d c then EmptyString :: split c s'
      else match split c s' with
           | h :: t => String d h :: t
           | [] => [String d EmptyString]
           end
  end.

(** [sep.join(l)] *)
Fixpoint join (sep : string) (l : list string) : string :=
  match l with
  | [] => EmptyString
  | [x] => x
  | x :: t => x +:+ sep +:+ join sep t
  end.

(** [s.startswith(p)] *)
Fixpoint startswith (p s : string) : bool :=
  match p, s with
  | EmptyString, _ => true
  | String a p', String b s' => Ascii.eqb a b && startswith p' s'
  | String _ _, EmptyString => false
  end.

(** [s.endswith(suffix)] *)
Fixpoint endswith (suffix s : string) : bool :=
  String.eqb suffix s ||
  match s with
  | EmptyString => false
  | String _ s' => endswith suffix s'
  end.

(** The text of [s] after a prefix [p] it starts with. *)
Fixpoint drop_prefix (p s : string) : string :=
  match p, s with
  | String _ p', String _ s' => drop_prefix p' s'
  | _, _ => s
  end.

(** [s.replace(old, new)] with an empty [new]: the occurrences of [old]
    are deleted, left to right and without overlap; an empty [old]
    deletes nothing.  [skip] counts the characters of a match still to
    be dropped. *)
Fixpoint delete_from (old : string) (skip : nat) (s : string) : string :=
  match s with
  | EmptyString => EmptyString
  | String c s' =>
      match skip with
      | S k => delete_from old k s'
      | O =>
          if negb (is_empty old) && startswith old s
          then delete_from old (String.length old - 1) s'
          else String c (delete_from old 0 s')
      end
  end.

Definition delete_all (old s : string) : string := delete_from old 0 s.

(** [s.replace(a, b)] for single characters. *)
Definition replace_char (a b : ascii) (s : string) : string :=
  map (fun c => if Ascii.eqb c a then b else c) s.

(** [x] is a stretch of [y]. *)
Definition part (x y : string) : Prop := exists l r, y = l +:+ x +:+ r.

End Str.

(** ** [hashlib.md5]

    The digest of RFC 1321 over the bytes of a string, on 32-bit words
    kept in [Z] with the wrap-around written out. *)

Module Md5.
Local Open Scope Z_scope.

Definition wrap (x : Z) : Z := x mod 4294967296.

Definition rotl (x : Z) (n : Z) : Z :=
  Z.lor (wrap (Z.shiftl x n)) (Z.shiftr x (32 - n)).

Definition not32 (x : Z) : Z := Z.lxor x 4294967295.

(** The per-round shifts and the constants [floor(2^32 * |sin(i + 1)|)]. *)
Definition shifts : list Z :=
  [7; 12; 17; 22; 7; 12; 17; 22; 7; 12; 17; 22; 7; 12; 17; 22;
   5; 9; 14; 20; 5; 9; 14; 20; 5; 9; 14; 20; 5; 9; 14; 20;
   4; 11; 16; 23; 4; 11; 16; 23; 4; 11; 16; 23; 4; 11; 16; 23;
   6; 10; 15; 21; 6; 10; 15; 21; 6; 10; 15; 21; 6; 10; 15; 21].

Definition sines : list Z :=
  [3614090360; 3905402710; 606105819; 3250441966; 4118548399; 1200080426;
   2821735955; 4249261313; 1770035416; 2336552879; 4294925233; 2304563134;
   1804603682; 4254626195; 2792965006; 1236535329; 4129170786; 3225465664;
   643717713; 3921069994; 3593408605; 38016083; 3634488961; 3889429448;
   568446438; 3275163606; 4107603335; 1163531501; 2850285829; 4243563512;
   1735328473; 2368359562; 4294588738; 2272392833; 1839030562; 4259657740;
   2763975236; 1272893353; 4139469664; 3200236656; 681279174; 3936430074;
   3572445317; 76029189; 3654602809; 3873151461; 530742520; 3299628645;
   4096336452; 1126891415; 2878612391; 4237533241; 1700485571; 2399980690;
   4293915773; 2240044497; 1873313359; 4264355552; 2734768916; 1309151649;
   4149444226; 3174756917; 718787259; 3951481745].

Definition bytes_of (s : string) : list Z :=
  List.map (fun c => Z.of_N (N_of_ascii c)) (list_ascii_of_string s).

(** The eight bytes of the bit length, least significant first. *)
Fixpoint le_bytes (n : nat) (x : Z) : list Z :=
  match n with
  | O => []
  | S n' => (x mod 256) :: le_bytes n' (x / 256)
  end.

(** The message, the byte 128, zeros up to 56 modulo 64, the length. *)
Definition padded (msg : list Z) : list Z :=
  let len := Z.of_nat (List.length msg) in
  let zeros := Z.to_nat ((55 - len) mod 64) in
  msg ++ [128] ++ List.repeat 0 zeros ++ le_bytes 8 (8 * len).

(** The words of a block, four bytes each, least significant first. *)
Fixpoint words (n : nat) (bytes : list Z) : list Z :=
  match n, bytes with
  | S n', b0 :: b1 :: b2 :: b3 :: rest =>
      (b0 + 256 * (b1 + 256 * (b2 + 256 * b3))) :: words n' rest
  | _, _ => []
  end.

Definition state := (Z * Z * Z * Z)%type.

Definition round (m : list Z) (i : nat) (st : state) : state :=
  let '(a, b, c, d) := st in
  let iz := Z.of_nat i in
  let '(f, g) :=
    if iz <? 16 then (Z.lor (Z.land b c) (Z.land (not32 b) d), iz)
    else if iz <? 32 then
      (Z.lor (Z.land d b) (Z.land (not32 d) c), (5 * iz + 1) mod 16)
    else if iz <? 48 then (Z.lxor b (Z.lxor c d), (3 * iz + 5) mod 16)
    else (Z.lxor c (Z.lor b (not32 d)), (7 * iz) mod 16) in
  let f := wrap (f + a + List.nth i sines 0 + List.nth (Z.to_nat g) m 0) in
  (d, wrap (b + rotl f (List.nth i shifts 0)), b, c).

Definition block (st : state) (m : list Z) : state :=
  let '(a0, b0, c0, d0) := st in
  let '(a, b, c, d) :=
    List.fold_left (fun acc i => round m i acc) (List.seq 0 64) st in
  (wrap (a0 + a), wrap (b0 + b), wrap (c0 + c), wrap (d0 + d)).

(** The blocks of 64 bytes, for at most [n] of them. *)
Fixpoint blocks (n : nat) (bytes : list Z) (st : state) : state :=
  match n with
  | O => st
  | S n' =>
      match bytes with
      | [] => st
      | _ => blocks n' (List.skipn 64 bytes) (block st (words 16 (List.firstn 64 bytes)))
      end
  end.

Definition initial : state := (1732584193, 4023233417, 2562383102, 271733878).

Definition hex_digit (x : Z) : ascii :=
  List.nth (Z.to_nat x)
    (list_ascii_of_string "0123456789abcdef") "0"%char.

Definition hex_byte (x : Z) : string :=
  String (hex_digit (x / 16)) (String (hex_digit (x mod 16)) EmptyString).

Definition hex_word (x : Z) : string :=
  String.concat "" (List.map hex_byte (le_bytes 4 x)).

(** [hashlib.md5(s.encode('utf-8')).hexdigest()] *)
Definition hexdigest (s : string) : string :=
  let bytes := padded (bytes_of s) in
  let '(a, b, c, d) := blocks (List.length bytes) bytes initial in
  hex_word a +:+ hex_word b +:+ hex_word c +:+ hex_word d.

End Md5.

(** ** [urllib.parse]: splitting, unsplitting and joining URLs

    The functions follow CPython's [urllib/parse.py] statement by
    statement.  [urlsplit] raises [ValueError] for an authority whose
    square brackets do not match or do not hold a well-formed IP literal,
    and for a non-ASCII authority that normalises to one holding a
    delimiter.  The last two tests rest on [ipaddress] and [unicodedata]
    and are not embedded: the result [None] stands for [ValueError] or for
    an authority with a bracket or a non-ASCII byte, which is left out.
    So every URL the embedding accepts is one [urlsplit] returns on, with
    that result; and [urlsplit] does raise where [bracket_mismatch]
    holds of the authority. *)

Module Urllib.
Import Str.

Definition uses_relative : list string :=
  [""; "ftp"; "http"; "gopher"; "nntp"; "imap"; "wais"; "file"; "https";
   "shttp"; "mms"; "prospero"; "rtsp"; "rtspu"; "sftp"; "svn"; "svn+ssh";
   "ws"; "wss"].

Definition uses_netloc : list string :=
  [""; "ftp"; "http"; "gopher"; "nntp"; "telnet"; "imap"; "wais"; "file";
   "mms"; "https"; "shttp"; "snews"; "prospero"; "rtsp"; "rtspu"; "rsync";
   "svn"; "svn+ssh"; "sftp"; "nfs"; "git"; "git+ssh"; "ws"; "wss"].

Definition uses_params : list string :=
  [""; "ftp"; "hdl"; "prospero"; "http"; "imap"; "https"; "shttp"; "rtsp";
   "rtspu"; "sip"; "sips"; "mms"; "sftp"; "tel"].

(** [s in l] for a list of strings. *)
Definition mem (s : string) (l : list string) : bool :=
  List.existsb (String.eqb s) l.

(** [scheme_chars]: letters, digits, [+], [-] and [.]. *)
Definition is_scheme_char (c : ascii) : bool :=
  is_alnum c || Ascii.eqb c "+" || Ascii.eqb c "-" || Ascii.eqb c ".".

(** [_WHATWG_C0_CONTROL_OR_SPACE]: the code points 0 to 32. *)
Definition is_c0_or_space (c : ascii) : bool := (code c <=? 32)%N.

(** [_UNSAFE_URL_BYTES_TO_REMOVE]: TAB, CR and LF. *)
Definition is_unsafe (c : ascii) : bool :=
  (code c =? 9)%N || (code c =? 13)%N || (code c =? 10)%N.

Definition remove_unsafe (s : string) : string :=
  filter (fun c => negb (is_unsafe c)) s.

Record SplitResult := mkSplit {
  s_scheme : string; s_netloc : string; s_path : string;
  s_query : string; s_fragment : string }.

Record ParseResult := mkParse {
  scheme : string; netloc : string; path : string;
  params : string; query : string; fragment : string }.

(** The text up to the first character that satisfies [p], and the rest
    from that character on. *)
Fixpoint break (p : ascii -> bool) (s : string) : string * string :=
  match s with
  | EmptyString => (EmptyString, EmptyString)
  | String c s' =>
      if p c then (EmptyString, s)
      else let '(a, b) := break p s' in (String c a, b)
  end.

Definition is_netloc_delim (c : ascii) : bool :=
  Ascii.eqb c "/" || Ascii.eqb c "?" || Ascii.eqb c "#".

(** [_splitnetloc(url, 2)], given the text behind the two slashes. *)
Definition _splitnetloc (after_slashes : string) : string * string :=
  break is_netloc_delim after_slashes.

(** The authorities [urlsplit] is taken to raise [ValueError] on. *)
Definition netloc_rejected (n : string) : bool :=
  contains "[" n || contains "]" n || negb (forallb is_ascii n).

Definition first_is_alpha (s : string) : bool :=
  match s with
  | String c _ => is_ascii c && is_alpha c
  | EmptyString => false
  end.

Definition urlsplit (url scheme : string) : option SplitResult :=
  let url := lstrip is_c0_or_space url in
  let scheme := strip is_c0_or_space scheme in
  let url := remove_unsafe url in
  let scheme := remove_unsafe scheme in
  let '(scheme, url) :=
    match partition ":" url with
    | Some (pre, post) =>
        if negb (is_empty pre) && first_is_alpha url
           && forallb is_scheme_char pre
        then (lower pre, post)
        else (scheme, url)
    | None => (scheme, url)
    end in
  let '(netloc, url) :=
    if startswith "//" url then _splitnetloc (drop_prefix "//" url)
    else (EmptyString, url) in
  if netloc_rejected netloc then None
  else
    let '(url, fragment) :=
      match partition "#" url with
      | Some (a, b) => (a, b)
      | None => (url, EmptyString)
      end in
    let '(url, query) :=
      match partition "?" url with
      | Some (a, b) => (a, b)
      | None => (url, EmptyString)
      end in
    Some (mkSplit scheme netloc url query fragment).

Definition _splitparams (url : string) : string * string :=
  if contains "/" url then
    match rpartition "/" url with
    | Some (dir, last) =>
        match partition ";" last with
        | Some (a, b) => (dir +:+ "/" +:+ a, b)
        | None => (url, EmptyString)
        end
    | None => (url, EmptyString)
    end
  else
    match partition ";" url with
    | Some (a, b) => (a, b)
    | None => (url, EmptyString)
    end.

Definition urlparse_with (url scheme : string) : option ParseResult :=
  match urlsplit url scheme with
  | None => None
  | Some r =>
      let '(url, params) :=
        if mem (s_scheme r) uses_params && contains ";" (s_path r)
        then _splitparams (s_path r)
        else (s_path r, EmptyString) in
      Some (mkParse (s_scheme r) (s_netloc r) url params
                    (s_query r) (s_fragment r))
  end.

(** [urlparse(url)] *)
Definition urlparse (url : string) : option ParseResult :=
  urlparse_with url "".

Definition urlunsplit (scheme netloc url query fragment : string) : string :=
  let url :=
    if negb (is_empty netloc)
       || (negb (is_empty scheme) && mem scheme uses_netloc
           && negb (startswith "//" url))
    then
      let url :=
        if negb (is_empty url) && negb (startswith "/" url)
        then "/" +:+ url else url in
      "//" +:+ netloc +:+ url
    else url in
  let url := if negb (is_empty scheme) then scheme +:+ ":" +:+ url else url in
  let url := if negb (is_empty query) then url +:+ "?" +:+ query else url in
  if negb (is_empty fragment) then url +:+ "#" +:+ fragment else url.

Definition urlunparse (scheme netloc url params query fragment : string)
  : string :=
  let url := if negb (is_empty params) then url +:+ ";" +:+ params else url in
  urlunsplit scheme netloc url query fragment.

(** A list without its last element, and that element. *)
Fixpoint unsnoc (l : list string) : option (list string * string) :=
  match l with
  | [] => None
  | x :: t =>
      match unsnoc t with
      | None => Some ([], x)
      | Some (i, z) => Some (x :: i, z)
      end
  end.

(** [segments[1:-1] = filter(None, segments[1:-1])] *)
Definition filter_middle (segments : list string) : list string :=
  match segments with
  | [] => []
  | x :: t =>
      match unsnoc t with
      | None => [x]
      | Some (mid, z) =>
          x :: List.filter (fun s => negb (is_empty s)) mid ++ [z]
      end
  end.

(** The loop over [segments]; [resolved] is [resolved_path] with its last
    element first, so that [pop] takes the head. *)
Fixpoint resolve (segments resolved : list string) : list string :=
  match segments with
  | [] => List.rev resolved
  | seg :: rest =>
      if String.eqb seg ".." then resolve rest (List.tl resolved)
      else if String.eqb seg "." then resolve rest resolved
      else resolve rest (seg :: resolved)
  end.

Definition last_segment (segments : list string) : string :=
  List.last segments EmptyString.

(** From [resolved_path = []] to ['/'.join(resolved_path) or '/']. *)
Definition resolved_path (segments : list string) : string :=
  let resolved_path := resolve segments [] in
  let resolved_path :=
    if String.eqb (last_segment segments) "."
       || String.eqb (last_segment segments) ".."
    then resolved_path ++ [EmptyString] else resolved_path in
  let joined := join "/" resolved_path in
  if is_empty joined then "/" else joined.

Definition urljoin (base url : string) : option string :=
  if is_empty base then Some url
  else if is_empty url then Some base
  else
    match urlparse_with base "" with
    | None => None
    | Some b =>
        match urlparse_with url (scheme b) with
        | None => None
        | Some u =>
            if negb (String.eqb (scheme u) (scheme b))
               || negb (mem (scheme u) uses_relative)
            then Some url
            else if mem (scheme u) uses_netloc && negb (is_empty (netloc u))
            then Some (urlunparse (scheme u) (netloc u) (path u) (params u)
                                  (query u) (fragment u))
            else
              let netloc' :=
                if mem (scheme u) uses_netloc then netloc b else netloc u in
              if is_empty (path u) && is_empty (params u)
              then
                let query' :=
                  if is_empty (query u) then query b else query u in
                Some (urlunparse (scheme u) netloc' (path b) (params b)
                                 query' (fragment u))
              else
                let base_parts := split "/" (path b) in
                let base_parts :=
                  if negb (is_empty (last_segment base_parts))
                  then List.removelast base_parts else base_parts in
                let segments :=
                  if startswith "/" (path u) then split "/" (path u)
                  else filter_middle (base_parts ++ split "/" (path u)) in
                Some (urlunparse (scheme u) netloc' (resolved_path segments)
                        (params u) (query u) (fragment u))
        end
    end.

(** *** The stages of [urlsplit], and what it returns

    [head_split] is [urlsplit] up to the authority, [tail_split] is the
    rest of it; [well_parsed] collects what holds of every result of
    [urlparse]. *)

Definition is_slash (c : ascii) : bool := Ascii.eqb c "/".
Definition not_unsafe (c : ascii) : bool := negb (is_unsafe c).

Definition head_split (url scheme : string) : string * string * string :=
  let url := lstrip is_c0_or_space url in
  let scheme := strip is_c0_or_space scheme in
  let url := remove_unsafe url in
  let scheme := remove_unsafe scheme in
  let '(scheme, url) :=
    match partition ":" url with
    | Some (pre, post) =>
        if negb (is_empty pre) && first_is_alpha url
           && forallb is_scheme_char pre
        then (lower pre, post)
        else (scheme, url)
    | None => (scheme, url)
    end in
  let '(netloc, url) :=
    if startswith "//" url then _splitnetloc (drop_prefix "//" url)
    else (EmptyString, url) in
  (scheme, netloc, url).

Definition tail_split (url : string) : string * string * string :=
  let '(url, fragment) :=
    match partition "#" url with
    | Some (a, b) => (a, b)
    | None => (url, EmptyString)
    end in
  let '(url, query) :=
    match partition "?" url with
    | Some (a, b) => (a, b)
    | None => (url, EmptyString)
    end in
  (url, query, fragment).

(** The authority [urlsplit] cuts out of a URL, and its first test on
    it: an opening bracket without a closing one, or the reverse, is an
    invalid IPv6 URL. *)
Definition authority (url : string) : string := (head_split url "").1.2.

Definition bracket_mismatch (netloc : string) : bool :=
  (contains "[" netloc && negb (contains "]" netloc))
  || (contains "]" netloc && negb (contains "[" netloc)).

(** A scheme as [urlsplit] returns it. *)
Definition parsed_scheme (sch : string) : Prop :=
  sch = "" \/ exists pre, forallb is_scheme_char pre = true /\ sch = lower pre.

(** What holds of every result of [urlparse]. *)
Record well_parsed (p : ParseResult) : Prop := {
  wp_scheme : parsed_scheme (scheme p);
  wp_netloc : forallb (fun c => negb (is_netloc_delim c)) (netloc p) = true;
  wp_clean : forallb not_unsafe (path p) = true;
  wp_no_fragment : contains "#" (path p) = false;
  wp_no_query : contains "?" (path p) = false;
  wp_rooted : netloc p <> "" -> path p = "" \/ head_is is_slash (path p) = true;
  wp_params :
    (if mem (scheme p) uses_params && contains ";" (path p)
     then _splitparams (path p) else (path p, "")) = (path p, "") }.

End Urllib.

(** ** [os.path] on POSIX *)

Module Posixpath.
Import Str.

(** [os.path.join(a, b)] *)
Definition join (a b : string) : string :=
  if startswith "/" b then b
  else if is_empty a || endswith "/" a then a +:+ b
  else a +:+ "/" +:+ b.

(** [os.path.splitext(p)]: the extension starts at the last dot of the
    last path component, unless only dots come before it there. *)
Definition splitext (p : string) : string * string :=
  let '(dir, base) :=
    match rpartition "/" p with
    | Some (d, b) => (d +:+ "/", b)
    | None => (EmptyString, p)
    end in
  match rpartition "." base with
  | Some (stem, e) =>
      if existsb (fun c => negb (Ascii.eqb c ".")) stem
      then (dir +:+ stem, String "." e)
      else (p, EmptyString)
  | None => (p, EmptyString)
  end.

End Posixpath.

(** ** The parsed page

    A page is kept the way [BeautifulSoup(html, 'html.parser')] hands it
    over: a forest of tags and strings.  Attribute values are strings, as
    those of [href] and [src] are. *)

Module Soup.

Abbreviation attrs := (gmap string string).

#[local] Unset Elimination Schemes.
Inductive node :=
| NavigableString (s : string)
| Tag (name : string) (a : attrs) (contents : list node).
#[local] Set Elimination Schemes.

Definition soup := list node.

(** A tag and everything below it, in document order. *)
Fixpoint self_and_descendants (n : node) : list node :=
  n :: match n with
       | NavigableString _ => []
       | Tag _ _ cs => flat_map self_and_descendants cs
       end.

(** [el.descendants], for the contents of [el]. *)
Definition descendants (cs : list node) : list node :=
  flat_map self_and_descendants cs.

Definition is_tag (name : string) (n : node) : bool :=
  match n with
  | Tag t _ _ => String.eqb t name
  | NavigableString _ => false
  end.

Definition get_attr (attr : string) (n : node) : option string :=
  match n with
  | Tag _ a _ => a !! attr
  | NavigableString _ => None
  end.

(** [x.find_all(name, attr=True)] as the list of the attribute's values,
    in document order; [attr_on] gives the value on one node. *)
Definition attr_on (name attr : string) (n : node) : option string :=
  if is_tag name n then get_attr attr n else None.

Definition find_all_attr (name attr : string) (cs : list node) : list string :=
  omap (attr_on name attr) (descendants cs).

(** [x.find(name)]: the first tag of that name. *)
Definition find (name : string) (cs : list node) : option node :=
  List.find (is_tag name) (descendants cs).

(** What [x.select_one(sel)] gives: it raises for a selector it cannot
    parse, or it returns the first match of the selector, if there is
    one. *)
Inductive selection :=
| SelectorError
| Match (el : option node).

(** [el.text]: the strings below [el], concatenated. *)
Fixpoint text (n : node) : string :=
  match n with
  | NavigableString s => s
  | Tag _ _ cs => List.fold_right (fun c r => text c +:+ r) EmptyString cs
  end.

Definition contents (n : node) : list node :=
  match n with
  | Tag _ _ cs => cs
  | NavigableString _ => []
  end.

Definition with_contents (n : node) (cs : list node) : node :=
  match n with
  | Tag t a _ => Tag t a cs
  | NavigableString _ => n
  end.

(** A loop over the tags below an element, in document order, that
    assigns to their attributes.  [f] is the loop body: given a tag's
    name and attributes and the state so far it gives the attributes
    after the assignment, or [None] when it raises; the state changes it
    made before raising stay. *)
Section Loop.
Context {S : Type}.
Variable f : string -> attrs -> S -> option attrs * S.

Fixpoint visit (n : node) (s : S) : option node * S :=
  match n with
  | NavigableString _ => (Some n, s)
  | Tag t a cs =>
      match f t a s with
      | (None, s1) => (None, s1)
      | (Some a', s1) =>
          let fix visit_all (l : list node) (s : S) : option (list node) * S :=
            match l with
            | [] => (Some [], s)
            | c :: l' =>
                match visit c s with
                | (None, s') => (None, s')
                | (Some c', s') =>
                    match visit_all l' s' with
                    | (None, s'') => (None, s'')
                    | (Some l'', s'') => (Some (c' :: l''), s'')
                    end
                end
            end in
          match visit_all cs s1 with
          | (None, s2) => (None, s2)
          | (Some cs', s2) => (Some (Tag t a' cs'), s2)
          end
      end
  end.

Fixpoint visit_all (l : list node) (s : S) : option (list node) * S :=
  match l with
  | [] => (Some [], s)
  | c :: l' =>
      match visit c s with
      | (None, s') => (None, s')
      | (Some c', s') =>
          match visit_all l' s' with
          | (None, s'') => (None, s'')
          | (Some l'', s'') => (Some (c' :: l''), s'')
          end
      end
  end.

(** The loop over [el.find_all(...)]: the tags below [el], not [el]. *)
Definition for_each_below (el : node) (s : S) : option node * S :=
  match visit_all (contents el) s with
  | (None, s') => (None, s')
  | (Some cs, s') => (Some (with_contents el cs), s')
  end.
End Loop.

(** What a loop whose body assigns the attributes [g t a] leaves of a
    node: the same string, or the same tag with the attributes assigned. *)
Definition updated_by (g : string -> attrs -> option attrs) (n n' : node)
  : Prop :=
  match n, n' with
  | NavigableString s, NavigableString s' => s = s'
  | Tag t a _, Tag t' a' _ => t = t' /\ g t a = Some a'
  | _, _ => False
  end.

(** The loop body does not raise on a node. *)
Definition accepted_by (g : string -> attrs -> option attrs) (n : node)
  : Prop :=
  match n with
  | NavigableString _ => True
  | Tag t a _ => is_Some (g t a)
  end.

End Soup.

(** ** The script *)

Module Scrapedocs.
Import Str Urllib Soup.

(** The module-level configuration, as [__main__] leaves it. *)
Record config := mkConfig {
  BASE_URL : string;
  OUTPUT_DIR : string;
  OUTPUT_FILE : string;
  IMAGES_DIR : string;
  CONTENT_SELECTOR : string }.

(** What [session.get] gives back: it raises, or it returns a response
    with a status, the body as the HTML parser reads it ([response.text]),
    and the body as [iter_content] streams it, where the stream may
    break after the chunks listed. *)
Record response := mkResponse {
  status_code : Z;
  text : soup;
  chunks : list string;
  stream_breaks : bool }.

Inductive http_result :=
| Raises
| Returns (r : response).

(** The collaborators the script calls and does not define: the web as
    [session.get] sees it, [hashlib.md5(...).hexdigest()] (which is
    [Md5.hexdigest]), [str(element)], [html2text.HTML2Text().handle] and
    the CSS selector engine behind [soup.select_one]. *)
Record env := mkEnv {
  http_get : string -> http_result;
  md5_hexdigest : string -> string;
  element_str : node -> string;
  html2text_handle : string -> string;
  select_one : string -> soup -> selection }.

(** What the script does to the outside, in order: its messages, its
    requests ([stream] tells an image download from a page fetch), its
    pauses. *)
Inductive event :=
| LogSelectorNotFound (url : string)
| LogNoContentElement (url : string)
| LogProcessingError (url : string)
| LogDownloadingImage (img_url : string)
| LogImageError (img_url : string)
| LogProcessingLink (base_url_only : string)
| LogFetchError (base_url_only : string)
| Get (url : string) (stream : bool)
| Sleep.

Inductive inode :=
| Directory
| File (data : string).

Record world := mkWorld {
  fs : gmap string inode;
  trace : list event }.

Definition emit (e : event) (w : world) : world :=
  mkWorld (fs w) (trace w ++ [e]).

(** [os.path.exists] *)
Definition exists_ (p : string) (w : world) : bool :=
  bool_decide (is_Some (fs w !! p)).

(** The disk is a map from the paths the script names to what is there.
    The operations are those of a disk that lets the script do what it
    asks for: the parents [os.makedirs] creates on the way and the errors
    of [os.makedirs] and [open] are not recorded. *)

(** [os.makedirs(p)]: [p] becomes a directory. *)
Definition makedirs (p : string) (w : world) : world :=
  mkWorld (<[p := Directory]> (fs w)) (trace w).

(** [open(p, 'wb')] followed by the writes of [data]. *)
Definition write_file (p data : string) (w : world) : world :=
  mkWorld (<[p := File data]> (fs w)) (trace w).

Definition ensure_dir (p : string) (w : world) : world :=
  if exists_ p w then w else makedirs p w.

(** *** [is_valid] and [is_internal_link] *)

(** Where a function of the script calls [urlparse] or [urljoin], [None]
    is the [ValueError] they raise. *)

Definition is_valid (url : string) : option bool :=
  parsed ← urlparse url;
  Some (negb (is_empty (netloc parsed)) && negb (is_empty (scheme parsed))).

Definition denylist : list string :=
  [".png"; ".jpg"; ".jpeg"; ".gif"; ".css"; ".js"; ".xml"; ".rss"; ".pdf";
   ".zip"].

(** [path.endswith((...))] with a tuple of suffixes. *)
Definition endswith_any (suffixes : list string) (s : string) : bool :=
  List.existsb (fun x => endswith x s) suffixes.

Definition is_internal_link (cfg : config) (url : string) : option bool :=
  u ← urlparse url;
  b ← urlparse (BASE_URL cfg);
  if negb (String.eqb (netloc u) (netloc b)) then Some false
  else
    p ← urlparse url;
    let path := path p in
    if endswith_any denylist path then Some false
    else Some true.

(** *** [get_markdown_content] *)

(** The body of the loop over [find_all('a', href=True)]. *)
Definition resolve_href (url : string) (t : string) (a : attrs) (s : unit)
  : option attrs * unit :=
  if String.eqb t "a" then
    match a !! "href" with
    | Some href =>
        match urljoin url href with
        | Some abs => (Some (<["href" := abs]> a), s)
        | None => (None, s)
        end
    | None => (Some a, s)
    end
  else (Some a, s).

(** [re.sub(r'[^a-zA-Z0-9.]', '', ext)] *)
Definition sanitize_ext (ext : string) : string :=
  filter (fun c => is_alnum c || Ascii.eqb c ".") ext.

(** The file name of an image: the digest of its URL and its extension. *)
Definition img_filename (e : env) (img_url : string) : option string :=
  parsed ← urlparse img_url;
  let path_parts := Posixpath.splitext (path parsed) in
  let ext := if is_empty (snd path_parts) then ".png" else snd path_parts in
  let ext := sanitize_ext ext in
  Some (md5_hexdigest e img_url +:+ ext).

Definition images_fs_path (cfg : config) : string :=
  Posixpath.join (OUTPUT_DIR cfg) (IMAGES_DIR cfg).

(** The [try] block that downloads one image. *)
Definition download_image (e : env) (img_url img_fs_path : string) (w : world)
  : world :=
  let w := emit (LogDownloadingImage img_url) w in
  let w := emit (Get img_url true) w in
  match http_get e img_url with
  | Raises => emit (LogImageError img_url) w
  | Returns r =>
      if (status_code r =? 200)%Z then
        let w := write_file img_fs_path (String.concat "" (chunks r)) w in
        if stream_breaks r then emit (LogImageError img_url) w else w
      else w
  end.

(** The body of the loop over [find_all('img', src=True)]. *)
Definition localize_img (cfg : config) (e : env) (url : string)
    (t : string) (a : attrs) (w : world) : option attrs * world :=
  if String.eqb t "img" then
    match a !! "src" with
    | Some src =>
        match urljoin url src with
        | None => (None, w)
        | Some img_url =>
            match img_filename e img_url with
            | None => (None, w)
            | Some img_filename =>
                let img_fs_path :=
                  Posixpath.join (images_fs_path cfg) img_filename in
                let img_rel_path :=
                  Posixpath.join (IMAGES_DIR cfg) img_filename in
                let w :=
                  if negb (exists_ img_fs_path w)
                  then download_image e img_url img_fs_path w
                  else w in
                (Some (<["src" := img_rel_path]> a), w)
            end
        end
    | None => (Some a, w)
    end
  else (Some a, w).

(** U+200B as UTF-8, and the sequence U+00E2 U+0080 U+008B as UTF-8. *)
Definition zero_width_space : string :=
  String "226" (String "128" (String "139" EmptyString)).
Definition mojibake : string :=
  String "195" (String "162" (String "194" (String "128"
    (String "194" (String "139" EmptyString))))).

(** The title: the text of the first [title] tag or [index], cut at the
    first [|] and trimmed there, [strip] being that of the ASCII range. *)
Definition page_title_of (doc : soup) : string :=
  let page_title :=
    match find "title" doc with
    | Some title_tag => Soup.text title_tag
    | None => "index"
    end in
  if contains "|" page_title
  then strip is_space (List.hd EmptyString (split "|" page_title))
  else page_title.

Definition page_block (page_title url markdown_content : string) : string :=
  "# " +:+ page_title +:+ String "010" (String "010" "[Original URL: ")
    +:+ url +:+ String "]" (String "010" (String "010" "---"))
    +:+ String "010" (String "010" markdown_content)
    +:+ String "010" (String "010" EmptyString).

(** The outcome is [None] both for the bare [return] and for the
    [except Exception] branch; the trace tells them apart. *)
Definition get_markdown_content (cfg : config) (e : env) (url : string)
    (html_content : soup) (w : world) : option (string * string) * world :=
  let doc := html_content in
  let '(content_element, w) :=
    match select_one e (CONTENT_SELECTOR cfg) doc with
    | SelectorError => (SelectorError, w)
    | Match (Some el) => (Match (Some el), w)
    | Match None =>
        let w := emit (LogSelectorNotFound url) w in
        match select_one e "body" doc with
        | SelectorError => (SelectorError, w)
        | Match (Some el) => (Match (Some el), w)
        | Match None => (Match None, emit (LogNoContentElement url) w)
        end
    end in
  match content_element with
  | SelectorError => (None, emit (LogProcessingError url) w)
  | Match None => (None, w)
  | Match (Some content_element) =>
      match for_each_below (resolve_href url) content_element tt with
      | (None, _) => (None, emit (LogProcessingError url) w)
      | (Some content_element, _) =>
          let w := ensure_dir (images_fs_path cfg) w in
          match for_each_below (localize_img cfg e url) content_element w with
          | (None, w) => (None, emit (LogProcessingError url) w)
          | (Some content_element, w) =>
              let page_title := page_title_of doc in
              let cleaned_html :=
                delete_all mojibake
                  (delete_all zero_width_space (element_str e content_element)) in
              let markdown_content := html2text_handle e cleaned_html in
              (Some (page_block page_title url markdown_content, page_title), w)
          end
      end
  end.

(** *** [scrape_docs] *)

Record state := mkState {
  visited_urls : gset string;
  urls_to_visit : list string;
  all_markdown_content : list string;
  toc_entries : list string;
  outside : world }.

(** [urljoin(url, urlparse(url).path)], the script's way of cleaning a
    URL for comparison. *)
Definition base_url_only (url : string) : option string :=
  parsed ← urlparse url;
  urljoin url (path parsed).

(** The body of the loop over the links of a fetched page: the queue
    after one [href]. *)
Definition enqueue_link (cfg : config) (visited : gset string)
    (queue : list string) (href : string) : option (list string) :=
  full_url ← urljoin (BASE_URL cfg) href;
  full_url_base ← base_url_only full_url;
  internal ← is_internal_link cfg full_url_base;
  if internal && bool_decide (full_url_base ∉ visited) then
    if bool_decide (full_url_base ∉ queue)
    then Some (queue ++ [full_url_base])
    else Some queue
  else Some queue.

Fixpoint enqueue_links (cfg : config) (visited : gset string)
    (queue : list string) (hrefs : list string) : option (list string) :=
  match hrefs with
  | [] => Some queue
  | href :: rest =>
      queue' ← enqueue_link cfg visited queue href;
      enqueue_links cfg visited queue' rest
  end.

(** The URLs of the page fetches, and of the image downloads, of a
    trace, in order. *)
Definition page_fetches (t : list event) : list string :=
  omap (fun ev => match ev with Get u false => Some u | _ => None end) t.

Definition image_fetches (t : list event) : list string :=
  omap (fun ev => match ev with Get u true => Some u | _ => None end) t.

(** [response.raise_for_status()] raises for 4xx and 5xx. *)
Definition raises_for_status (r : response) : bool :=
  ((400 <=? status_code r) && (status_code r <? 600))%Z.

(** One turn of [while urls_to_visit]: the loop is over, it goes on, or a
    [ValueError] of [urlparse] or [urljoin] leaves it uncaught and the
    script ends without writing its output (the links already queued in
    that turn are not kept in the state given then). *)
Inductive turn :=
| Finished
| Continue (s : state)
| Uncaught (s : state).

Definition iteration (cfg : config) (e : env) (s : state) : turn :=
  match urls_to_visit s with
  | [] => Finished
  | url :: queue =>
      let s := mkState (visited_urls s) queue (all_markdown_content s)
                       (toc_entries s) (outside s) in
      match base_url_only url with
      | None => Uncaught s
      | Some base_url_only =>
          if bool_decide (base_url_only ∈ visited_urls s) then Continue s
          else
            let w := emit (LogProcessingLink base_url_only) (outside s) in
            let visited := {[base_url_only]} ∪ visited_urls s in
            let w := emit (Get url false) w in
            let failed :=
              Continue (mkState visited queue (all_markdown_content s)
                          (toc_entries s)
                          (emit (LogFetchError base_url_only) w)) in
            match http_get e url with
            | Raises => failed
            | Returns response =>
                if raises_for_status response then failed
                else
                  let '(content_data, w) :=
                    get_markdown_content cfg e base_url_only
                      (text response) w in
                  let '(contents, titles) :=
                    match content_data with
                    | Some (content, title) =>
                        (all_markdown_content s ++ [content],
                         toc_entries s ++ [title])
                    | None => (all_markdown_content s, toc_entries s)
                    end in
                  match enqueue_links cfg visited queue
                          (find_all_attr "a" "href" (text response)) with
                  | None => Uncaught (mkState visited queue contents titles w)
                  | Some queue' =>
                      Continue (mkState visited queue' contents titles
                                  (emit Sleep w))
                  end
            end
      end
  end.

(** The loop, for at most [fuel] turns: the state it stops in, whether
    by an empty queue, an uncaught [ValueError] or the end of [fuel]. *)
Inductive ending := Completed | Aborted | OutOfFuel.

Fixpoint crawl (cfg : config) (e : env) (fuel : nat) (s : state)
  : ending * state :=
  match fuel with
  | O => (OutOfFuel, s)
  | S fuel' =>
      match iteration cfg e s with
      | Finished => (Completed, s)
      | Continue s' => crawl cfg e fuel' s'
      | Uncaught s' => (Aborted, s')
      end
  end.

(** The table of contents.  [\w], [\s], [lower] and [strip] are those
    of the ASCII range, and what is stated of [slug] is stated for titles
    of ASCII characters. *)
Definition is_word (c : ascii) : bool :=
  is_alnum c || Ascii.eqb c "_".

Definition slug_keeps (c : ascii) : bool :=
  is_word c || is_space c || Ascii.eqb c "-".

Definition slug (title : string) : string :=
  replace_char " " "-" (strip is_space (filter slug_keeps (lower title))).

Definition toc_line (title : string) : string :=
  "* [" +:+ title +:+ "](#" +:+ slug title +:+ ")".

Definition newline : string := String "010" EmptyString.

Definition toc_lines (toc_entries : list string) : list string :=
  ("# Table of Contents" +:+ newline) :: List.map toc_line toc_entries.

Definition output_text (s : state) : string :=
  join newline (toc_lines (toc_entries s))
    +:+ newline +:+ newline +:+ "---" +:+ newline +:+ newline
    +:+ join newline (all_markdown_content s).

(** The state at the first test of the loop, over the files [files]
    the run finds on disk. *)
Definition initial (cfg : config) (files : gmap string inode) : state :=
  mkState ∅ [BASE_URL cfg] [] []
    (ensure_dir (OUTPUT_DIR cfg) (mkWorld files [])).

(** [scrape_docs()]: the world it leaves behind when the loop ends within
    [fuel] turns; the output file is written only then. *)
Definition scrape_docs (cfg : config) (e : env) (fuel : nat)
    (files : gmap string inode) : ending * state :=
  match crawl cfg e fuel (initial cfg files) with
  | (Completed, s) =>
      let output_path := Posixpath.join (OUTPUT_DIR cfg) (OUTPUT_FILE cfg) in
      (Completed,
       mkState (visited_urls s) (urls_to_visit s) (all_markdown_content s)
         (toc_entries s) (write_file output_path (output_text s) (outside s)))
  | r => r
  end.

(** *** What the loops of [get_markdown_content] assign and respect *)

(** The attributes the loop over the links assigns. *)
Definition resolved_attrs (url : string) (t : string) (a : attrs)
  : option attrs :=
  (resolve_href url t a tt).1.

(** The local reference of an image whose reference on the page at [url]
    is [src]. *)
Definition img_rel_path (cfg : config) (e : env) (url src : string)
  : option string :=
  img_url ← urljoin url src;
  img_filename ← img_filename e img_url;
  Some (Posixpath.join (IMAGES_DIR cfg) img_filename).

(** The attributes the loop over the images assigns. *)
Definition localized_attrs (cfg : config) (e : env) (url : string)
    (t : string) (a : attrs) : option attrs :=
  if String.eqb t "img" then
    match a !! "src" with
    | Some src =>
        rel ← img_rel_path cfg e url src;
        Some (<["src" := rel]> a)
    | None => Some a
    end
  else Some a.

(** The element that is converted: the first match of the selector, or
    else the [body]. *)
Definition content_element_of (cfg : config) (e : env) (doc : soup)
  : option node :=
  match select_one e (CONTENT_SELECTOR cfg) doc with
  | SelectorError => None
  | Match (Some el) => Some el
  | Match None =>
      match select_one e "body" doc with
      | Match (Some el) => Some el
      | _ => None
      end
  end.

(** The element as it is handed to the converter: links resolved, images
    pointing to their local files. *)
Definition rewritten (cfg : config) (e : env) (url : string) (el : node)
  : option node :=
  el ← (for_each_below (resolve_href url) el tt).1;
  (for_each_below (fun t a (_ : unit) => (localized_attrs cfg e url t a, tt))
     el tt).1.

(** [html2text] over [str(content_element)] without the artifacts. *)
Definition markdown_of (e : env) (content_element : node) : string :=
  html2text_handle e
    (delete_all mojibake
       (delete_all zero_width_space (element_str e content_element))).

(** What [get_markdown_content] returns, without what it does. *)
Definition rendered (cfg : config) (e : env) (url : string) (doc : soup)
  : option (string * string) :=
  el ← content_element_of cfg e doc;
  el' ← rewritten cfg e url el;
  Some (page_block (page_title_of doc) url (markdown_of e el'),
        page_title_of doc).

(** The cache is respected from [w] to [w']: every file and directory of
    [w] is in [w'] as it was, and the trace has grown by events among
    which an image is downloaded only if its file was missing in [w]. *)
Definition cache_respected (cfg : config) (e : env) (w w' : world) : Prop :=
  fs w ⊆ fs w' /\
  exists evs, trace w' = trace w ++ evs /\
    forall img_url name,
      img_url ∈ image_fetches evs -> img_filename e img_url = Some name ->
      fs w !! Posixpath.join (images_fs_path cfg) name = None.

(** No page is fetched from [w] to [w']. *)
Definition same_page_fetches (w w' : world) : Prop :=
  page_fetches (trace w') = page_fetches (trace w).

(** Every page fetched so far has its cleaned URL in the visited set, and
    no URL was fetched twice. *)
Definition fetched_once (s : state) : Prop :=
  NoDup (page_fetches (trace (outside s))) /\
  forall u, u ∈ page_fetches (trace (outside s)) ->
    exists c, base_url_only u = Some c /\ c ∈ visited_urls s.

(** *** The turns of the loop, case by case *)

(** The world after the messages and the request that open a fetch. *)
Definition fetching (url c : string) (w : world) : world :=
  emit (Get url false) (emit (LogProcessingLink c) w).

(** What is collected after [get_markdown_content] returned. *)
Definition collected_contents (content_data : option (string * string))
    (s : state) : list string :=
  match content_data with
  | Some (content, _) => all_markdown_content s ++ [content]
  | None => all_markdown_content s
  end.

Definition collected_titles (content_data : option (string * string))
    (s : state) : list string :=
  match content_data with
  | Some (_, title) => toc_entries s ++ [title]
  | None => toc_entries s
  end.

(** The outcomes of one turn from [s]. *)
Inductive turn_from (cfg : config) (e : env) (s : state) : turn -> Prop :=
| turn_finished :
    urls_to_visit s = [] ->
    turn_from cfg e s Finished
| turn_unclean url rest :
    urls_to_visit s = url :: rest ->
    base_url_only url = None ->
    turn_from cfg e s
      (Uncaught (mkState (visited_urls s) rest (all_markdown_content s)
                   (toc_entries s) (outside s)))
| turn_skipped url rest c :
    urls_to_visit s = url :: rest ->
    base_url_only url = Some c ->
    c ∈ visited_urls s ->
    turn_from cfg e s
      (Continue (mkState (visited_urls s) rest (all_markdown_content s)
                   (toc_entries s) (outside s)))
| turn_failed url rest c :
    urls_to_visit s = url :: rest ->
    base_url_only url = Some c ->
    c ∉ visited_urls s ->
    (http_get e url = Raises \/
     exists r, http_get e url = Returns r /\ raises_for_status r = true) ->
    turn_from cfg e s
      (Continue (mkState ({[c]} ∪ visited_urls s) rest (all_markdown_content s)
                   (toc_entries s)
                   (emit (LogFetchError c) (fetching url c (outside s)))))
| turn_crashed url rest c r content_data w :
    urls_to_visit s = url :: rest ->
    base_url_only url = Some c ->
    c ∉ visited_urls s ->
    http_get e url = Returns r ->
    raises_for_status r = false ->
    get_markdown_content cfg e c (text r) (fetching url c (outside s))
    = (content_data, w) ->
    enqueue_links cfg ({[c]} ∪ visited_urls s) rest
      (find_all_attr "a" "href" (text r)) = None ->
    turn_from cfg e s
      (Uncaught (mkState ({[c]} ∪ visited_urls s) rest
                   (collected_contents content_data s)
                   (collected_titles content_data s) w))
| turn_fetched url rest c r content_data w queue :
    urls_to_visit s = url :: rest ->
    base_url_only url = Some c ->
    c ∉ visited_urls s ->
    http_get e url = Returns r ->
    raises_for_status r = false ->
    get_markdown_content cfg e c (text r) (fetching url c (outside s))
    = (content_data, w) ->
    enqueue_links cfg ({[c]} ∪ visited_urls s) rest
      (find_all_attr "a" "href" (text r)) = Some queue ->
    turn_from cfg e s
      (Continue (mkState ({[c]} ∪ visited_urls s) queue
                   (collected_contents content_data s)
                   (collected_titles content_data s) (emit Sleep w))).

(** ** The turns of the crawl loop *)


(** *** What a run leaves on disk *)


(** *** Pauses and failed fetches *)

(** How often the script slept, and how often it reported a page that
    could not be fetched. *)
Definition pauses (t : list event) : nat :=
  List.length
    (List.filter (fun ev => match ev with Sleep => true | _ => false end) t).

Definition fetch_errors (t : list event) : nat :=
  List.length
    (List.filter
       (fun ev => match ev with LogFetchError _ => true | _ => false end) t).

End Scrapedocs.

(** ** The command line

    [__main__] sets the configuration from the parsed arguments and the
    time the script was started at, and calls [scrape_docs].  The two
    durations, [--timeout] and [--delay], are not kept: the requests and
    the pauses of a trace carry none. *)

Module Main.
Import Str Scrapedocs.

(** [args], after [parse_args] filled in the defaults; [run_name] is
    [None] when the option is not given. *)
Record args := mkArgs {
  url : string;
  selector : string;
  output_dir : string;
  output : string;
  images_dir : string;
  run_name : option string;
  append_to_timestamp : bool }.

(** [subdir_name], for [timestamp] the value of
    [time.strftime("%Y%m%d_%H%M%S")]; an empty [run_name] is false. *)
Definition subdir_name (timestamp : string) (a : args) : string :=
  match run_name a with
  | Some name =>
      if negb (is_empty name) then
        if append_to_timestamp a then timestamp +:+ "_" +:+ name
        else name
      else timestamp
  | None => timestamp
  end.

Definition configure (timestamp : string) (a : args) : config :=
  mkConfig (url a)
    (Posixpath.join (output_dir a) (subdir_name timestamp a))
    (output a) (images_dir a) (selector a).

(** The whole script. *)
Definition main (timestamp : string) (a : args) (e : env) (fuel : nat)
    (files : gmap string inode) : ending * state :=
  scrape_docs (configure timestamp a) e fuel files.

End Main.

(** ** The claims of the specification, in the words of the specification

    Where a claim describes a computation, the description is written out
    next to the code's own definition and the two are compared. *)

Module Claimed.
Import Str Urllib Soup Scrapedocs.


(** A URL is eligible for the queue, as the specification words it: it
    has a scheme and a host, its host is the root's, and its path does
    not end in a denylisted extension. *)
Definition eligible_as_claimed (cfg : config) (url : string) : Prop :=
  is_valid url = Some true /\
  (exists u b, urlparse url = Some u /\ urlparse (BASE_URL cfg) = Some b /\
               netloc u = netloc b /\
               endswith_any denylist (path u) = false).

(** The extension of a path, in words: the text from the last dot of the
    last component on, when something other than dots comes before that
    dot in the component; nothing otherwise. *)
Definition extension_of (p ext : string) : Prop :=
  exists dir base,
    p = dir +:+ base /\
    contains "/" base = false /\
    (dir = "" \/ last_is (fun c => Ascii.eqb c "/") dir = true) /\
    ((contains "." base = false /\ ext = "") \/
     (exists stem x,
         base = stem +:+ String "." x /\ contains "." x = false /\
         ((existsb (fun c => negb (Ascii.eqb c ".")) stem = true /\
           ext = String "." x) \/
          (forallb (fun c => Ascii.eqb c ".") stem = true /\ ext = "")))).

End Claimed.

(** ** Sites and pages the statements are tried on *)

Module Sites.
Import Str Urllib Soup Scrapedocs.

(** The configuration the script starts with. *)
Definition default_config : config :=
  mkConfig "https://docs.sl.antimatter.io/" "output" "scrapedocs.md"
           "images" "main".

(** A root given without a trailing slash. *)
Definition bare_root_config : config :=
  mkConfig "https://docs.example.com" "output" "scrapedocs.md"
           "images" "main".

Definition link (href label : string) : node :=
  Tag "a" {["href" := href]} [NavigableString label].

Definition html_page (title : string) (body : list node) : soup :=
  [Tag "html" ∅
     [Tag "head" ∅ [Tag "title" ∅ [NavigableString title]];
      Tag "body" ∅ body]].

(** A page whose links are the anchors of its own sections. *)
Definition anchors_page : soup :=
  html_page "Home"
    [Tag "main" ∅ [link "#install" "Install"; link "#usage" "Usage"]].

(** A page that pages through itself with a query string. *)
Definition paging_page : soup :=
  html_page "List" [Tag "main" ∅ [link "?page=2" "Next"]].

(** A page without [main] and without [body]. *)
Definition bare_fragment : soup :=
  [Tag "p" ∅ [NavigableString "moved"]].

(** A page with a relative link in its content. *)
Definition guide_page : soup :=
  html_page "Intro" [Tag "main" ∅ [link "next" "Next"]].

(** A page with one image. *)
Definition image_page : soup :=
  html_page "Logo"
    [Tag "main" ∅ [Tag "img" {["src" := "https://site/a.png"]} []]].

(** A page with three images: one with the extension [.png], one whose
    extension holds a hyphen and comes before a query string, one
    without an extension. *)
Definition gallery_page : soup :=
  html_page "Gallery"
    [Tag "main" ∅
       [Tag "img" {["src" := "https://site/a.png"]} [];
        Tag "img" {["src" := "pics/logo.final.jp-g?v=2"]} [];
        Tag "img" {["src" := "pics/logo"]} []]].

(** A page without [main] whose body holds a link with an opening
    bracket and no closing one. *)
Definition bad_link_page : soup :=
  html_page "Odd" [link "http://[" "odd"].

Definition ok (page : soup) : http_result :=
  Returns (mkResponse 200 page [] false).

(** The libraries: the MD5 digest, and as stand-ins for the rendering a
    tag rendered by its text and a converter that changes nothing. *)
Definition plain (n : node) : string := Soup.text n.

(** A selector engine that knows type selectors only. *)
Definition by_tag (sel : string) (doc : soup) : selection :=
  Match (find sel doc).

Definition serving (web : string -> http_result) : env :=
  mkEnv web Md5.hexdigest plain (fun s => s) by_tag.

Definition always (page : soup) : env := serving (fun _ => ok page).

End Sites.

(** ** The digest on the test suite of RFC 1321 *)

Example md5_of_empty : Md5.hexdigest "" = "d41d8cd98f00b204e9800998ecf8427e".
Proof. vm_compute. reflexivity. Qed.

Example md5_of_abc : Md5.hexdigest "abc" = "900150983cd24fb0d6963f7d28e17f72".
Proof. vm_compute. reflexivity. Qed.

Example md5_of_message_digest :
  Md5.hexdigest "message digest" = "f96b697d7cb7938d525a2f31aaf161d0".
Proof. vm_compute. reflexivity. Qed.

Example md5_of_two_blocks :
  Md5.hexdigest
    "12345678901234567890123456789012345678901234567890123456789012345678901234567890"
  = "57edf4a22be3c955ac49da2e2107b67a".
Proof. vm_compute. reflexivity. Qed.

Example md5_of_image_url :
  Md5.hexdigest "https://site/a.png" = "053536831fcd2a6118df76019c875d58".
Proof. vm_compute. reflexivity. Qed.

(** ** Facts about the string operations *)

Module StrFacts.
Import Str.

Lemma app_nil_r (s : string) : s +:+ "" = s.
Proof. induction s as [|c s IH]; simpl; congruence. Qed.

Lemma app_assoc (a b c : string) : (a +:+ b) +:+ c = a +:+ (b +:+ c).
Proof. induction a as [|x a IH]; simpl; congruence. Qed.


Lemma forallb_app (p : ascii -> bool) (a b : string) :
  forallb p (a +:+ b) = forallb p a && forallb p b.
Proof.
  induction a as [|x a IH]; simpl; [reflexivity|].
  rewrite IH. now rewrite andb_assoc.
Qed.

Lemma existsb_app (p : ascii -> bool) (a b : string) :
  existsb p (a +:+ b) = existsb p a || existsb p b.
Proof.
  induction a as [|x a IH]; simpl; [reflexivity|].
  rewrite IH. now rewrite orb_assoc.
Qed.

(** [lstrip] takes a run of [p]-characters off the front and stops at
    the first character outside [p]. *)
Lemma lstrip_split (p : ascii -> bool) (s : string) :
  exists l, s = l +:+ lstrip p s /\ forallb p l = true.
Proof.
  induction s as [|c s [l [Hs Hl]]]; simpl.
  - exists ""; split; reflexivity.
  - destruct (p c) eqn:Hc.
    + exists (String c l); simpl. rewrite Hc, Hl. split; [now f_equal | reflexivity].
    + exists ""; split; reflexivity.
Qed.

Lemma lstrip_head (p : ascii -> bool) (s : string) :
  head_is p (lstrip p s) = false.
Proof.
  induction s as [|c s IH]; simpl; [reflexivity|].
  destruct (p c) eqn:Hc; [exact IH | simpl; exact Hc].
Qed.

Lemma rstrip_split (p : ascii -> bool) (s : string) :
  exists r, s = rstrip p s +:+ r /\ forallb p r = true.
Proof.
  induction s as [|c s [r [Hs Hr]]]; simpl.
  - exists ""; split; reflexivity.
  - destruct (rstrip p s) as [|d t] eqn:Hrs.
    + simpl in Hs. subst r. destruct (p c) eqn:Hc.
      * exists (String c s); simpl. rewrite Hc, Hr. split; reflexivity.
      * exists s; simpl. split; [reflexivity | exact Hr].
    + exists r; simpl. split; [now rewrite Hs at 1 | exact Hr].
Qed.

Lemma rstrip_last (p : ascii -> bool) (s : string) :
  last_is p (rstrip p s) = false.
Proof.
  induction s as [|c s IH]; simpl; [reflexivity|].
  destruct (rstrip p s) as [|d t] eqn:Hrs.
  - destruct (p c) eqn:Hc; simpl; [reflexivity | exact Hc].
  - exact IH.
Qed.

Lemma rstrip_head (p : ascii -> bool) (s : string) :
  head_is p s = false -> head_is p (rstrip p s) = false.
Proof.
  destruct s as [|c s]; simpl; [reflexivity|]. intros Hc.
  destruct (rstrip p s); [rewrite Hc|]; simpl; exact Hc.
Qed.

(** [strip] cuts [s] into a run of [p]-characters, the kept middle and
    another run of [p]-characters; the middle neither starts nor ends
    in [p]. *)
Lemma strip_split (p : ascii -> bool) (s : string) :
  exists l r, s = l +:+ strip p s +:+ r /\
              forallb p l = true /\ forallb p r = true /\
              head_is p (strip p s) = false /\
              last_is p (strip p s) = false.
Proof.
  destruct (lstrip_split p s) as [l [Hs Hl]].
  destruct (rstrip_split p (lstrip p s)) as [r [Hm Hr]].
  exists l, r. unfold strip. repeat split; try assumption.
  - now rewrite <- Hm.
  - apply rstrip_head, lstrip_head.
  - apply rstrip_last.
Qed.

End StrFacts.

Import Str Urllib Soup Scrapedocs.

(** ** Facts about splitting and joining URLs *)

Module UrlFacts.
Import StrFacts.

(** *** Parts of a string *)

Lemma contains_app (c : ascii) (a b : string) :
  contains c (a +:+ b) = contains c a || contains c b.
Proof. apply existsb_app. Qed.

Lemma contains_cons (c d : ascii) (s : string) :
  contains c (String d s) = Ascii.eqb c d || contains c s.
Proof. reflexivity. Qed.

Lemma partition_none (c : ascii) (s : string) :
  partition c s = None -> contains c s = false.
Proof.
  induction s as [|d s IH]; simpl; [reflexivity|].
  rewrite contains_cons, (Ascii.eqb_sym c d).
  destruct (Ascii.eqb d c); [discriminate|].
  destruct (partition c s) as [[a b]|]; [discriminate|]. intros _. now apply IH.
Qed.

Lemma contains_false_partition (c : ascii) (s : string) :
  contains c s = false -> partition c s = None.
Proof.
  induction s as [|d s IH]; simpl; [reflexivity|].
  rewrite contains_cons, (Ascii.eqb_sym c d).
  destruct (Ascii.eqb d c); [discriminate|]. simpl. intros H. now rewrite IH.
Qed.

Lemma partition_some (c : ascii) (s a b : string) :
  partition c s = Some (a, b) ->
  s = a +:+ String c b /\ contains c a = false.
Proof.
  revert a b. induction s as [|d s IH]; intros a b; simpl; [discriminate|].
  destruct (Ascii.eqb_spec d c) as [->|Hdc].
  - intros H. inversion H; subst. split; reflexivity.
  - destruct (partition c s) as [[a' b']|]; [|discriminate].
    intros H. inversion H; subst. destruct (IH a' b eq_refl) as [-> Ha].
    split; [reflexivity|]. rewrite contains_cons, Ha.
    destruct (Ascii.eqb_spec c d); [congruence|reflexivity].
Qed.

Lemma rpartition_some (c : ascii) (s a b : string) :
  rpartition c s = Some (a, b) ->
  s = a +:+ String c b /\ contains c b = false.
Proof.
  revert a b. induction s as [|d s IH]; intros a b; simpl; [discriminate|].
  destruct (rpartition c s) as [[a' b']|] eqn:Hr.
  - intros H. inversion H; subst. destruct (IH a' b eq_refl) as [-> Hb].
    split; [reflexivity|exact Hb].
  - destruct (Ascii.eqb_spec d c) as [->|]; [|discriminate].
    intros H. inversion H; subst. split; [reflexivity|].
    clear -Hr. induction b as [|x b IHb]; [reflexivity|].
    simpl in Hr. destruct (rpartition c b) as [[? ?]|]; [discriminate|].
    rewrite contains_cons, (Ascii.eqb_sym c x).
    destruct (Ascii.eqb x c); [discriminate|]. now apply IHb.
Qed.

Lemma rpartition_app (c : ascii) (a b : string) :
  contains c b = false -> rpartition c (a +:+ String c b) = Some (a, b).
Proof.
  intros Hb.
  assert (Hnone : rpartition c b = None).
  { clear a. induction b as [|x b IHb]; [reflexivity|].
    rewrite contains_cons, (Ascii.eqb_sym c x) in Hb. simpl.
    destruct (Ascii.eqb x c); [discriminate|]. simpl in Hb. now rewrite IHb. }
  induction a as [|x a IH]; simpl.
  - now rewrite Hnone, Ascii.eqb_refl.
  - now rewrite IH.
Qed.

Lemma part_refl (x : string) : part x x.
Proof. exists "", "". simpl. now rewrite app_nil_r. Qed.

Lemma part_trans (x y z : string) : part x y -> part y z -> part x z.
Proof.
  intros (l1 & r1 & ->) (l2 & r2 & ->). exists (l2 +:+ l1), (r1 +:+ r2).
  now rewrite !app_assoc.
Qed.

Lemma part_prefix (x r : string) : part x (x +:+ r).
Proof. exists "", r. reflexivity. Qed.

Lemma part_suffix (l x : string) : part x (l +:+ x).
Proof. exists l, "". now rewrite app_nil_r. Qed.

Lemma part_after (a b : string) (c : ascii) : part b (a +:+ String c b).
Proof.
  exists (a +:+ String c ""), "". rewrite app_nil_r, app_assoc. reflexivity.
Qed.

Lemma part_forallb (q : ascii -> bool) (x y : string) :
  part x y -> forallb q y = true -> forallb q x = true.
Proof.
  intros (l & r & ->). rewrite !forallb_app.
  intros H. apply andb_true_iff in H as [_ H]. now apply andb_true_iff in H as [H _].
Qed.

Lemma part_contains (c : ascii) (x y : string) :
  part x y -> contains c y = false -> contains c x = false.
Proof.
  intros (l & r & ->). rewrite !contains_app.
  intros H. apply orb_false_iff in H as [_ H]. now apply orb_false_iff in H as [H _].
Qed.

Lemma forallb_filter (q : ascii -> bool) (s : string) :
  forallb q (filter q s) = true.
Proof.
  induction s as [|c s IH]; simpl; [reflexivity|].
  destruct (q c) eqn:Hc; simpl; [now rewrite Hc|exact IH].
Qed.

Lemma filter_id (q : ascii -> bool) (s : string) :
  forallb q s = true -> filter q s = s.
Proof.
  induction s as [|c s IH]; simpl; [reflexivity|].
  intros H. apply andb_true_iff in H as [Hc Hs]. now rewrite Hc, IH.
Qed.

Lemma lstrip_id (q : ascii -> bool) (s : string) :
  head_is q s = false -> lstrip q s = s.
Proof. destruct s as [|c s]; simpl; [reflexivity|]. now intros ->. Qed.

Lemma rstrip_id (q : ascii -> bool) (s : string) :
  forallb (fun c => negb (q c)) s = true -> rstrip q s = s.
Proof.
  induction s as [|c s IH]; simpl; [reflexivity|].
  intros H. apply andb_true_iff in H as [Hc Hs]. rewrite (IH Hs).
  destruct s; [|reflexivity]. apply negb_true_iff in Hc. now rewrite Hc.
Qed.

Lemma strip_id (q : ascii -> bool) (s : string) :
  forallb (fun c => negb (q c)) s = true -> strip q s = s.
Proof.
  intros H. unfold strip. rewrite lstrip_id; [now apply rstrip_id|].
  destruct s as [|c s]; [reflexivity|]. simpl in *.
  apply andb_true_iff in H as [Hc _]. now apply negb_true_iff in Hc.
Qed.

Lemma drop_prefix_part (p s : string) : part (drop_prefix p s) s.
Proof.
  revert s. induction p as [|a p IH]; intros s; simpl; [apply part_refl|].
  destruct s as [|b s]; [apply part_refl|].
  eapply part_trans; [apply IH|]. apply (part_suffix (String b "") s).
Qed.

Lemma break_spec (q : ascii -> bool) (s a b : string) :
  break q s = (a, b) ->
  s = a +:+ b /\ forallb (fun c => negb (q c)) a = true /\
  (b = "" \/ head_is q b = true).
Proof.
  revert a b. induction s as [|c s IH]; intros a b; simpl.
  - intros H. inversion H; subst. repeat split. now left.
  - destruct (q c) eqn:Hc.
    + intros H. inversion H; subst. repeat split. right. exact Hc.
    + destruct (break q s) as [a' b'] eqn:Hb. intros H. inversion H; subst.
      destruct (IH a' b eq_refl) as (-> & Ha & Hh).
      split; [reflexivity|]. split; [|exact Hh]. simpl. now rewrite Hc.
Qed.

Lemma head_is_app (q : ascii -> bool) (a b : string) :
  a <> "" -> head_is q (a +:+ b) = head_is q a.
Proof. destruct a; [congruence|reflexivity]. Qed.

(** *** Characters *)

Lemma scheme_char_lower_clean (c : ascii) :
  is_scheme_char c = true ->
  is_c0_or_space (lower_char c) = false /\ is_unsafe (lower_char c) = false /\
  is_scheme_char (lower_char c) = true /\
  Ascii.eqb "?" (lower_char c) = false /\ Ascii.eqb "#" (lower_char c) = false.
Proof.
  destruct c as [[|] [|] [|] [|] [|] [|] [|] [|]]; vm_compute;
    intros H; try discriminate H; repeat split.
Qed.

Lemma netloc_delim_cases (c : ascii) :
  is_netloc_delim c = true -> c = "/"%char \/ c = "?"%char \/ c = "#"%char.
Proof.
  unfold is_netloc_delim.
  destruct (Ascii.eqb_spec c "/"); [now left|].
  destruct (Ascii.eqb_spec c "?"); [now right; left|].
  destruct (Ascii.eqb_spec c "#"); [now right; right|]. discriminate.
Qed.

(** *** The path, query and fragment of the text behind the authority *)

Lemma tail_split_spec (url p q f : string) :
  tail_split url = (p, q, f) ->
  part p url /\ contains "#" p = false /\ contains "?" p = false /\
  (url = "" \/ head_is is_netloc_delim url = true ->
   p = "" \/ head_is is_slash p = true).
Proof.
  unfold tail_split.
  destruct (partition "#" url) as [[a b]|] eqn:Hf.
  - apply partition_some in Hf as [-> Ha].
    destruct (partition "?" a) as [[a' b']|] eqn:Hq.
    + apply partition_some in Hq as [-> Ha']. intros H. inversion H; subst.
      split; [|split; [|split]].
      * rewrite app_assoc. apply part_prefix.
      * rewrite contains_app in Ha. now apply orb_false_iff in Ha.
      * exact Ha'.
      * intros [Hu|Hu]; [destruct p; discriminate|].
        destruct p as [|c p]; [now left|]. right. simpl in *.
        apply netloc_delim_cases in Hu as [->| [->| ->]]; try reflexivity;
          discriminate.
    + apply partition_none in Hq. intros H. inversion H; subst.
      split; [|split; [|split]]; try assumption.
      * apply part_prefix.
      * intros [Hu|Hu]; [destruct p; discriminate|].
        destruct p as [|c p]; [now left|]. right. simpl in *.
        apply netloc_delim_cases in Hu as [->| [->| ->]]; try reflexivity;
          discriminate.
  - apply partition_none in Hf.
    destruct (partition "?" url) as [[a' b']|] eqn:Hq.
    + apply partition_some in Hq as [-> Ha']. intros H. inversion H; subst.
      split; [|split; [|split]].
      * apply part_prefix.
      * rewrite contains_app in Hf. now apply orb_false_iff in Hf.
      * exact Ha'.
      * intros [Hu|Hu]; [destruct p; discriminate|].
        destruct p as [|c p]; [now left|]. right. simpl in *.
        apply netloc_delim_cases in Hu as [->| [->| ->]]; try reflexivity;
          discriminate.
    + apply partition_none in Hq. intros H. inversion H; subst.
      split; [apply part_refl|]. split; [exact Hf|]. split; [exact Hq|].
      intros [Hu|Hu]; [now left|].
      destruct p as [|c p]; [now left|]. right. simpl in *.
      apply netloc_delim_cases in Hu as [->| [->| ->]]; try reflexivity;
        discriminate.
Qed.

(** *** The scheme and the authority *)

Lemma urlsplit_halves (url scheme : string) :
  urlsplit url scheme =
  let '(sch, netloc, rest) := head_split url scheme in
  if netloc_rejected netloc then None
  else let '(p, q, f) := tail_split rest in Some (mkSplit sch netloc p q f).
Proof.
  unfold urlsplit, head_split, tail_split.
  destruct (partition ":" _) as [[pre post]|];
    [destruct (negb (is_empty pre) && _ && _)|];
    (destruct (startswith "//" _); [destruct (_splitnetloc _) as [n u]|]);
    destruct (netloc_rejected _); try reflexivity;
    (destruct (partition "#" _) as [[a b]|];
     [destruct (partition "?" a) as [[a' b']|]|
      destruct (partition "?" _) as [[a' b']|]]); reflexivity.
Qed.

Lemma lower_scheme_clean (pre : string) :
  forallb is_scheme_char pre = true ->
  forallb (fun c => negb (is_c0_or_space c)) (lower pre) = true /\
  forallb not_unsafe (lower pre) = true /\
  contains "?" (lower pre) = false /\ contains "#" (lower pre) = false.
Proof.
  unfold lower, not_unsafe, contains.
  induction pre as [|c pre IH]; cbn [map forallb existsb]; [repeat split|].
  intros H. apply andb_true_iff in H as [Hc Hpre].
  destruct (scheme_char_lower_clean c Hc) as (H1 & H2 & _ & H3 & H4).
  destruct (IH Hpre) as (I1 & I2 & I3 & I4).
  rewrite H1, H2, H3, H4, I1, I2, I3, I4. repeat split.
Qed.

Lemma parsed_scheme_clean (sch : string) :
  parsed_scheme sch ->
  remove_unsafe (strip is_c0_or_space sch) = sch /\
  contains "?" sch = false /\ contains "#" sch = false.
Proof.
  intros [->|(pre & Hpre & ->)]; [repeat split|].
  destruct (lower_scheme_clean pre Hpre) as (H1 & H2 & H3 & H4).
  rewrite strip_id by exact H1. unfold remove_unsafe.
  rewrite filter_id by exact H2. repeat split; assumption.
Qed.

Lemma head_split_spec (url sch netloc rest : string) :
  head_split url "" = (sch, netloc, rest) ->
  parsed_scheme sch /\
  forallb not_unsafe rest = true /\
  forallb (fun c => negb (is_netloc_delim c)) netloc = true /\
  (netloc <> "" -> rest = "" \/ head_is is_netloc_delim rest = true).
Proof.
  unfold head_split.
  set (url0 := remove_unsafe (lstrip is_c0_or_space url)).
  assert (Hclean : forallb not_unsafe url0 = true) by apply forallb_filter.
  change (remove_unsafe (strip is_c0_or_space "")) with "".
  assert (Hstage : forall sch1 url1,
             parsed_scheme sch1 -> part url1 url0 ->
             (let '(netloc, url) :=
                if startswith "//" url1 then _splitnetloc (drop_prefix "//" url1)
                else ("", url1) in (sch1, netloc, url)) = (sch, netloc, rest) ->
             parsed_scheme sch /\
             forallb not_unsafe rest = true /\
             forallb (fun c => negb (is_netloc_delim c)) netloc = true /\
             (netloc <> "" -> rest = "" \/ head_is is_netloc_delim rest = true)).
  { intros sch1 url1 Hsch Hpart.
    destruct (startswith "//" url1).
    - unfold _splitnetloc.
      destruct (break is_netloc_delim (drop_prefix "//" url1)) as [n u] eqn:Hb.
      intros H. inversion H; subst.
      destruct (break_spec _ _ _ _ Hb) as (Hsplit & Hn & Hu).
      split; [exact Hsch|]. split; [|split; [exact Hn|intros _; exact Hu]].
      eapply part_forallb; [|exact Hclean].
      eapply part_trans; [|exact Hpart].
      eapply part_trans; [|apply drop_prefix_part]. rewrite Hsplit. apply part_suffix.
    - intros H. inversion H; subst.
      split; [exact Hsch|]. split; [|split; [reflexivity|congruence]].
      eapply part_forallb; [exact Hpart|exact Hclean]. }
  destruct (partition ":" url0) as [[pre post]|] eqn:Hp.
  - destruct (negb (is_empty pre) && first_is_alpha url0
              && forallb is_scheme_char pre) eqn:Hcond.
    + apply Hstage.
      * right. exists pre. split; [|reflexivity].
        now apply andb_true_iff in Hcond as [_ Hcond].
      * apply partition_some in Hp as [-> _]. apply part_after.
    + apply Hstage; [now left|apply part_refl].
  - apply Hstage; [now left|apply part_refl].
Qed.

(** Reading a path again: a text that starts with one slash and holds no
    TAB, CR or LF has no scheme and no authority. *)
Lemma head_split_path (path sch : string) :
  head_is is_slash path = true ->
  startswith "//" path = false ->
  forallb not_unsafe path = true ->
  head_split path sch = (remove_unsafe (strip is_c0_or_space sch), "", path).
Proof.
  intros Hhead Hdouble Hclean. unfold head_split.
  assert (Hl : lstrip is_c0_or_space path = path).
  { apply lstrip_id. destruct path as [|c path]; [reflexivity|]. simpl in *.
    unfold is_slash in Hhead. apply Ascii.eqb_eq in Hhead. now subst c. }
  assert (Hr : remove_unsafe path = path) by exact (filter_id not_unsafe path Hclean).
  rewrite Hl, Hr.
  assert (Halpha : first_is_alpha path = false).
  { destruct path as [|c path]; [reflexivity|]. simpl in *.
    unfold is_slash in Hhead. apply Ascii.eqb_eq in Hhead. now subst c. }
  destruct (partition ":" path) as [[pre post]|].
  - rewrite Halpha, andb_false_r, andb_false_l. cbv beta iota zeta.
    now rewrite Hdouble.
  - cbv beta iota zeta. now rewrite Hdouble.
Qed.

(** *** Parameters *)

Lemma splitparams_fst (x y params : string) :
  _splitparams x = (y, params) ->
  (exists r, x = y +:+ r) /\
  (if contains ";" y then _splitparams y else (y, "")) = (y, "").
Proof.
  intros H. unfold _splitparams in H.
  destruct (contains "/" x) eqn:Hs.
  - destruct (rpartition "/" x) as [[dir last]|] eqn:Hr.
    + destruct (partition ";" last) as [[a b]|] eqn:Hp; injection H as <- <-.
      * apply rpartition_some in Hr as [-> Hlast].
        apply partition_some in Hp as [-> Ha].
        split; [exists (String ";" b); now rewrite !app_assoc|].
        destruct (contains ";" (dir +:+ String "/" a)); [|reflexivity].
        unfold _splitparams.
        assert (Hc : contains "/" (dir +:+ String "/" a) = true).
        { rewrite contains_app, contains_cons. simpl. apply orb_true_r. }
        rewrite Hc, rpartition_app.
        -- now rewrite (contains_false_partition _ _ Ha).
        -- rewrite contains_app in Hlast. now apply orb_false_iff in Hlast.
      * split; [exists ""; now rewrite app_nil_r|].
        destruct (contains ";" x); [|reflexivity].
        unfold _splitparams. now rewrite Hs, Hr, Hp.
    + injection H as <- <-. split; [exists ""; now rewrite app_nil_r|].
      destruct (contains ";" x); [|reflexivity].
      unfold _splitparams. now rewrite Hs, Hr.
  - destruct (partition ";" x) as [[a b]|] eqn:Hp; injection H as <- <-.
    + apply partition_some in Hp as [-> Ha].
      split; [now exists (String ";" b)|]. now rewrite Ha.
    + split; [exists ""; now rewrite app_nil_r|].
      now rewrite (partition_none _ _ Hp).
Qed.

(** *** What [urlparse] returns *)

Lemma urlparse_well_parsed (url : string) (p : ParseResult) :
  urlparse url = Some p -> well_parsed p.
Proof.
  unfold urlparse, urlparse_with. rewrite urlsplit_halves.
  destruct (head_split url "") as [[sch n] rest] eqn:Hh.
  destruct (head_split_spec _ _ _ _ Hh) as (Hsch & Hrest & Hn & Hroot).
  destruct (netloc_rejected n); [discriminate|].
  destruct (tail_split rest) as [[pp q] f] eqn:Ht.
  destruct (tail_split_spec _ _ _ _ Ht) as (Hpart & Hf & Hq & Hslash).
  cbn [s_scheme s_netloc s_path s_query s_fragment].
  assert (Hpp : forallb not_unsafe pp = true)
    by (eapply part_forallb; eassumption).
  destruct (mem sch uses_params && contains ";" pp) eqn:Hcond.
  - destruct (_splitparams pp) as [y params] eqn:Hy.
    destruct (splitparams_fst pp y params Hy) as [[r Hr] Hstable].
    intros H. inversion H; subst p. clear H.
    assert (Hyp : part y pp) by (rewrite Hr; apply part_prefix).
    constructor; cbn [scheme netloc path]; try assumption.
    + eapply part_forallb; eassumption.
    + eapply part_contains; eassumption.
    + eapply part_contains; eassumption.
    + intros Hn0. destruct y as [|c y]; [now left|]. right.
      destruct (Hslash (Hroot Hn0)) as [Hempty|Hhead].
      * rewrite Hempty in Hr. discriminate.
      * rewrite Hr in Hhead. exact Hhead.
    + apply andb_true_iff in Hcond as [-> _]. exact Hstable.
  - intros H. inversion H; subst p. clear H.
    constructor; cbn [scheme netloc path]; try assumption.
    + intros Hn0. apply Hslash, Hroot, Hn0.
    + now rewrite Hcond.
Qed.

(** The path of a parsed URL that has an authority reads as a path. *)
Lemma reparse_path (p : ParseResult) :
  well_parsed p ->
  netloc p <> "" -> path p <> "" -> startswith "//" (path p) = false ->
  urlparse_with (path p) (scheme p)
  = Some (mkParse (scheme p) "" (path p) "" "" "").
Proof.
  intros Hwp Hn Hpath Hdouble.
  destruct (wp_rooted p Hwp Hn) as [|Hhead]; [contradiction|].
  unfold urlparse_with. rewrite urlsplit_halves.
  rewrite (head_split_path _ _ Hhead Hdouble (wp_clean p Hwp)).
  destruct (parsed_scheme_clean _ (wp_scheme p Hwp)) as (-> & _ & _).
  change (netloc_rejected "") with false. cbv iota.
  unfold tail_split.
  rewrite (contains_false_partition _ _ (wp_no_fragment p Hwp)).
  rewrite (contains_false_partition _ _ (wp_no_query p Hwp)).
  cbn [s_scheme s_netloc s_path s_query s_fragment].
  now rewrite (wp_params p Hwp).
Qed.

Lemma relative_uses_netloc (sch : string) :
  mem sch uses_relative = true -> mem sch uses_netloc = true.
Proof.
  unfold mem, uses_relative. cbn [List.existsb]. intros H.
  repeat (apply orb_true_iff in H as [H|H];
          [apply String.eqb_eq in H; subst sch; reflexivity|]).
  discriminate.
Qed.

(** The cleaned form of a URL that has an authority, a scheme [urljoin]
    resolves and a path with one leading slash. *)
Lemma base_url_only_rooted (url : string) (p : ParseResult) :
  urlparse url = Some p ->
  netloc p <> "" -> path p <> "" -> startswith "//" (path p) = false ->
  mem (scheme p) uses_relative = true ->
  base_url_only url
  = Some (urlunparse (scheme p) (netloc p)
            (resolved_path (split "/" (path p))) "" "" "").
Proof.
  intros Hp Hn Hpath Hdouble Hrel.
  pose proof (urlparse_well_parsed url p Hp) as Hwp.
  destruct (wp_rooted p Hwp Hn) as [|Hhead]; [contradiction|].
  unfold base_url_only. rewrite Hp. simpl.
  unfold urljoin.
  assert (Hurl : is_empty url = false).
  { destruct url; [|reflexivity]. vm_compute in Hp. inversion Hp; subst.
    now destruct Hpath. }
  assert (Hpe : is_empty (path p) = false) by (now destruct (path p)).
  rewrite Hurl, Hpe. unfold urlparse in Hp. rewrite Hp.
  rewrite (reparse_path p Hwp Hn Hpath Hdouble).
  cbn [scheme netloc path params query fragment].
  rewrite String.eqb_refl, Hrel, (relative_uses_netloc _ Hrel), Hpe.
  cbn [negb orb andb is_empty].
  assert (Hs : startswith "/" (path p) = true).
  { destruct (path p) as [|c s]; [discriminate|]. simpl in *.
    unfold is_slash in Hhead. apply Ascii.eqb_eq in Hhead. now subst c. }
  now rewrite Hs.
Qed.

(** *** No query and no fragment in the cleaned form *)

Lemma split_free (c d : ascii) (s : string) :
  contains c s = false -> Forall (fun x => contains c x = false) (split d s).
Proof.
  induction s as [|x s IH]; simpl; [repeat constructor|].
  rewrite contains_cons. intros H. apply orb_false_iff in H as [Hx Hs].
  specialize (IH Hs). destruct (Ascii.eqb x d).
  - constructor; [reflexivity|exact IH].
  - destruct (split d s) as [|h t]; [repeat constructor; now rewrite contains_cons, Hx|].
    inversion IH; subst. constructor; [|assumption].
    rewrite contains_cons, Hx. assumption.
Qed.

Lemma resolve_free (P : string -> Prop) (segments : list string) :
  forall resolved,
    Forall P segments -> Forall P resolved ->
    Forall P (resolve segments resolved).
Proof.
  induction segments as [|seg rest IH]; intros resolved Hs Hr; simpl.
  - apply Forall_forall. intros x Hx. rewrite Forall_forall in Hr.
    apply Hr. apply list_elem_of_In. apply list_elem_of_In in Hx.
    now apply in_rev.
  - inversion Hs; subst.
    destruct (String.eqb seg "..");
      [|destruct (String.eqb seg ".")]; apply IH; try assumption.
    + destruct resolved; [constructor|]. now inversion Hr.
    + now constructor.
Qed.

Lemma join_free (c : ascii) (sep : string) (l : list string) :
  contains c sep = false ->
  Forall (fun x => contains c x = false) l ->
  contains c (join sep l) = false.
Proof.
  intros Hsep. induction 1 as [|x l Hx Hl IH]; [reflexivity|].
  simpl. destruct l as [|y l]; [exact Hx|].
  rewrite !contains_app, Hx, Hsep. exact IH.
Qed.

Lemma resolved_path_free (c : ascii) (s : string) :
  contains c "/" = false -> contains c s = false ->
  contains c (resolved_path (split "/" s)) = false.
Proof.
  intros Hslash Hs. unfold resolved_path.
  set (segments := split "/" s).
  assert (Hsegs : Forall (fun x => contains c x = false) segments)
    by now apply split_free.
  assert (Hres : Forall (fun x => contains c x = false) (resolve segments []))
    by (apply resolve_free; [exact Hsegs|constructor]).
  match goal with
  | |- contains c (if is_empty ?j then _ else _) = false =>
      assert (Hj : contains c j = false)
  end.
  { apply join_free; [exact Hslash|].
    destruct (_ || _); [|exact Hres].
    apply Forall_app. split; [exact Hres|repeat constructor]. }
  destruct (is_empty _); [exact Hslash|exact Hj].
Qed.

Lemma netloc_free (c : ascii) (n : string) :
  is_netloc_delim c = true ->
  forallb (fun x => negb (is_netloc_delim x)) n = true ->
  contains c n = false.
Proof.
  intros Hc. induction n as [|x n IH]; simpl; [reflexivity|].
  intros H. apply andb_true_iff in H as [Hx Hn].
  rewrite contains_cons, (IH Hn), orb_false_r.
  destruct (Ascii.eqb_spec c x) as [->|]; [|reflexivity].
  rewrite Hc in Hx. discriminate.
Qed.

Lemma urlunparse_free (c : ascii) (sch n p : string) :
  contains c ":" = false -> contains c "/" = false ->
  contains c sch = false -> contains c n = false -> contains c p = false ->
  contains c (urlunparse sch n p "" "" "") = false.
Proof.
  intros Hcolon Hslash Hsch Hn Hp. unfold urlunparse, urlunsplit.
  cbn [is_empty negb].
  assert (Hslash2 : contains c "//" = false).
  { change "//" with ("/" +:+ "/"). now rewrite contains_app, Hslash. }
  repeat match goal with
         | |- context [if ?b then _ else _] => destruct b
         end;
    rewrite ?contains_app, ?Hsch, ?Hcolon, ?Hslash2, ?Hslash, ?Hn, ?Hp;
    reflexivity.
Qed.

(** The cleaned form holds neither a query nor a fragment. *)
Lemma cleaned_is_bare (p : ParseResult) :
  well_parsed p ->
  let c := urlunparse (scheme p) (netloc p)
             (resolved_path (split "/" (path p))) "" "" "" in
  contains "?" c = false /\ contains "#" c = false.
Proof.
  intros Hwp.
  destruct (parsed_scheme_clean _ (wp_scheme p Hwp)) as (_ & Hq & Hf).
  split; apply urlunparse_free; try reflexivity; try assumption.
  - apply netloc_free; [reflexivity|apply (wp_netloc p Hwp)].
  - apply resolved_path_free; [reflexivity|apply (wp_no_query p Hwp)].
  - apply netloc_free; [reflexivity|apply (wp_netloc p Hwp)].
  - apply resolved_path_free; [reflexivity|apply (wp_no_fragment p Hwp)].
Qed.

End UrlFacts.

(** ** Facts about loops over a parsed page *)

Module SoupFacts.

(** Induction over a node with the hypothesis for every child. *)
Lemma node_ind (P : node -> Prop) :
  (forall s, P (NavigableString s)) ->
  (forall t a cs, Forall P cs -> P (Tag t a cs)) ->
  forall n, P n.
Proof.
  intros Hs Ht. fix IH 1. intros [s|t a cs].
  - apply Hs.
  - apply Ht. induction cs as [|c cs IHcs]; constructor; [apply IH | exact IHcs].
Qed.

Section Loop.
Context {S : Type} (f : string -> attrs -> S -> option attrs * S).

Lemma visit_tag (t : string) (a : attrs) (cs : list node) (s : S) :
  visit f (Tag t a cs) s =
  match f t a s with
  | (None, s1) => (None, s1)
  | (Some a', s1) =>
      match visit_all f cs s1 with
      | (None, s2) => (None, s2)
      | (Some cs', s2) => (Some (Tag t a' cs'), s2)
      end
  end.
Proof. reflexivity. Qed.

(** A relation between states that every run of the loop body respects,
    and that is reflexive and transitive, holds across the whole loop. *)
Section Invariant.
Variable R : S -> S -> Prop.
Hypothesis R_refl : forall s, R s s.
Hypothesis R_trans : forall s1 s2 s3, R s1 s2 -> R s2 s3 -> R s1 s3.
Hypothesis R_body : forall t a s, R s (f t a s).2.

Lemma visit_respects (n : node) : forall s, R s (visit f n s).2.
Proof.
  induction n as [x|t a cs IH] using node_ind; intros s.
  - apply R_refl.
  - rewrite visit_tag. pose proof (R_body t a s) as Hb.
    destruct (f t a s) as [[a'|] s1]; simpl in *; [|exact Hb].
    assert (Hall : forall s, R s (visit_all f cs s).2).
    { clear -IH R_refl R_trans. induction IH as [|c cs Hc _ IHcs]; intros s; simpl.
      - apply R_refl.
      - specialize (Hc s). destruct (visit f c s) as [[c'|] s']; simpl in *; [|exact Hc].
        specialize (IHcs s'). destruct (visit_all f cs s') as [[l|] s'']; simpl in *;
          eapply R_trans; eassumption. }
    specialize (Hall s1). destruct (visit_all f cs s1) as [[cs'|] s2]; simpl in *;
      eapply R_trans; eassumption.
Qed.

Lemma visit_all_respects (cs : list node) : forall s, R s (visit_all f cs s).2.
Proof.
  induction cs as [|c cs IH]; intros s; simpl.
  - apply R_refl.
  - pose proof (visit_respects c s) as Hc.
    destruct (visit f c s) as [[c'|] s']; simpl in *; [|exact Hc].
    specialize (IH s'). destruct (visit_all f cs s') as [[l|] s'']; simpl in *;
      eapply R_trans; eassumption.
Qed.

Lemma for_each_below_respects (el : node) (s : S) :
  R s (for_each_below f el s).2.
Proof.
  unfold for_each_below. pose proof (visit_all_respects (contents el) s) as H.
  destruct (visit_all f (contents el) s) as [[cs|] s']; exact H.
Qed.
End Invariant.

(** When the attributes the body assigns do not depend on the state, the
    tree the loop leaves is the tree with these attributes. *)
Section Value.
Variable g : string -> attrs -> option attrs.
Hypothesis f_value : forall t a s, (f t a s).1 = g t a.

Lemma visit_updates (n : node) :
  forall s n' s', visit f n s = (Some n', s') ->
    Forall2 (updated_by g) (self_and_descendants n) (self_and_descendants n').
Proof.
  induction n as [x|t a cs IH] using node_ind; intros s n' s' Hv.
  - simpl in Hv. inversion Hv; subst. repeat constructor.
  - rewrite visit_tag in Hv. pose proof (f_value t a s) as Hg.
    destruct (f t a s) as [[a'|] s1]; simpl in Hg; [|discriminate].
    assert (Hall : forall s cs' s', visit_all f cs s = (Some cs', s') ->
              Forall2 (updated_by g) (descendants cs) (descendants cs')).
    { clear -IH. induction IH as [|c cs Hc _ IHcs]; intros s cs' s' Hv; simpl in Hv.
      - inversion Hv; subst. constructor.
      - destruct (visit f c s) as [[c'|] s1] eqn:Hvc; [|discriminate].
        destruct (visit_all f cs s1) as [[l|] s2] eqn:Hvl; [|discriminate].
        inversion Hv; subst. unfold descendants. simpl.
        apply Forall2_app; [eapply Hc; eassumption | eapply IHcs; eassumption]. }
    destruct (visit_all f cs s1) as [[cs'|] s2] eqn:Hvl; [|discriminate].
    inversion Hv; subst. simpl. constructor.
    + simpl. split; [reflexivity | now symmetry].
    + eapply Hall; eassumption.
Qed.

Lemma visit_all_updates (cs : list node) :
  forall s cs' s', visit_all f cs s = (Some cs', s') ->
    Forall2 (updated_by g) (descendants cs) (descendants cs').
Proof.
  induction cs as [|c cs IH]; intros s cs' s' Hv; simpl in Hv.
  - inversion Hv; subst. constructor.
  - destruct (visit f c s) as [[c'|] s1] eqn:Hvc; [|discriminate].
    destruct (visit_all f cs s1) as [[l|] s2] eqn:Hvl; [|discriminate].
    inversion Hv; subst. unfold descendants. simpl.
    apply Forall2_app; [eapply visit_updates; eassumption | eapply IH; eassumption].
Qed.

(** The loop raises only where its body does. *)
Lemma visit_accepts (n : node) :
  Forall (accepted_by g) (self_and_descendants n) ->
  forall s, is_Some (visit f n s).1.
Proof.
  induction n as [x|t a cs IH] using node_ind; intros Hacc s.
  - simpl. eauto.
  - rewrite visit_tag. simpl in Hacc. apply Forall_cons in Hacc as [Ha Hcs].
    simpl in Ha. rewrite <- (f_value t a s) in Ha.
    destruct (f t a s) as [[a'|] s1]; simpl in Ha; [|destruct Ha; discriminate].
    assert (Hall : forall s, is_Some (visit_all f cs s).1).
    { clear -IH Hcs. induction IH as [|c cs Hc _ IHcs]; intros s; simpl; [eauto|].
      simpl in Hcs. apply Forall_app in Hcs as [H1 H2].
      specialize (Hc H1 s). destruct (visit f c s) as [[c'|] s']; simpl in Hc;
        [|destruct Hc; discriminate].
      specialize (IHcs H2 s'). destruct (visit_all f cs s') as [[l|] s''];
        simpl in IHcs; [simpl; eauto | destruct IHcs; discriminate]. }
    specialize (Hall s1). destruct (visit_all f cs s1) as [[cs'|] s2]; simpl in *;
      [eauto | destruct Hall; discriminate].
Qed.

Lemma visit_all_accepts (cs : list node) :
  Forall (accepted_by g) (descendants cs) ->
  forall s, is_Some (visit_all f cs s).1.
Proof.
  induction cs as [|c cs IH]; intros Hacc s; simpl; [eauto|].
  unfold descendants in Hacc. simpl in Hacc. apply Forall_app in Hacc as [H1 H2].
  pose proof (visit_accepts c H1 s) as Hc.
  destruct (visit f c s) as [[c'|] s']; simpl in Hc; [|destruct Hc; discriminate].
  specialize (IH H2 s'). destruct (visit_all f cs s') as [[l|] s''];
    simpl in IH; [simpl; eauto | destruct IH; discriminate].
Qed.
End Value.
End Loop.

(** Two loops whose bodies assign the same attributes leave the same
    tree, whatever their states. *)
Lemma visit_all_value_agrees {S1 S2 : Type}
    (f1 : string -> attrs -> S1 -> option attrs * S1)
    (f2 : string -> attrs -> S2 -> option attrs * S2)
    (g : string -> attrs -> option attrs) :
  (forall t a s, (f1 t a s).1 = g t a) ->
  (forall t a s, (f2 t a s).1 = g t a) ->
  forall cs s1 s2, (visit_all f1 cs s1).1 = (visit_all f2 cs s2).1.
Proof.
  intros H1 H2.
  assert (Hn : forall n s1 s2, (visit f1 n s1).1 = (visit f2 n s2).1).
  { induction n as [x|t a cs IH] using node_ind; intros s1 s2; [reflexivity|].
    rewrite !visit_tag. pose proof (H1 t a s1) as E1. pose proof (H2 t a s2) as E2.
    destruct (f1 t a s1) as [o1 s1'], (f2 t a s2) as [o2 s2']; simpl in E1, E2.
    subst o1 o2. destruct (g t a) as [a'|]; [|reflexivity].
    assert (Hall : forall s1 s2, (visit_all f1 cs s1).1 = (visit_all f2 cs s2).1).
    { clear -IH. induction IH as [|c cs Hc _ IHcs]; intros s1 s2; simpl; [reflexivity|].
      specialize (Hc s1 s2).
      destruct (visit f1 c s1) as [o1 t1], (visit f2 c s2) as [o2 t2]; simpl in Hc.
      subst o2. destruct o1 as [c'|]; [|reflexivity].
      specialize (IHcs t1 t2).
      destruct (visit_all f1 cs t1) as [p1 u1], (visit_all f2 cs t2) as [p2 u2];
        simpl in IHcs. subst p2. now destruct p1. }
    specialize (Hall s1' s2').
    destruct (visit_all f1 cs s1') as [p1 u1], (visit_all f2 cs s2') as [p2 u2];
      simpl in Hall. subst p2. now destruct p1. }
  induction cs as [|c cs IH]; intros s1 s2; simpl; [reflexivity|].
  specialize (Hn c s1 s2).
  destruct (visit f1 c s1) as [o1 t1], (visit f2 c s2) as [o2 t2]; simpl in Hn.
  subst o2. destruct o1 as [c'|]; [|reflexivity].
  specialize (IH t1 t2).
  destruct (visit_all f1 cs t1) as [p1 u1], (visit_all f2 cs t2) as [p2 u2];
    simpl in IH. subst p2. now destruct p1.
Qed.

End SoupFacts.


(** ** Facts about the processing of one page *)

Module PageFacts.

Lemma exists_false (p : string) (w : world) :
  exists_ p w = false -> fs w !! p = None.
Proof.
  unfold exists_. intros H. apply bool_decide_eq_false in H.
  now apply eq_None_not_Some.
Qed.

Lemma resolve_href_value (url t : string) (a : attrs) (s : unit) :
  (resolve_href url t a s).1 = resolved_attrs url t a.
Proof. now destruct s. Qed.

Lemma localize_img_value (cfg : config) (e : env) (url t : string)
    (a : attrs) (w : world) :
  (localize_img cfg e url t a w).1 = localized_attrs cfg e url t a.
Proof.
  unfold localize_img, localized_attrs, img_rel_path.
  destruct (String.eqb t "img"); [|reflexivity].
  destruct (a !! "src") as [src|]; [|reflexivity].
  destruct (urljoin url src) as [img_url|]; [|reflexivity]. simpl.
  destruct (img_filename e img_url); reflexivity.
Qed.

Section Cache.
Variables (cfg : config) (e : env).

Lemma cache_respected_refl (w : world) : cache_respected cfg e w w.
Proof.
  split; [reflexivity|]. exists []. split; [now rewrite app_nil_r|].
  intros u name Hu. simpl in Hu. now apply elem_of_nil in Hu.
Qed.

Lemma cache_respected_trans (w1 w2 w3 : world) :
  cache_respected cfg e w1 w2 -> cache_respected cfg e w2 w3 ->
  cache_respected cfg e w1 w3.
Proof.
  intros [Hfs1 (evs1 & Ht1 & Hi1)] [Hfs2 (evs2 & Ht2 & Hi2)]. split.
  - etransitivity; eassumption.
  - exists (evs1 ++ evs2). split.
    + now rewrite Ht2, Ht1, <- app_assoc.
    + intros u name Hu Hn. unfold image_fetches in Hu. rewrite omap_app in Hu.
      apply elem_of_app in Hu as [Hu|Hu].
      * eapply Hi1; eassumption.
      * eapply lookup_weaken_None; [|exact Hfs1]. eapply Hi2; eassumption.
Qed.

(** Messages leave the cache alone. *)
Lemma emit_respects (ev : event) (w : world) :
  (forall u, ev <> Get u true) -> cache_respected cfg e w (emit ev w).
Proof.
  intros Hev. split; [reflexivity|]. exists [ev]. split; [reflexivity|].
  intros u name Hu. exfalso.
  unfold image_fetches in Hu. simpl in Hu.
  destruct ev as [| | | | | | |u' [|]|]; simpl in Hu;
    try (now apply elem_of_nil in Hu).
  now apply (Hev u').
Qed.

Lemma ensure_dir_respects (p : string) (w : world) :
  cache_respected cfg e w (ensure_dir p w).
Proof.
  unfold ensure_dir. destruct (exists_ p w) eqn:Hex; [apply cache_respected_refl|].
  split.
  - simpl. apply insert_subseteq. now apply exists_false.
  - exists []. split; [simpl; now rewrite app_nil_r|].
    intros u name Hu. simpl in Hu. now apply elem_of_nil in Hu.
Qed.

(** A download happens for a missing file only, and adds that file. *)
Lemma download_image_respects (img_url name : string) (w : world) :
  img_filename e img_url = Some name ->
  exists_ (Posixpath.join (images_fs_path cfg) name) w = false ->
  cache_respected cfg e w
    (download_image e img_url (Posixpath.join (images_fs_path cfg) name) w).
Proof.
  intros Hname Hex. apply exists_false in Hex.
  set (p := Posixpath.join (images_fs_path cfg) name) in *.
  assert (Hmine : forall (evs : list event) u n,
             u ∈ image_fetches (LogDownloadingImage img_url :: Get img_url true :: evs) ->
             image_fetches evs = [] ->
             img_filename e u = Some n ->
             fs w !! Posixpath.join (images_fs_path cfg) n = None).
  { intros evs u n Hu Hevs Hn.
    change (image_fetches (LogDownloadingImage img_url :: Get img_url true :: evs))
      with (img_url :: image_fetches evs) in Hu.
    rewrite Hevs in Hu. apply list_elem_of_singleton in Hu. subst u.
    rewrite Hname in Hn. inversion Hn; subst. exact Hex. }
  unfold download_image.
  destruct (http_get e img_url) as [|r].
  - split; [reflexivity|].
    exists [LogDownloadingImage img_url; Get img_url true; LogImageError img_url].
    split; [simpl; now rewrite <- !app_assoc|].
    intros u n Hu Hn. eapply Hmine; [exact Hu|reflexivity|exact Hn].
  - destruct (status_code r =? 200)%Z.
    + destruct (stream_breaks r).
      * split; [simpl; now apply insert_subseteq|].
        exists [LogDownloadingImage img_url; Get img_url true; LogImageError img_url].
        split; [simpl; now rewrite <- !app_assoc|].
        intros u n Hu Hn. eapply Hmine; [exact Hu|reflexivity|exact Hn].
      * split; [simpl; now apply insert_subseteq|].
        exists [LogDownloadingImage img_url; Get img_url true].
        split; [simpl; now rewrite <- !app_assoc|].
        intros u n Hu Hn. eapply Hmine; [exact Hu|reflexivity|exact Hn].
    + split; [reflexivity|].
      exists [LogDownloadingImage img_url; Get img_url true].
      split; [simpl; now rewrite <- !app_assoc|].
      intros u n Hu Hn. eapply Hmine; [exact Hu|reflexivity|exact Hn].
Qed.

Lemma localize_img_respects (url t : string) (a : attrs) (w : world) :
  cache_respected cfg e w (localize_img cfg e url t a w).2.
Proof.
  unfold localize_img.
  destruct (String.eqb t "img"); [|apply cache_respected_refl].
  destruct (a !! "src") as [src|]; [|apply cache_respected_refl].
  destruct (urljoin url src) as [img_url|]; [|apply cache_respected_refl].
  destruct (img_filename e img_url) as [name|] eqn:Hname; [|apply cache_respected_refl].
  simpl.
  destruct (exists_ (Posixpath.join (images_fs_path cfg) name) w) eqn:Hex; simpl.
  - apply cache_respected_refl.
  - now apply download_image_respects.
Qed.

End Cache.

Lemma page_fetches_app (t1 t2 : list event) :
  page_fetches (t1 ++ t2) = page_fetches t1 ++ page_fetches t2.
Proof. apply omap_app. Qed.

Lemma same_page_fetches_emit (ev : event) (w : world) :
  (forall u, ev <> Get u false) -> same_page_fetches w (emit ev w).
Proof.
  intros Hev. unfold same_page_fetches, emit. simpl.
  rewrite page_fetches_app.
  destruct ev as [| | | | | | |u' [|]|]; try apply app_nil_r.
  now destruct (Hev u').
Qed.

Lemma same_page_fetches_trans (w1 w2 w3 : world) :
  same_page_fetches w1 w2 -> same_page_fetches w2 w3 -> same_page_fetches w1 w3.
Proof. unfold same_page_fetches. congruence. Qed.

Lemma download_image_same_page_fetches (e : env) (img_url p : string) (w : world) :
  same_page_fetches w (download_image e img_url p w).
Proof.
  unfold download_image.
  assert (H0 : same_page_fetches w
            (emit (Get img_url true) (emit (LogDownloadingImage img_url) w))).
  { eapply same_page_fetches_trans; apply same_page_fetches_emit; discriminate. }
  destruct (http_get e img_url) as [|r].
  - eapply same_page_fetches_trans; [exact H0|apply same_page_fetches_emit; discriminate].
  - destruct (status_code r =? 200)%Z; [|exact H0].
    destruct (stream_breaks r); [|exact H0].
    eapply same_page_fetches_trans; [exact H0|].
    unfold same_page_fetches. simpl. rewrite page_fetches_app. apply app_nil_r.
Qed.

Lemma localize_img_same_page_fetches (cfg : config) (e : env) (url t : string)
    (a : attrs) (w : world) :
  same_page_fetches w (localize_img cfg e url t a w).2.
Proof.
  unfold localize_img.
  destruct (String.eqb t "img"); [|reflexivity].
  destruct (a !! "src") as [src|]; [|reflexivity].
  destruct (urljoin url src) as [img_url|]; [|reflexivity].
  destruct (img_filename e img_url) as [name|]; [|reflexivity]. simpl.
  destruct (exists_ _ w); simpl; [reflexivity|].
  apply download_image_same_page_fetches.
Qed.

(** A relation between worlds that is reflexive and transitive and that
    messages, the creation of a directory and the body of the image loop
    respect holds across [get_markdown_content]. *)
Section Invariant.
Variables (cfg : config) (e : env) (R : world -> world -> Prop).
Hypothesis R_refl : forall w, R w w.
Hypothesis R_trans : forall w1 w2 w3, R w1 w2 -> R w2 w3 -> R w1 w3.
Hypothesis R_log : forall ev w, (forall u b, ev <> Get u b) -> R w (emit ev w).
Hypothesis R_dir : forall p w, R w (ensure_dir p w).
Hypothesis R_img : forall url t a w, R w (localize_img cfg e url t a w).2.

Lemma get_markdown_content_invariant (url : string) (doc : soup) (w : world) :
  R w (get_markdown_content cfg e url doc w).2.
Proof.
  assert (Hlog : forall ev w0, (forall u b, ev <> Get u b) -> R w w0 -> R w (emit ev w0)).
  { intros ev w0 Hev H. eapply R_trans; [exact H|now apply R_log]. }
  unfold get_markdown_content.
  assert (Hmain : forall el w0, R w w0 ->
    R w
      (match for_each_below (resolve_href url) el tt with
       | (None, _) => (None, emit (LogProcessingError url) w0)
       | (Some content_element, _) =>
           let w1 := ensure_dir (images_fs_path cfg) w0 in
           match for_each_below (localize_img cfg e url) content_element w1 with
           | (None, w2) => (None, emit (LogProcessingError url) w2)
           | (Some content_element, w2) =>
               let page_title := page_title_of doc in
               let cleaned_html :=
                 delete_all mojibake
                   (delete_all zero_width_space (element_str e content_element)) in
               let markdown_content := html2text_handle e cleaned_html in
               (Some (page_block page_title url markdown_content, page_title), w2)
           end
       end).2).
  { intros el w0 H0.
    destruct (for_each_below (resolve_href url) el tt) as [[el1|] []]; simpl.
    - assert (H1 : R w (ensure_dir (images_fs_path cfg) w0)).
      { eapply R_trans; [exact H0|apply R_dir]. }
      pose proof (SoupFacts.for_each_below_respects (localize_img cfg e url)
                    R R_refl R_trans (R_img url) el1
                    (ensure_dir (images_fs_path cfg) w0)) as H2.
      destruct (for_each_below (localize_img cfg e url) el1
                  (ensure_dir (images_fs_path cfg) w0)) as [[el2|] w2]; simpl in *.
      + eapply R_trans; eassumption.
      + apply Hlog; [discriminate|]. eapply R_trans; eassumption.
    - apply Hlog; [discriminate|exact H0]. }
  destruct (select_one e (CONTENT_SELECTOR cfg) doc) as [|[el|]].
  - simpl. apply Hlog; [discriminate|apply R_refl].
  - apply Hmain, R_refl.
  - destruct (select_one e "body" doc) as [|[el|]].
    + simpl. apply Hlog; [discriminate|]. apply Hlog; [discriminate|].
      apply R_refl.
    + apply Hmain, Hlog; [discriminate|apply R_refl].
    + simpl. apply Hlog; [discriminate|]. apply Hlog; [discriminate|].
      apply R_refl.
Qed.
End Invariant.

Lemma get_markdown_content_respects (cfg : config) (e : env) (url : string)
    (doc : soup) (w : world) :
  cache_respected cfg e w (get_markdown_content cfg e url doc w).2.
Proof.
  apply get_markdown_content_invariant.
  - apply cache_respected_refl.
  - apply cache_respected_trans.
  - intros ev w0 Hev. apply emit_respects. intros u. apply Hev.
  - intros p w0. apply ensure_dir_respects.
  - intros url0 t a w0. apply localize_img_respects.
Qed.

Lemma get_markdown_content_same_page_fetches (cfg : config) (e : env)
    (url : string) (doc : soup) (w : world) :
  same_page_fetches w (get_markdown_content cfg e url doc w).2.
Proof.
  apply get_markdown_content_invariant.
  - reflexivity.
  - apply same_page_fetches_trans.
  - intros ev w0 Hev. apply same_page_fetches_emit. intros u. apply Hev.
  - intros p w0. unfold ensure_dir. now destruct (exists_ p w0).
  - intros url0 t a w0. apply localize_img_same_page_fetches.
Qed.

End PageFacts.

(** ** Facts about what a page is rendered to *)

Module RenderFacts.
Import PageFacts.

Lemma for_each_below_value_agrees {S1 S2 : Type}
    (f1 : string -> attrs -> S1 -> option attrs * S1)
    (f2 : string -> attrs -> S2 -> option attrs * S2)
    (g : string -> attrs -> option attrs) :
  (forall t a s, (f1 t a s).1 = g t a) ->
  (forall t a s, (f2 t a s).1 = g t a) ->
  forall el s1 s2, (for_each_below f1 el s1).1 = (for_each_below f2 el s2).1.
Proof.
  intros H1 H2 el s1 s2. unfold for_each_below.
  pose proof (SoupFacts.visit_all_value_agrees f1 f2 g H1 H2 (contents el) s1 s2) as H.
  destruct (visit_all f1 (contents el) s1) as [o1 t1],
           (visit_all f2 (contents el) s2) as [o2 t2]; simpl in H.
  subst o2. now destruct o1.
Qed.

(** The value of [get_markdown_content] is [rendered]: it depends neither
    on the files found nor on what the web answers for the images. *)
Lemma get_markdown_content_value (cfg : config) (e : env) (url : string)
    (doc : soup) (w : world) :
  (get_markdown_content cfg e url doc w).1 = rendered cfg e url doc.
Proof.
  unfold get_markdown_content, rendered, content_element_of, rewritten.
  assert (Hmain : forall el w0,
    (match for_each_below (resolve_href url) el tt with
     | (None, _) => (None, emit (LogProcessingError url) w0)
     | (Some content_element, _) =>
         let w1 := ensure_dir (images_fs_path cfg) w0 in
         match for_each_below (localize_img cfg e url) content_element w1 with
         | (None, w2) => (None, emit (LogProcessingError url) w2)
         | (Some content_element, w2) =>
             let page_title := page_title_of doc in
             let cleaned_html :=
               delete_all mojibake
                 (delete_all zero_width_space (element_str e content_element)) in
             let markdown_content := html2text_handle e cleaned_html in
             (Some (page_block page_title url markdown_content, page_title), w2)
         end
     end).1 =
    (Some el ≫= λ el,
     ((for_each_below (resolve_href url) el tt).1 ≫= λ el,
        (for_each_below (λ t a (_ : unit), (localized_attrs cfg e url t a, tt)) el tt).1)
     ≫= λ el', Some (page_block (page_title_of doc) url (markdown_of e el'),
                      page_title_of doc))).
  { intros el w0. simpl.
    destruct (for_each_below (resolve_href url) el tt) as [[el1|] []]; simpl;
      [|reflexivity].
    pose proof (for_each_below_value_agrees
                  (localize_img cfg e url)
                  (λ t a (_ : unit), (localized_attrs cfg e url t a, tt))
                  (localized_attrs cfg e url)
                  (localize_img_value cfg e url) (λ _ _ _, eq_refl)
                  el1 (ensure_dir (images_fs_path cfg) w0) tt) as Hv.
    destruct (for_each_below (localize_img cfg e url) el1 _) as [[el2|] w2];
      simpl in Hv; rewrite <- Hv; reflexivity. }
  destruct (select_one e (CONTENT_SELECTOR cfg) doc) as [|[el|]].
  - reflexivity.
  - apply Hmain.
  - destruct (select_one e "body" doc) as [|[el|]];
      [reflexivity|apply Hmain|reflexivity].
Qed.

Lemma Forall2_omap {A B : Type} (h : A -> option B) (R : A -> A -> Prop)
    (Q : B -> B -> Prop) (l l' : list A) :
  (forall x y, R x y -> option_Forall2 Q (h x) (h y)) ->
  Forall2 R l l' -> Forall2 Q (omap h l) (omap h l').
Proof.
  intros Hh. induction 1 as [|x y l l' Hxy _ IH]; [constructor|].
  simpl. destruct (Hh x y Hxy); [constructor|]; assumption.
Qed.

Lemma for_each_below_updates {S : Type}
    (f : string -> attrs -> S -> option attrs * S)
    (g : string -> attrs -> option attrs) (el el' : node) (s : S) :
  (forall t a s, (f t a s).1 = g t a) ->
  (for_each_below f el s).1 = Some el' ->
  Forall2 (updated_by g) (descendants (contents el)) (descendants (contents el')).
Proof.
  intros Hg. unfold for_each_below.
  destruct (visit_all f (contents el) s) as [[cs|] s'] eqn:Hv; simpl; [|discriminate].
  intros H. inversion H; subst.
  pose proof (SoupFacts.visit_all_updates f g Hg _ _ _ _ Hv) as Hu.
  destruct el as [x|t a cs0]; simpl in *; [|exact Hu].
  inversion Hv; subst. constructor.
Qed.

(** The loop over the links assigns [href] on [a] tags and nothing else. *)
Lemma resolved_href (url : string) (n n' : node) :
  updated_by (resolved_attrs url) n n' ->
  option_Forall2 (λ href href', urljoin url href = Some href')
    (attr_on "a" "href" n) (attr_on "a" "href" n').
Proof.
  destruct n as [x|t a cs], n' as [x'|t' a' cs']; simpl; try tauto.
  { intros _. constructor. }
  intros [<- Hg]. unfold attr_on. simpl.
  unfold resolved_attrs, resolve_href in Hg.
  destruct (String.eqb t "a"); [|constructor].
  destruct (a !! "href") as [href|] eqn:Hh; simpl in Hg.
  - destruct (urljoin url href) as [abs|] eqn:Hj; simpl in Hg; [|discriminate].
    inversion Hg; subst. rewrite lookup_insert_eq. now constructor.
  - inversion Hg; subst. rewrite Hh. constructor.
Qed.

Lemma resolved_other (url name attr : string) (n n' : node) :
  name <> "a" ->
  updated_by (resolved_attrs url) n n' ->
  attr_on name attr n = attr_on name attr n'.
Proof.
  intros Hname.
  destruct n as [x|t a cs], n' as [x'|t' a' cs']; simpl; try tauto.
  intros [<- Hg]. unfold attr_on. simpl.
  destruct (String.eqb_spec t name) as [->|]; [|reflexivity].
  unfold resolved_attrs, resolve_href in Hg.
  destruct (String.eqb_spec name "a") as [|_]; [contradiction|].
  simpl in Hg. now inversion Hg.
Qed.

(** The loop over the images assigns [src] on [img] tags and nothing else. *)
Lemma localized_src (cfg : config) (e : env) (url : string) (n n' : node) :
  updated_by (localized_attrs cfg e url) n n' ->
  option_Forall2 (λ src src', img_rel_path cfg e url src = Some src')
    (attr_on "img" "src" n) (attr_on "img" "src" n').
Proof.
  destruct n as [x|t a cs], n' as [x'|t' a' cs']; simpl; try tauto.
  { intros _. constructor. }
  intros [<- Hg]. unfold attr_on. simpl.
  unfold localized_attrs in Hg.
  destruct (String.eqb t "img"); [|constructor].
  destruct (a !! "src") as [src|] eqn:Hs.
  - destruct (img_rel_path cfg e url src) as [rel|] eqn:Hr; simpl in Hg; [|discriminate].
    inversion Hg; subst. rewrite lookup_insert_eq. now constructor.
  - inversion Hg; subst. rewrite Hs. constructor.
Qed.

Lemma localized_other (cfg : config) (e : env) (url name attr : string)
    (n n' : node) :
  name <> "img" ->
  updated_by (localized_attrs cfg e url) n n' ->
  attr_on name attr n = attr_on name attr n'.
Proof.
  intros Hname.
  destruct n as [x|t a cs], n' as [x'|t' a' cs']; simpl; try tauto.
  intros [<- Hg]. unfold attr_on. simpl.
  destruct (String.eqb_spec t name) as [->|]; [|reflexivity].
  unfold localized_attrs in Hg.
  destruct (String.eqb_spec name "img") as [|_]; [contradiction|].
  now inversion Hg.
Qed.

(** In the element handed to the converter every link is the link of the
    page resolved against [url], and every image reference is the local
    path of the image. *)
Lemma rewritten_references (cfg : config) (e : env) (url : string)
    (el el' : node) :
  rewritten cfg e url el = Some el' ->
  Forall2 (λ href href', urljoin url href = Some href')
    (find_all_attr "a" "href" (contents el))
    (find_all_attr "a" "href" (contents el')) /\
  Forall2 (λ src src', img_rel_path cfg e url src = Some src')
    (find_all_attr "img" "src" (contents el))
    (find_all_attr "img" "src" (contents el')).
Proof.
  unfold rewritten.
  destruct (for_each_below (resolve_href url) el tt).1 as [el1|] eqn:H1;
    simpl; [|discriminate].
  intros H2.
  apply (for_each_below_updates _ (resolved_attrs url)) in H1;
    [|apply resolve_href_value].
  apply (for_each_below_updates _ (localized_attrs cfg e url)) in H2;
    [|reflexivity].
  unfold find_all_attr. split.
  - rewrite <- (list_omap_ext (attr_on "a" "href") (attr_on "a" "href")
                  (descendants (contents el1)) (descendants (contents el'))).
    + eapply Forall2_omap; [apply resolved_href|exact H1].
    + eapply Forall2_impl; [exact H2|]. intros n n'. now apply localized_other.
  - rewrite (list_omap_ext (attr_on "img" "src") (attr_on "img" "src")
               (descendants (contents el)) (descendants (contents el1))).
    + eapply Forall2_omap; [apply localized_src|exact H2].
    + eapply Forall2_impl; [exact H1|]. intros n n'. now apply resolved_other.
Qed.

Lemma for_each_below_accepts {S : Type}
    (f : string -> attrs -> S -> option attrs * S)
    (g : string -> attrs -> option attrs) (el : node) (s : S) :
  (forall t a s, (f t a s).1 = g t a) ->
  Forall (accepted_by g) (descendants (contents el)) ->
  is_Some (for_each_below f el s).1.
Proof.
  intros Hg Hacc. unfold for_each_below.
  pose proof (SoupFacts.visit_all_accepts f g Hg _ Hacc s) as H.
  destruct (visit_all f (contents el) s) as [[cs|] s']; simpl in *;
    [eauto|destruct H; discriminate].
Qed.

(** Rewriting raises only on a link or an image reference that
    [urljoin] or [urlparse] rejects. *)
Lemma rewritten_succeeds (cfg : config) (e : env) (url : string) (el : node) :
  Forall (λ href, is_Some (urljoin url href))
    (find_all_attr "a" "href" (contents el)) ->
  Forall (λ src, is_Some (img_rel_path cfg e url src))
    (find_all_attr "img" "src" (contents el)) ->
  is_Some (rewritten cfg e url el).
Proof.
  intros Hhref Hsrc. unfold rewritten.
  assert (H1 : is_Some (for_each_below (resolve_href url) el tt).1).
  { apply (for_each_below_accepts _ (resolved_attrs url)); [apply resolve_href_value|].
    apply Forall_forall. intros [x|t a cs] Hn; simpl; [exact I|].
    unfold resolved_attrs, resolve_href.
    destruct (String.eqb t "a") eqn:Ht; [|eauto].
    destruct (a !! "href") as [href|] eqn:Hh; [|eauto].
    assert (Hin : href ∈ find_all_attr "a" "href" (contents el)).
    { apply list_elem_of_omap. exists (Tag t a cs). split; [exact Hn|].
      unfold attr_on. simpl. now rewrite Ht. }
    rewrite Forall_forall in Hhref. destruct (Hhref href Hin) as [abs ->].
    simpl. eauto. }
  destruct H1 as [el1 H1]. rewrite H1. simpl.
  pose proof H1 as Hu.
  apply (for_each_below_updates _ (resolved_attrs url)) in Hu;
    [|apply resolve_href_value].
  apply (for_each_below_accepts _ (localized_attrs cfg e url)); [reflexivity|].
  assert (Hsame : find_all_attr "img" "src" (contents el1)
                  = find_all_attr "img" "src" (contents el)).
  { unfold find_all_attr. symmetry. apply list_omap_ext.
    eapply Forall2_impl; [exact Hu|]. intros n n'. now apply resolved_other. }
  apply Forall_forall. intros [x|t a cs] Hn; simpl; [exact I|].
  unfold localized_attrs.
  destruct (String.eqb t "img") eqn:Ht; [|eauto].
  destruct (a !! "src") as [src|] eqn:Hs; [|eauto].
  assert (Hin : src ∈ find_all_attr "img" "src" (contents el)).
  { rewrite <- Hsame. apply list_elem_of_omap. exists (Tag t a cs).
    split; [exact Hn|]. unfold attr_on. simpl. now rewrite Ht. }
  rewrite Forall_forall in Hsrc. destruct (Hsrc src Hin) as [rel ->].
  simpl. eauto.
Qed.

End RenderFacts.

(** ** Facts about the crawl loop *)

Module CrawlFacts.
Import PageFacts.

(** What one turn of the loop does to the state: it pops a URL and either
    leaves everything else as it was (the URL was visited already, or
    cleaning it raised), or marks the cleaned URL visited, fetches the
    URL once and goes on without another page fetch, respecting the
    image cache. *)
Lemma iteration_outcome (cfg : config) (e : env) (s s' : state) :
  iteration cfg e s = Continue s' \/ iteration cfg e s = Uncaught s' ->
  exists url rest, urls_to_visit s = url :: rest /\
    ((visited_urls s' = visited_urls s /\ outside s' = outside s /\
      (forall c, base_url_only url = Some c -> c ∈ visited_urls s)) \/
     (exists c, base_url_only url = Some c /\ (c ∉ visited_urls s) /\
        visited_urls s' = {[c]} ∪ visited_urls s /\
        let w0 := emit (Get url false)
                    (emit (LogProcessingLink c) (outside s)) in
        same_page_fetches w0 (outside s') /\
        cache_respected cfg e w0 (outside s'))).
Proof.
  unfold iteration. destruct (urls_to_visit s) as [|url rest] eqn:Hq.
  { intros [H|H]; discriminate. }
  intros H. exists url, rest. split; [reflexivity|].
  destruct (base_url_only url) as [c|] eqn:Hc; simpl in H.
  2:{ left. destruct H as [H|H]; inversion H; subst; simpl.
      repeat split; intros; discriminate. }
  destruct (bool_decide (c ∈ visited_urls s)) eqn:Hv.
  { left. apply bool_decide_eq_true in Hv.
    destruct H as [H|H]; inversion H; subst; simpl.
    repeat split. intros c' Hc'. now inversion Hc'; subst. }
  apply bool_decide_eq_false in Hv. right. exists c.
  split; [reflexivity|]. split; [exact Hv|].
  set (w0 := emit (Get url false) (emit (LogProcessingLink c) (outside s))) in *.
  assert (Hfail : same_page_fetches w0 (emit (LogFetchError c) w0) /\
                  cache_respected cfg e w0 (emit (LogFetchError c) w0)).
  { split; [apply same_page_fetches_emit|apply emit_respects]; discriminate. }
  destruct (http_get e url) as [|r].
  { destruct H as [H|H]; inversion H; subst; simpl. split; [reflexivity|exact Hfail]. }
  destruct (raises_for_status r).
  { destruct H as [H|H]; inversion H; subst; simpl. split; [reflexivity|exact Hfail]. }
  pose proof (get_markdown_content_same_page_fetches cfg e c (text r) w0) as Hp.
  pose proof (get_markdown_content_respects cfg e c (text r) w0) as Hr.
  destruct (get_markdown_content cfg e c (text r) w0) as [content_data w1].
  simpl in Hp, Hr.
  destruct content_data as [[content title]|];
    destruct (enqueue_links cfg ({[c]} ∪ visited_urls s) rest
                (find_all_attr "a" "href" (text r))) as [queue'|];
    destruct H as [H|H]; inversion H; subst; simpl;
    (split; [reflexivity|]); split;
    try exact Hp; try exact Hr;
    try (eapply same_page_fetches_trans; [exact Hp|apply same_page_fetches_emit; discriminate]);
    try (eapply cache_respected_trans; [exact Hr|apply emit_respects; discriminate]).
Qed.

(** A property of the state that every turn keeps holds wherever the loop
    stops. *)
Lemma crawl_invariant (cfg : config) (e : env) (P : state -> Prop) :
  (forall s s', P s ->
      iteration cfg e s = Continue s' \/ iteration cfg e s = Uncaught s' ->
      P s') ->
  forall fuel s, P s -> P (crawl cfg e fuel s).2.
Proof.
  intros Hstep. induction fuel as [|fuel IH]; intros s Hs; simpl; [exact Hs|].
  destruct (iteration cfg e s) as [|s'|s'] eqn:Hi; simpl.
  - exact Hs.
  - apply IH. eapply Hstep; eauto.
  - eapply Hstep; eauto.
Qed.

Lemma fetched_once_step (cfg : config) (e : env) (s s' : state) :
  fetched_once s ->
  iteration cfg e s = Continue s' \/ iteration cfg e s = Uncaught s' ->
  fetched_once s'.
Proof.
  intros [Hnd Hvis] H.
  destruct (iteration_outcome cfg e s s' H) as (url & rest & Hq & [Hsame|Hnew]).
  - destruct Hsame as (Hv & Hw & _). unfold fetched_once. now rewrite Hv, Hw.
  - destruct Hnew as (c & Hc & Hfresh & Hv & Hp & _).
    unfold same_page_fetches in Hp. simpl in Hp.
    rewrite !page_fetches_app in Hp. simpl in Hp. rewrite app_nil_r in Hp.
    unfold fetched_once. rewrite Hp, Hv. split.
    + apply NoDup_app. split; [exact Hnd|]. split; [|apply NoDup_singleton].
      intros u Hu Hu'. apply list_elem_of_singleton in Hu'. subst u.
      destruct (Hvis url Hu) as (c' & Hc' & Hin). congruence.
    + intros u Hu. apply elem_of_app in Hu as [Hu|Hu].
      * destruct (Hvis u Hu) as (c' & Hc' & Hin). exists c'.
        split; [exact Hc'|now apply elem_of_union_r].
      * apply list_elem_of_singleton in Hu. subst u. exists c.
        split; [exact Hc|now apply elem_of_union_l, elem_of_singleton].
Qed.

Lemma initial_trace (cfg : config) (files : gmap string inode) :
  trace (outside (initial cfg files)) = [].
Proof. unfold initial, ensure_dir. simpl. now destruct (exists_ _ _). Qed.

Lemma crawl_fetched_once (cfg : config) (e : env) (fuel : nat)
    (files : gmap string inode) :
  fetched_once (crawl cfg e fuel (initial cfg files)).2.
Proof.
  apply crawl_invariant; [intros s s'; apply fetched_once_step|].
  unfold fetched_once. rewrite initial_trace. split; [constructor|].
  intros u Hu. now apply elem_of_nil in Hu.
Qed.

(** The visited set only grows. *)
Lemma visited_only_grows (cfg : config) (e : env) (fuel : nat) (s : state) :
  visited_urls s ⊆ visited_urls (crawl cfg e fuel s).2.
Proof.
  apply (crawl_invariant cfg e (fun s' => visited_urls s ⊆ visited_urls s'));
    [|reflexivity].
  intros s1 s2 Hs Hi.
  destruct (iteration_outcome cfg e s1 s2 Hi)
    as (url & rest & _ & [(-> & _)|(c & _ & _ & -> & _)]); [exact Hs|].
  etransitivity; [exact Hs|]. apply union_subseteq_r.
Qed.

End CrawlFacts.

(** ** The crawl loop: failed fetches *)

(** C5, as the code has it: for a URL popped from the queue whose cleaned
    form is not visited yet, a fetch that raises and a response with a 4xx
    or 5xx status end the turn the same way: the cleaned URL is in the
    visited set, one request and the error message are in the trace,
    nothing is collected, and the loop goes on with the rest of the queue;
    and over a whole run, however it ends, no URL is requested twice as a
    page. *)
Theorem failed_fetch_is_logged_and_skipped
    (cfg : config) (e : env) (s : state) (url : string) (rest : list string)
    (c : string) (fuel : nat) (files : gmap string inode) :
  urls_to_visit s = url :: rest ->
  base_url_only url = Some c ->
  (c ∉ visited_urls s) ->
  (http_get e url = Raises \/
   exists r, http_get e url = Returns r /\ (400 <= status_code r < 600)%Z) ->
  iteration cfg e s
  = Continue (mkState ({[c]} ∪ visited_urls s) rest (all_markdown_content s)
                (toc_entries s)
                (mkWorld (fs (outside s))
                   (trace (outside s)
                    ++ [LogProcessingLink c; Get url false; LogFetchError c])))
  /\ NoDup (page_fetches (trace (outside (crawl cfg e fuel (initial cfg files)).2))).
Proof.
  intros Hq Hc Hfresh Hfail. split.
  - unfold iteration. rewrite Hq, Hc. simpl.
    rewrite bool_decide_eq_false_2 by exact Hfresh.
    assert (Htr : forall w : world,
               emit (LogFetchError c)
                 (emit (Get url false) (emit (LogProcessingLink c) w))
               = mkWorld (fs w)
                   (trace w ++ [LogProcessingLink c; Get url false; LogFetchError c])).
    { intros w. unfold emit. simpl. now rewrite <- !app_assoc. }
    destruct Hfail as [->|(r & -> & Hlo & Hhi)].
    + now rewrite Htr.
    + unfold raises_for_status.
      apply Z.leb_le in Hlo. apply Z.ltb_lt in Hhi. rewrite Hlo, Hhi. simpl.
      now rewrite Htr.
  - apply CrawlFacts.crawl_fetched_once.
Qed.

Lemma failed_fetch_is_logged_and_skipped_witness :
  let cfg := Sites.default_config in
  let e := Sites.serving (fun _ => Raises) in
  let s := initial cfg ∅ in
  let c := "https://docs.sl.antimatter.io/" in
  (urls_to_visit s = [BASE_URL cfg] /\ base_url_only (BASE_URL cfg) = Some c /\
   (c ∉ visited_urls s) /\ http_get e (BASE_URL cfg) = Raises) /\
  (iteration cfg e s
   = Continue (mkState ({[c]} ∪ visited_urls s) [] (all_markdown_content s)
                 (toc_entries s)
                 (mkWorld (fs (outside s))
                    (trace (outside s)
                     ++ [LogProcessingLink c; Get (BASE_URL cfg) false;
                         LogFetchError c])))
   /\ NoDup (page_fetches (trace (outside (crawl cfg e 3 (initial cfg ∅)).2)))).
Proof.
  intros cfg e s c.
  assert (Hq : urls_to_visit s = [BASE_URL cfg]) by reflexivity.
  assert (Hc : base_url_only (BASE_URL cfg) = Some c) by reflexivity.
  assert (Hv : c ∉ visited_urls s) by apply not_elem_of_empty.
  assert (Hg : http_get e (BASE_URL cfg) = Raises) by reflexivity.
  split; [repeat split; assumption|].
  apply (failed_fetch_is_logged_and_skipped cfg e s (BASE_URL cfg) [] c 3 ∅
           Hq Hc Hv (or_introl Hg)).
Defined.

(** C5, as stated, fails for a status that is neither 2xx nor 4xx/5xx: a
    page answered with 304 is not skipped, it is converted and collected,
    and no error is logged. *)
Lemma not_modified_page_is_processed :
  let cfg := Sites.default_config in
  let e := Sites.serving
             (fun _ => Returns (mkResponse 304 Sites.guide_page [] false)) in
  exists s',
    iteration cfg e (initial cfg ∅) = Continue s' /\
    toc_entries s' = ["Intro"] /\
    List.length (all_markdown_content s') = 1 /\
    trace (outside s')
    = [LogProcessingLink "https://docs.sl.antimatter.io/";
       Get "https://docs.sl.antimatter.io/" false; Sleep].
Proof.
  intros cfg e.
  destruct (iteration cfg e (initial cfg ∅)) as [|s'|s'] eqn:Hi;
    try (exfalso; vm_compute in Hi; discriminate).
  exists s'. split; [reflexivity|].
  assert (H : match iteration cfg e (initial cfg ∅) with
              | Continue s => (toc_entries s, List.length (all_markdown_content s),
                               trace (outside s))
              | _ => ([], 0, [])
              end
              = (["Intro"], 1,
                 [LogProcessingLink "https://docs.sl.antimatter.io/";
                  Get "https://docs.sl.antimatter.io/" false; Sleep])).
  { vm_compute. reflexivity. }
  rewrite Hi in H. inversion H. repeat split; assumption.
Qed.

(** ** The crawl loop: fragments *)

(** C1 fails on the code for a root without a path: the cleaned form of
    a URL with an empty path is the URL itself, fragment included, so the
    anchors of the root page are queued, fetched and collected as pages of
    their own; with a slash after the host the fragment is dropped. *)
Theorem fragment_variants_of_a_bare_root_are_fetched_again :
  let cfg := Sites.bare_root_config in
  let e := Sites.always Sites.anchors_page in
  let run := scrape_docs cfg e 10 ∅ in
  run.1 = Completed /\
  page_fetches (trace (outside run.2))
  = ["https://docs.example.com"; "https://docs.example.com#install";
     "https://docs.example.com#usage"] /\
  toc_entries run.2 = ["Home"; "Home"; "Home"] /\
  urlparse "https://docs.example.com"
  = Some (mkParse "https" "docs.example.com" "" "" "" "") /\
  urlparse "https://docs.example.com#install"
  = Some (mkParse "https" "docs.example.com" "" "" "" "install") /\
  base_url_only "https://docs.example.com#install"
  = Some "https://docs.example.com#install" /\
  base_url_only "https://docs.example.com/#install"
  = Some "https://docs.example.com/".
Proof. repeat split; vm_compute; reflexivity. Qed.

(** ** The image cache *)

Lemma crawl_respects_cache (cfg : config) (e : env) (fuel : nat)
    (files : gmap string inode) :
  cache_respected cfg e (mkWorld files [])
    (outside (crawl cfg e fuel (initial cfg files)).2).
Proof.
  apply (CrawlFacts.crawl_invariant cfg e
           (fun s => cache_respected cfg e (mkWorld files []) (outside s))).
  - intros s s' Hs Hi.
    destruct (CrawlFacts.iteration_outcome cfg e s s' Hi)
      as (url & rest & _ & [(_ & -> & _)|(c & _ & _ & _ & _ & Hr)]);
      [exact Hs|].
    eapply PageFacts.cache_respected_trans; [exact Hs|].
    eapply PageFacts.cache_respected_trans; [|exact Hr].
    eapply PageFacts.cache_respected_trans; apply PageFacts.emit_respects; discriminate.
  - unfold initial. simpl. apply PageFacts.ensure_dir_respects.
Qed.

(** C3: an image whose file is at its cache path is not requested, its
    reference is rewritten and the world stays as it is; and over a whole
    crawl that starts on a directory with files, these files stay as they
    are and no image whose file is among them is downloaded. *)
Theorem cached_image_is_not_fetched_again
    (cfg : config) (e : env) (url : string) (a : attrs)
    (src img_url name : string) (w : world) (fuel : nat)
    (files : gmap string inode) :
  a !! "src" = Some src ->
  urljoin url src = Some img_url ->
  img_filename e img_url = Some name ->
  exists_ (Posixpath.join (images_fs_path cfg) name) w = true ->
  localize_img cfg e url "img" a w
  = (Some (<["src" := Posixpath.join (IMAGES_DIR cfg) name]> a), w) /\
  (let s := (crawl cfg e fuel (initial cfg files)).2 in
   files ⊆ fs (outside s) /\
   forall img_url' name',
     img_filename e img_url' = Some name' ->
     is_Some (files !! Posixpath.join (images_fs_path cfg) name') ->
     img_url' ∉ image_fetches (trace (outside s))).
Proof.
  intros Hsrc Hjoin Hname Hex. split.
  - unfold localize_img. simpl. rewrite Hsrc, Hjoin, Hname, Hex. reflexivity.
  - destruct (crawl_respects_cache cfg e fuel files) as [Hfs (evs & Ht & Hmiss)].
    simpl in *. split; [exact Hfs|].
    intros img_url' name' Hn' [x Hx] Hin. rewrite Ht in Hin.
    specialize (Hmiss img_url' name' Hin Hn'). congruence.
Qed.

Lemma cached_image_is_not_fetched_again_witness :
  let cfg := Sites.default_config in
  let e := Sites.always Sites.image_page in
  let a : attrs := {["src" := "https://site/a.png"]} in
  let name := "053536831fcd2a6118df76019c875d58.png" in
  let files : gmap string inode := {["output/images/" +:+ name := File "png"]} in
  let w := mkWorld files [] in
  (a !! "src" = Some "https://site/a.png" /\
   urljoin "https://site/" "https://site/a.png" = Some "https://site/a.png" /\
   img_filename e "https://site/a.png" = Some name /\
   exists_ (Posixpath.join (images_fs_path cfg) name) w = true) /\
  localize_img cfg e "https://site/" "img" a w
  = (Some (<["src" := Posixpath.join (IMAGES_DIR cfg) name]> a), w) /\
  (let s := (crawl cfg e 5 (initial cfg files)).2 in
   files ⊆ fs (outside s) /\
   forall img_url' name',
     img_filename e img_url' = Some name' ->
     is_Some (files !! Posixpath.join (images_fs_path cfg) name') ->
     img_url' ∉ image_fetches (trace (outside s))).
Proof.
  intros cfg e a name files w.
  assert (H1 : a !! "src" = Some "https://site/a.png") by reflexivity.
  assert (H2 : urljoin "https://site/" "https://site/a.png"
               = Some "https://site/a.png") by reflexivity.
  assert (H3 : img_filename e "https://site/a.png" = Some name) by reflexivity.
  assert (H4 : exists_ (Posixpath.join (images_fs_path cfg) name) w = true)
    by reflexivity.
  split; [repeat split; assumption|].
  exact (cached_image_is_not_fetched_again cfg e "https://site/" a
           "https://site/a.png" "https://site/a.png" name w 5 files H1 H2 H3 H4).
Defined.

(** ** Images: names, references and failed downloads *)

Lemma img_rel_path_unfold (cfg : config) (e : env) (url src img_url name : string) :
  urljoin url src = Some img_url ->
  img_filename e img_url = Some name ->
  img_rel_path cfg e url src = Some (Posixpath.join (IMAGES_DIR cfg) name).
Proof. intros H1 H2. unfold img_rel_path. rewrite H1. simpl. now rewrite H2. Qed.

(** C6, as the code has it: whatever the web answers for an image, the
    reference is rewritten to the local relative path and the value of
    [get_markdown_content] is what it is under any other web; when the
    request raises or the status is not 200, nothing is written, so a
    file that was missing at the local path is still missing. *)
Theorem failed_download_is_not_fatal
    (cfg : config) (e : env) (url : string) (a : attrs)
    (src img_url name : string) :
  a !! "src" = Some src ->
  urljoin url src = Some img_url ->
  img_filename e img_url = Some name ->
  (forall w,
      (localize_img cfg e url "img" a w).1
      = Some (<["src" := Posixpath.join (IMAGES_DIR cfg) name]> a)) /\
  (forall w,
      http_get e img_url = Raises \/
      (exists r, http_get e img_url = Returns r /\ status_code r <> 200%Z) ->
      fs (localize_img cfg e url "img" a w).2 = fs w) /\
  (forall web' doc w w',
      (get_markdown_content cfg e url doc w).1
      = (get_markdown_content cfg
           (mkEnv web' (md5_hexdigest e) (element_str e) (html2text_handle e)
              (select_one e))
           url doc w').1).
Proof.
  intros Hsrc Hjoin Hname. split; [|split].
  - intros w. rewrite PageFacts.localize_img_value. unfold localized_attrs. simpl.
    rewrite Hsrc, (img_rel_path_unfold cfg e url src img_url name Hjoin Hname).
    reflexivity.
  - intros w Hfail. unfold localize_img. simpl. rewrite Hsrc, Hjoin, Hname. simpl.
    destruct (exists_ _ w); simpl; [reflexivity|].
    unfold download_image.
    destruct Hfail as [->|(r & -> & Hr)]; [reflexivity|].
    apply Z.eqb_neq in Hr. now rewrite Hr.
  - intros web' doc w w'. now rewrite !RenderFacts.get_markdown_content_value.
Qed.

Lemma failed_download_is_not_fatal_witness :
  let cfg := Sites.default_config in
  let e := Sites.serving (fun _ => Raises) in
  let a : attrs := {["src" := "https://site/a.png"]} in
  let name := "053536831fcd2a6118df76019c875d58.png" in
  (a !! "src" = Some "https://site/a.png" /\
   urljoin "https://site/" "https://site/a.png" = Some "https://site/a.png" /\
   img_filename e "https://site/a.png" = Some name) /\
  (forall w,
      (localize_img cfg e "https://site/" "img" a w).1
      = Some (<["src" := Posixpath.join (IMAGES_DIR cfg) name]> a)) /\
  (forall w,
      http_get e "https://site/a.png" = Raises \/
      (exists r, http_get e "https://site/a.png" = Returns r /\
                 status_code r <> 200%Z) ->
      fs (localize_img cfg e "https://site/" "img" a w).2 = fs w) /\
  (forall web' doc w w',
      (get_markdown_content cfg e "https://site/" doc w).1
      = (get_markdown_content cfg
           (mkEnv web' (md5_hexdigest e) (element_str e) (html2text_handle e)
              (select_one e))
           "https://site/" doc w').1).
Proof.
  intros cfg e a name.
  assert (H1 : a !! "src" = Some "https://site/a.png") by reflexivity.
  assert (H2 : urljoin "https://site/" "https://site/a.png"
               = Some "https://site/a.png") by reflexivity.
  assert (H3 : img_filename e "https://site/a.png" = Some name) by reflexivity.
  split; [repeat split; assumption|].
  exact (failed_download_is_not_fatal cfg e "https://site/" a
           "https://site/a.png" "https://site/a.png" name H1 H2 H3).
Defined.

(** C6, as stated, fails for a download that breaks while the body is
    streamed: the error is caught and logged and the page is emitted, but
    the file was opened and holds the chunks read so far, so the
    reference does not point at a missing file. *)
Lemma broken_stream_leaves_a_partial_file :
  let cfg := Sites.default_config in
  let e := Sites.serving
             (fun u => if String.eqb u "https://site/a.png"
                       then Returns (mkResponse 200 [] ["GIF8"] true)
                       else Sites.ok Sites.image_page) in
  let w := mkWorld ∅ [] in
  let out := get_markdown_content cfg e "https://site/" Sites.image_page w in
  is_Some out.1 /\
  exists_ "output/images/053536831fcd2a6118df76019c875d58.png" w = false /\
  LogImageError "https://site/a.png" ∈ trace out.2 /\
  fs out.2 !! "output/images/053536831fcd2a6118df76019c875d58.png"
  = Some (File "GIF8").
Proof.
  intros cfg e w out. split; [|split; [|split]].
  - vm_compute. eauto.
  - vm_compute. reflexivity.
  - assert (H : trace out.2
                = [LogDownloadingImage "https://site/a.png";
                   Get "https://site/a.png" true;
                   LogImageError "https://site/a.png"])
      by (vm_compute; reflexivity).
    rewrite H. apply list_elem_of_In. simpl. tauto.
  - vm_compute. reflexivity.
Qed.

Lemma rendered_inv (cfg : config) (e : env) (url : string) (doc : soup)
    (block title : string) :
  rendered cfg e url doc = Some (block, title) ->
  exists el el',
    content_element_of cfg e doc = Some el /\
    rewritten cfg e url el = Some el' /\
    title = page_title_of doc /\
    block = page_block title url (markdown_of e el').
Proof.
  unfold rendered.
  destruct (content_element_of cfg e doc) as [el|]; simpl; [|discriminate].
  destruct (rewritten cfg e url el) as [el'|] eqn:Hrw; simpl; [|discriminate].
  intros H. inversion H; subst. exists el, el'.
  split; [reflexivity|]. split; [exact Hrw|]. split; reflexivity.
Qed.

(** ** The extension of a path *)

Module ExtFacts.
Import StrFacts UrlFacts.

Lemma rpartition_none (c : ascii) (s : string) :
  rpartition c s = None -> contains c s = false.
Proof.
  induction s as [|d s IH]; simpl; [reflexivity|].
  destruct (rpartition c s) as [[a b]|]; [discriminate|].
  rewrite contains_cons, (Ascii.eqb_sym c d).
  destruct (Ascii.eqb d c); [discriminate|]. intros _. now apply IH.
Qed.

Lemma last_is_snoc (q : ascii -> bool) (s : string) (c : ascii) :
  last_is q (s +:+ String c "") = q c.
Proof.
  induction s as [|d s IH]; [reflexivity|].
  change (String d s +:+ String c "") with (String d (s +:+ String c "")).
  destruct (s +:+ String c "") as [|x t] eqn:E; [now destruct s|].
  exact IH.
Qed.

Lemma only_dots (stem : string) :
  existsb (fun c => negb (Ascii.eqb c ".")) stem = false ->
  forallb (fun c => Ascii.eqb c ".") stem = true.
Proof.
  induction stem as [|c stem IH]; simpl; [reflexivity|].
  intros H. apply orb_false_iff in H as [Hc Hs].
  apply negb_false_iff in Hc. now rewrite Hc, IH.
Qed.

(** [os.path.splitext] gives the extension. *)
Lemma splitext_extension (p : string) :
  Claimed.extension_of p (Posixpath.splitext p).2.
Proof.
  unfold Posixpath.splitext.
  assert (Hbase : exists dir base,
             (match rpartition "/" p with
              | Some (d, b) => (d +:+ "/", b)
              | None => (EmptyString, p)
              end) = (dir, base) /\
             p = dir +:+ base /\ contains "/" base = false /\
             (dir = "" \/ last_is (fun c => Ascii.eqb c "/") dir = true)).
  { destruct (rpartition "/" p) as [[d b]|] eqn:Hr.
    - destruct (rpartition_some _ _ _ _ Hr) as [Hp Hb].
      exists (d +:+ "/"), b. split; [reflexivity|].
      split; [now rewrite StrFacts.app_assoc|]. split; [exact Hb|].
      right. apply last_is_snoc.
    - exists "", p. split; [reflexivity|]. split; [reflexivity|].
      split; [now apply rpartition_none|now left]. }
  destruct Hbase as (dir & base & -> & Hp & Hb & Hdir).
  exists dir, base. split; [exact Hp|]. split; [exact Hb|]. split; [exact Hdir|].
  destruct (rpartition "." base) as [[stem x]|] eqn:Hr.
  - destruct (rpartition_some _ _ _ _ Hr) as [Hbase Hx]. right.
    exists stem, x. split; [exact Hbase|]. split; [exact Hx|].
    destruct (existsb (fun c => negb (Ascii.eqb c ".")) stem) eqn:Hstem.
    + left. now split.
    + right. split; [now apply only_dots|reflexivity].
  - left. split; [now apply rpartition_none|reflexivity].
Qed.

End ExtFacts.

(** C4: in the block [get_markdown_content] returns, the converted element
    has, for every image reference of the selected element and in the
    same order, the path made of the images directory and a file name
    that is the MD5 digest of the reference resolved against the page URL
    followed by the extension of that URL's path without the characters
    that are not letters, digits or dots, [.png] when the path has no
    extension; the image is downloaded to the file of that name in the
    images directory of the output; and the file names for
    [https://site/a.png], for a path whose extension needs sanitising,
    for a path without an extension and for a path that is a dot file
    are the digests followed by [.png], [.jpg], [.png] and [.png]. *)
Theorem image_references_are_localized
    (cfg : config) (e : env) (url : string) (doc : soup) (w : world)
    (block title : string) :
  md5_hexdigest e = Md5.hexdigest ->
  (get_markdown_content cfg e url doc w).1 = Some (block, title) ->
  (exists el el',
      content_element_of cfg e doc = Some el /\
      block
      = "# " +:+ title +:+ String "010" (String "010" "[Original URL: ")
          +:+ url +:+ String "]" (String "010" (String "010" "---"))
          +:+ String "010" (String "010"
                (html2text_handle e
                   (delete_all mojibake
                      (delete_all zero_width_space (element_str e el')))))
          +:+ String "010" (String "010" EmptyString) /\
      Forall2
        (fun src src' =>
           exists img_url parsed ext,
             urljoin url src = Some img_url /\
             urlparse img_url = Some parsed /\
             Claimed.extension_of (path parsed) ext /\
             src' = Posixpath.join (IMAGES_DIR cfg)
                      (Md5.hexdigest img_url
                       +:+ filter (fun c => is_alnum c || Ascii.eqb c ".")
                             (if is_empty ext then ".png" else ext)))
        (find_all_attr "img" "src" (contents el))
        (find_all_attr "img" "src" (contents el'))) /\
  (forall (a : attrs) src img_url name r w0,
      a !! "src" = Some src ->
      urljoin url src = Some img_url ->
      img_filename e img_url = Some name ->
      fs w0 !! Posixpath.join (OUTPUT_DIR cfg) (IMAGES_DIR cfg)
      = Some Directory ->
      exists_ (Posixpath.join (images_fs_path cfg) name) w0 = false ->
      http_get e img_url = Returns r ->
      status_code r = 200%Z ->
      fs (localize_img cfg e url "img" a w0).2
        !! Posixpath.join (Posixpath.join (OUTPUT_DIR cfg) (IMAGES_DIR cfg)) name
      = Some (File (String.concat "" (chunks r)))) /\
  img_filename e "https://site/a.png"
  = Some "053536831fcd2a6118df76019c875d58.png" /\
  img_filename e "https://site/docs/pics/logo.final.jp-g?v=2"
  = Some "9f4fc7e48e361d702856ec361fc84046.jpg" /\
  img_filename e "https://site/docs/pics/logo"
  = Some "a365d043acb2bfffe3c1f51c48696371.png" /\
  img_filename e "https://site/docs/.hidden"
  = Some "eb07176534a009e9ff25f2d9ea1e558c.png".
Proof.
  intros Hmd5 Hout. split; [|split].
  - rewrite RenderFacts.get_markdown_content_value in Hout.
    destruct (rendered_inv cfg e url doc block title Hout)
      as (el & el' & Hel & Hrw & _ & Hblock).
    exists el, el'. split; [exact Hel|]. split; [exact Hblock|].
    destruct (RenderFacts.rewritten_references cfg e url el el' Hrw) as [_ Himg].
    eapply Forall2_impl; [exact Himg|].
    intros src src'. unfold img_rel_path, img_filename.
    destruct (urljoin url src) as [img_url|]; [|discriminate].
    cbn [mbind option_bind].
    destruct (urlparse img_url) as [parsed|] eqn:Hp; [|discriminate].
    cbn [mbind option_bind]. rewrite Hmd5.
    intros H. injection H as <-.
    exists img_url, parsed, (Posixpath.splitext (path parsed)).2.
    split; [reflexivity|]. split; [exact Hp|].
    split; [apply ExtFacts.splitext_extension|reflexivity].
  - intros a src img_url name r w0 Hsrc Hjoin Hname _ Hex Hget Hok.
    unfold localize_img. simpl. rewrite Hsrc, Hjoin, Hname. simpl.
    rewrite Hex. simpl. unfold download_image. rewrite Hget.
    apply Z.eqb_eq in Hok. rewrite Hok.
    destruct (stream_breaks r); simpl; apply lookup_insert_eq.
  - unfold img_filename. rewrite Hmd5.
    repeat split; vm_compute; reflexivity.
Qed.

Lemma image_references_are_localized_witness :
  let cfg := Sites.default_config in
  let e := Sites.always Sites.gallery_page in
  let url := "https://site/docs/" in
  let w := mkWorld ∅ [] in
  (md5_hexdigest e = Md5.hexdigest /\
   (get_markdown_content cfg e url Sites.gallery_page w).1
   = Some (page_block "Gallery" url "", "Gallery")) /\
  (el ← content_element_of cfg e Sites.gallery_page;
   el' ← rewritten cfg e url el;
   Some (find_all_attr "img" "src" (contents el),
         find_all_attr "img" "src" (contents el')))
  = Some (["https://site/a.png"; "pics/logo.final.jp-g?v=2"; "pics/logo"],
          ["images/053536831fcd2a6118df76019c875d58.png";
           "images/9f4fc7e48e361d702856ec361fc84046.jpg";
           "images/a365d043acb2bfffe3c1f51c48696371.png"]) /\
  exists el el',
    content_element_of cfg e Sites.gallery_page = Some el /\
    Forall2
      (fun src src' =>
         exists img_url parsed ext,
           urljoin url src = Some img_url /\
           urlparse img_url = Some parsed /\
           Claimed.extension_of (path parsed) ext /\
           src' = Posixpath.join (IMAGES_DIR cfg)
                    (Md5.hexdigest img_url
                     +:+ filter (fun c => is_alnum c || Ascii.eqb c ".")
                           (if is_empty ext then ".png" else ext)))
      (find_all_attr "img" "src" (contents el))
      (find_all_attr "img" "src" (contents el')).
Proof.
  intros cfg e url w.
  assert (H1 : md5_hexdigest e = Md5.hexdigest) by reflexivity.
  assert (H2 : (get_markdown_content cfg e url Sites.gallery_page w).1
               = Some (page_block "Gallery" url "", "Gallery"))
    by (vm_compute; reflexivity).
  split; [split; assumption|]. split; [vm_compute; reflexivity|].
  destruct (image_references_are_localized cfg e url Sites.gallery_page w
              _ _ H1 H2) as [(el & el' & Hel & _ & Hsrcs) _].
  exists el, el'. split; [exact Hel|exact Hsrcs].
Defined.

(** ** The fallback to the body *)

(** C7, as the code has it: when the selector matches nothing, the
    diagnostic is printed and the [body] is looked for.  If the document
    has one and no link or image reference below it is rejected by
    [urljoin] or [urlparse], the page gives a block: the heading with the
    title, the line with the URL, the rule and the Markdown of the body
    with its references rewritten.  If the document has no [body], the
    second diagnostic is printed and the page gives nothing. *)
Theorem missing_selector_falls_back_to_body
    (cfg : config) (e : env) (url : string) (doc : soup) (w : world) :
  select_one e (CONTENT_SELECTOR cfg) doc = Match None ->
  (forall body,
      select_one e "body" doc = Match (Some body) ->
      Forall (fun href => is_Some (urljoin url href))
        (find_all_attr "a" "href" (contents body)) ->
      Forall (fun src => is_Some (img_rel_path cfg e url src))
        (find_all_attr "img" "src" (contents body)) ->
      exists body' title w',
        rewritten cfg e url body = Some body' /\
        get_markdown_content cfg e url doc w
        = (Some ("# " +:+ title
                   +:+ String "010" (String "010" "[Original URL: ")
                   +:+ url +:+ String "]" (String "010" (String "010" "---"))
                   +:+ String "010" (String "010"
                         (html2text_handle e
                            (delete_all mojibake
                               (delete_all zero_width_space
                                  (element_str e body')))))
                   +:+ String "010" (String "010" EmptyString),
                 title), w') /\
        LogSelectorNotFound url ∈ trace w') /\
  (select_one e "body" doc = Match None ->
   get_markdown_content cfg e url doc w
   = (None,
      emit (LogNoContentElement url) (emit (LogSelectorNotFound url) w))).
Proof.
  intros Hsel. split.
  - intros body Hbody Hhrefs Hsrcs.
    destruct (RenderFacts.rewritten_succeeds cfg e url body Hhrefs Hsrcs)
      as [body' Hrw].
    exists body', (page_title_of doc), (get_markdown_content cfg e url doc w).2.
    split; [exact Hrw|].
    assert (Hval : (get_markdown_content cfg e url doc w).1
                   = Some (page_block (page_title_of doc) url (markdown_of e body'),
                           page_title_of doc)).
    { rewrite RenderFacts.get_markdown_content_value.
      unfold rendered, content_element_of. rewrite Hsel, Hbody.
      cbn [mbind option_bind]. now rewrite Hrw. }
    split.
    + change (get_markdown_content cfg e url doc w
              = (Some (page_block (page_title_of doc) url (markdown_of e body'),
                       page_title_of doc),
                 (get_markdown_content cfg e url doc w).2)).
      rewrite <- Hval. now destruct (get_markdown_content cfg e url doc w).
    + unfold get_markdown_content. rewrite Hsel, Hbody.
      set (P := fun w0 : world => LogSelectorNotFound url ∈ trace w0).
      set (w1 := emit (LogSelectorNotFound url) w).
      assert (Hin1 : P w1).
      { unfold P, w1, emit. simpl. apply elem_of_app. right.
        now apply list_elem_of_singleton. }
      assert (Hemit : forall ev w0, P w0 -> P (emit ev w0)).
      { intros ev w0 H. unfold P, emit. simpl. apply elem_of_app. now left. }
      destruct (for_each_below (resolve_href url) body tt) as [[el1|] []];
        [|exact (Hemit (LogProcessingError url) w1 Hin1)].
      assert (Hin2 : P (ensure_dir (images_fs_path cfg) w1)).
      { unfold ensure_dir. now destruct (exists_ _ w1). }
      assert (Hbodyk : forall t a w0, P w0 -> P (localize_img cfg e url t a w0).2).
      { intros t a w0 H0.
        destruct (PageFacts.localize_img_respects cfg e url t a w0)
          as [_ (evs & Hevs & _)].
        unfold P. rewrite Hevs. apply elem_of_app. now left. }
      pose proof (SoupFacts.for_each_below_respects (localize_img cfg e url)
                    (fun w2 w3 : world => P w2 -> P w3)
                    (fun _ H => H) (fun _ _ _ H1 H2 H => H2 (H1 H)) Hbodyk
                    el1 (ensure_dir (images_fs_path cfg) w1) Hin2) as Hkeep.
      destruct (for_each_below (localize_img cfg e url) el1 _) as [[el2|] w2];
        [exact Hkeep|exact (Hemit (LogProcessingError url) w2 Hkeep)].
  - intros Hbody. unfold get_markdown_content. now rewrite Hsel, Hbody.
Qed.

Lemma missing_selector_falls_back_to_body_witness :
  let cfg := mkConfig "https://docs.sl.antimatter.io/" "output" "scrapedocs.md"
               "images" "article" in
  let e := Sites.always Sites.guide_page in
  let url := "https://docs.sl.antimatter.io/guide/intro" in
  let w := mkWorld ∅ [] in
  let body := Tag "body" ∅ [Tag "main" ∅ [Sites.link "next" "Next"]] in
  (select_one e (CONTENT_SELECTOR cfg) Sites.guide_page = Match None /\
   select_one e "body" Sites.guide_page = Match (Some body)) /\
  get_markdown_content cfg e url Sites.guide_page w
  = (Some ("# Intro" +:+ String "010" (String "010" "[Original URL: ")
             +:+ url +:+ String "]" (String "010" (String "010" "---"))
             +:+ String "010" (String "010" "Next")
             +:+ String "010" (String "010" EmptyString), "Intro"),
     mkWorld (<["output/images" := Directory]> ∅) [LogSelectorNotFound url]) /\
  exists body' title w',
    rewritten cfg e url body = Some body' /\
    get_markdown_content cfg e url Sites.guide_page w
    = (Some ("# " +:+ title
               +:+ String "010" (String "010" "[Original URL: ")
               +:+ url +:+ String "]" (String "010" (String "010" "---"))
               +:+ String "010" (String "010"
                     (html2text_handle e
                        (delete_all mojibake
                           (delete_all zero_width_space
                              (element_str e body')))))
               +:+ String "010" (String "010" EmptyString),
             title), w') /\
    LogSelectorNotFound url ∈ trace w'.
Proof.
  intros cfg e url w body.
  assert (H1 : select_one e (CONTENT_SELECTOR cfg) Sites.guide_page = Match None)
    by reflexivity.
  assert (H2 : select_one e "body" Sites.guide_page = Match (Some body))
    by reflexivity.
  split; [split; assumption|]. split; [vm_compute; reflexivity|].
  apply (proj1 (missing_selector_falls_back_to_body cfg e url Sites.guide_page
                  w H1) body H2).
  - repeat constructor. vm_compute. eauto.
  - constructor.
Defined.

(** C7, as stated, fails for a page that has neither a match of the
    selector nor a [body]: both diagnostics are printed and the page
    gives nothing.  It fails as well for a page whose [body] holds a link
    that [urljoin] rejects, here one with an opening bracket and no
    closing one: the fallback is taken, the error is caught and the page
    gives nothing. *)
Lemma fallback_can_give_nothing :
  let cfg := Sites.default_config in
  let e := Sites.always Sites.bare_fragment in
  let url := "https://docs.sl.antimatter.io/moved" in
  (select_one e (CONTENT_SELECTOR cfg) Sites.bare_fragment = Match None /\
   get_markdown_content cfg e url Sites.bare_fragment (mkWorld ∅ [])
   = (None, mkWorld ∅ [LogSelectorNotFound url; LogNoContentElement url])) /\
  (select_one e (CONTENT_SELECTOR cfg) Sites.bad_link_page = Match None /\
   find_all_attr "a" "href" Sites.bad_link_page = ["http://["] /\
   authority "http://[" = "[" /\
   bracket_mismatch "[" = true /\
   urljoin url "http://[" = None /\
   get_markdown_content cfg e url Sites.bad_link_page (mkWorld ∅ [])
   = (None, mkWorld ∅ [LogSelectorNotFound url; LogProcessingError url])).
Proof. repeat split; vm_compute; reflexivity. Qed.

(** ** Link discovery *)

(** The queue after one link: the link resolved against the root and
    cleaned is appended when it is internal, not visited and not queued. *)
Lemma enqueue_link_inv (cfg : config) (visited : gset string)
    (queue queue' : list string) (href : string) :
  enqueue_link cfg visited queue href = Some queue' ->
  exists full u internal,
    urljoin (BASE_URL cfg) href = Some full /\
    base_url_only full = Some u /\
    is_internal_link cfg u = Some internal /\
    queue' = if internal && bool_decide (u ∉ visited) && bool_decide (u ∉ queue)
             then queue ++ [u] else queue.
Proof.
  unfold enqueue_link.
  destruct (urljoin (BASE_URL cfg) href) as [full|] eqn:Hf; simpl; [|discriminate].
  destruct (base_url_only full) as [u|] eqn:Hu; simpl; [|discriminate].
  destruct (is_internal_link cfg u) as [internal|] eqn:Hi; simpl; [|discriminate].
  intros H. exists full, u, internal.
  split; [reflexivity|]. split; [exact Hu|]. split; [exact Hi|].
  destruct (internal && bool_decide (u ∉ visited)); simpl in *;
    [destruct (bool_decide (u ∉ queue))|]; inversion H; subst; reflexivity.
Qed.

(** The queue after the links of a page: the old queue, then URLs that
    are links of the page resolved against the root and cleaned; and no
    link whose resolution is internal and not visited is left out. *)
Lemma enqueue_links_inv (cfg : config) (visited : gset string)
    (hrefs : list string) :
  forall queue queue',
    enqueue_links cfg visited queue hrefs = Some queue' ->
    (exists added,
        queue' = queue ++ added /\
        Forall (fun u => exists href full,
                    href ∈ hrefs /\
                    urljoin (BASE_URL cfg) href = Some full /\
                    base_url_only full = Some u) added) /\
    (forall href full u,
        href ∈ hrefs ->
        urljoin (BASE_URL cfg) href = Some full ->
        base_url_only full = Some u ->
        is_internal_link cfg u = Some true ->
        u ∉ visited ->
        u ∈ queue').
Proof.
  induction hrefs as [|href hrefs IH]; intros queue queue' H; simpl in H.
  - inversion H; subst. split.
    + exists []. split; [now rewrite app_nil_r|constructor].
    + intros href full u Hin. now apply elem_of_nil in Hin.
  - destruct (enqueue_link cfg visited queue href) as [q1|] eqn:H1;
      simpl in H; [|discriminate].
    destruct (enqueue_link_inv _ _ _ _ _ H1) as (full & u & internal & Hf & Hu & Hi & Hq1).
    destruct (IH q1 queue' H) as [(added & Hq' & Hadded) Hall].
    assert (Hlift : Forall (fun u0 => exists href0 full0,
                       href0 ∈ href :: hrefs /\
                       urljoin (BASE_URL cfg) href0 = Some full0 /\
                       base_url_only full0 = Some u0) added).
    { eapply Forall_impl; [exact Hadded|].
      intros u0 (href0 & full0 & Hin & Hrest). exists href0, full0.
      split; [apply elem_of_cons; now right|exact Hrest]. }
    assert (Hmono : forall x, x ∈ q1 -> x ∈ queue').
    { intros x Hx. rewrite Hq'. apply elem_of_app. now left. }
    split.
    + destruct (internal && bool_decide (u ∉ visited) && bool_decide (u ∉ queue)).
      * exists (u :: added). split.
        { rewrite Hq', Hq1, <- app_assoc. reflexivity. }
        constructor; [|exact Hlift].
        exists href, full. split; [apply elem_of_cons; now left|now split].
      * exists added. split; [now rewrite Hq', Hq1|exact Hlift].
    + intros href0 full0 u0 Hin Hf0 Hu0 Hi0 Hv0.
      apply elem_of_cons in Hin as [->|Hin]; [|eapply Hall; eassumption].
      rewrite Hf in Hf0. inversion Hf0; subst full0.
      rewrite Hu in Hu0. inversion Hu0; subst u0.
      rewrite Hi in Hi0. inversion Hi0; subst internal.
      apply Hmono. rewrite Hq1. simpl.
      rewrite (bool_decide_eq_true_2 _ Hv0). simpl.
      destruct (bool_decide (u ∉ queue)) eqn:Hq.
      * apply elem_of_app. right. now apply list_elem_of_singleton.
      * apply bool_decide_eq_false in Hq. now apply dec_stable.
Qed.

(** C10: after a page has been fetched, the queue is the rest of the
    queue followed by links of the page resolved against the root URL and
    cleaned, the URL of the page playing no part, and every link whose
    resolution against the root is internal and not visited is in it;
    whereas in the block of the page every link of the converted element
    is the link resolved against the URL of the page. *)
Theorem links_are_resolved_against_the_root
    (cfg : config) (e : env) (s s' : state) (url : string)
    (rest : list string) (c : string) (r : response) :
  urls_to_visit s = url :: rest ->
  base_url_only url = Some c ->
  (c ∉ visited_urls s) ->
  http_get e url = Returns r ->
  raises_for_status r = false ->
  iteration cfg e s = Continue s' ->
  enqueue_links cfg ({[c]} ∪ visited_urls s) rest
    (find_all_attr "a" "href" (text r)) = Some (urls_to_visit s') /\
  (exists added,
      urls_to_visit s' = rest ++ added /\
      Forall (fun u => exists href full,
                  href ∈ find_all_attr "a" "href" (text r) /\
                  urljoin (BASE_URL cfg) href = Some full /\
                  base_url_only full = Some u) added) /\
  (forall href full u,
      href ∈ find_all_attr "a" "href" (text r) ->
      urljoin (BASE_URL cfg) href = Some full ->
      base_url_only full = Some u ->
      is_internal_link cfg u = Some true ->
      u ∉ {[c]} ∪ visited_urls s ->
      u ∈ urls_to_visit s') /\
  (forall w block title,
      (get_markdown_content cfg e c (text r) w).1 = Some (block, title) ->
      exists el el',
        content_element_of cfg e (text r) = Some el /\
        block = page_block title c (markdown_of e el') /\
        Forall2 (fun href href' => urljoin c href = Some href')
          (find_all_attr "a" "href" (contents el))
          (find_all_attr "a" "href" (contents el'))).
Proof.
  intros Hq Hc Hfresh Hget Hok Hi.
  assert (Hqueue : enqueue_links cfg ({[c]} ∪ visited_urls s) rest
                     (find_all_attr "a" "href" (text r)) = Some (urls_to_visit s')).
  { unfold iteration in Hi. rewrite Hq, Hc in Hi. simpl in Hi.
    rewrite (bool_decide_eq_false_2 _ Hfresh), Hget, Hok in Hi.
    destruct (get_markdown_content cfg e c (text r) _) as [content_data w1].
    destruct content_data as [[content title]|];
      destruct (enqueue_links cfg ({[c]} ∪ visited_urls s) rest
                  (find_all_attr "a" "href" (text r))) as [queue'|];
      inversion Hi; subst; reflexivity. }
  split; [exact Hqueue|].
  destruct (enqueue_links_inv _ _ _ _ _ Hqueue) as [Hadded Hall].
  split; [exact Hadded|]. split; [exact Hall|].
  intros w block title Hout.
  rewrite RenderFacts.get_markdown_content_value in Hout.
  destruct (rendered_inv cfg e c (text r) block title Hout)
    as (el & el' & Hel & Hrw & _ & Hblock).
  exists el, el'. split; [exact Hel|]. split; [exact Hblock|].
  now destruct (RenderFacts.rewritten_references cfg e c el el' Hrw).
Qed.

Lemma links_are_resolved_against_the_root_witness :
  let cfg := Sites.default_config in
  let e := Sites.always Sites.guide_page in
  let url := "https://docs.sl.antimatter.io/guide/intro" in
  let s := mkState ∅ [url] [] [] (mkWorld ∅ []) in
  let r := mkResponse 200 Sites.guide_page [] false in
  exists s',
    (urls_to_visit s = [url] /\ base_url_only url = Some url /\
     (url ∉ visited_urls s) /\ http_get e url = Returns r /\
     raises_for_status r = false /\ iteration cfg e s = Continue s') /\
    urls_to_visit s' = ["https://docs.sl.antimatter.io/next"] /\
    urljoin url "next" = Some "https://docs.sl.antimatter.io/guide/next" /\
    enqueue_links cfg ({[url]} ∪ visited_urls s) []
      (find_all_attr "a" "href" (text r)) = Some (urls_to_visit s').
Proof.
  intros cfg e url s r.
  destruct (iteration cfg e s) as [|s'|s'] eqn:Hi;
    try (exfalso; vm_compute in Hi; discriminate).
  exists s'.
  assert (H1 : urls_to_visit s = [url]) by reflexivity.
  assert (H2 : base_url_only url = Some url) by reflexivity.
  assert (H3 : url ∉ visited_urls s) by apply not_elem_of_empty.
  assert (H4 : http_get e url = Returns r) by reflexivity.
  assert (H5 : raises_for_status r = false) by reflexivity.
  split; [repeat split; assumption|].
  destruct (links_are_resolved_against_the_root cfg e s s' url [] url r
              H1 H2 H3 H4 H5 Hi) as (Hqueue & _).
  assert (Hs' : urls_to_visit s' = ["https://docs.sl.antimatter.io/next"]).
  { assert (H : match iteration cfg e s with
                | Continue x => urls_to_visit x
                | _ => []
                end = ["https://docs.sl.antimatter.io/next"])
      by (vm_compute; reflexivity).
    now rewrite Hi in H. }
  split; [exact Hs'|]. split; [reflexivity|exact Hqueue].
Defined.

(** ** The identity of a page *)

(** X20: for a URL with an authority, a scheme that
    [urljoin] resolves and a path that starts with one slash, the cleaned
    form is the scheme, the authority and the path with its dot segments
    resolved, without parameters, query or fragment; URLs that differ
    only in these have the same cleaned form; a popped URL whose cleaned
    form is visited is skipped without a request; and a link that
    resolves to such a URL enters the queue in the cleaned form. *)
Theorem cleaned_url_is_scheme_host_and_path (url : string) (p : ParseResult) :
  urlparse url = Some p ->
  netloc p <> "" ->
  path p <> "" ->
  startswith "//" (path p) = false ->
  mem (scheme p) uses_relative = true ->
  let c := urlunparse (scheme p) (netloc p)
             (resolved_path (split "/" (path p))) "" "" "" in
  base_url_only url = Some c /\
  contains "?" c = false /\
  contains "#" c = false /\
  (forall url' p',
      urlparse url' = Some p' ->
      scheme p' = scheme p -> netloc p' = netloc p -> path p' = path p ->
      base_url_only url' = Some c) /\
  (forall cfg e s rest,
      urls_to_visit s = url :: rest ->
      c ∈ visited_urls s ->
      iteration cfg e s
      = Continue (mkState (visited_urls s) rest (all_markdown_content s)
                    (toc_entries s) (outside s))) /\
  (forall cfg visited queue href,
      urljoin (BASE_URL cfg) href = Some url ->
      enqueue_link cfg visited queue href
      = (internal ← is_internal_link cfg c;
         Some (if internal && bool_decide (c ∉ visited)
                  && bool_decide (c ∉ queue)
               then queue ++ [c] else queue))).
Proof.
  intros Hp Hn Hpath Hdouble Hrel c.
  pose proof (UrlFacts.base_url_only_rooted url p Hp Hn Hpath Hdouble Hrel) as Hc.
  pose proof (UrlFacts.urlparse_well_parsed url p Hp) as Hwp.
  destruct (UrlFacts.cleaned_is_bare p Hwp) as [Hq Hf].
  split; [exact Hc|]. split; [exact Hq|]. split; [exact Hf|].
  split; [|split].
  - intros url' p' Hp' Hs' Hn' Hpa'. unfold c. rewrite <- Hs', <- Hn', <- Hpa'.
    apply UrlFacts.base_url_only_rooted; congruence.
  - intros cfg e s rest Hqueue Hvis. unfold iteration.
    rewrite Hqueue, Hc. simpl. now rewrite (bool_decide_eq_true_2 _ Hvis).
  - intros cfg visited queue href Hj. unfold enqueue_link.
    rewrite Hj. simpl. rewrite Hc. simpl. fold c.
    destruct (is_internal_link cfg c) as [internal|]; [|reflexivity]. simpl.
    destruct (internal && bool_decide (c ∉ visited)); simpl; [|reflexivity].
    now destruct (bool_decide (c ∉ queue)).
Qed.

Lemma cleaned_url_is_scheme_host_and_path_witness :
  let url := "https://docs.sl.antimatter.io/guide/./intro?x=1#top" in
  let p := mkParse "https" "docs.sl.antimatter.io" "/guide/./intro" ""
             "x=1" "top" in
  (urlparse url = Some p /\ netloc p <> "" /\ path p <> "" /\
   startswith "//" (path p) = false /\ mem (scheme p) uses_relative = true) /\
  base_url_only url = Some "https://docs.sl.antimatter.io/guide/intro" /\
  base_url_only "https://docs.sl.antimatter.io/guide/./intro?x=2"
  = Some "https://docs.sl.antimatter.io/guide/intro".
Proof.
  intros url p.
  assert (H1 : urlparse url = Some p) by reflexivity.
  assert (H2 : netloc p <> "") by discriminate.
  assert (H3 : path p <> "") by discriminate.
  assert (H4 : startswith "//" (path p) = false) by reflexivity.
  assert (H5 : mem (scheme p) uses_relative = true) by reflexivity.
  split; [repeat split; assumption|].
  destruct (cleaned_url_is_scheme_host_and_path url p H1 H2 H3 H4 H5)
    as (Hc & _ & _ & Hsame & _).
  split; [exact Hc|].
  apply (Hsame "https://docs.sl.antimatter.io/guide/./intro?x=2"
           (mkParse "https" "docs.sl.antimatter.io" "/guide/./intro" ""
              "x=2" "")); reflexivity.
Defined.

(** C9 fails on the code for a URL without a path: the cleaned form of
    such a URL is the URL itself, query string included, so two URLs
    that differ only in their query string are two pages, and a link
    with a query string is queued and fetched with it; with a slash
    after the host the query string is dropped. *)
Lemma query_of_a_bare_root_is_kept :
  let cfg := Sites.bare_root_config in
  let e := Sites.always Sites.paging_page in
  urlparse "https://docs.example.com?page=1"
  = Some (mkParse "https" "docs.example.com" "" "" "page=1" "") /\
  urlparse "https://docs.example.com?page=2"
  = Some (mkParse "https" "docs.example.com" "" "" "page=2" "") /\
  base_url_only "https://docs.example.com?page=1"
  = Some "https://docs.example.com?page=1" /\
  base_url_only "https://docs.example.com?page=2"
  = Some "https://docs.example.com?page=2" /\
  base_url_only "https://docs.example.com/?page=2"
  = Some "https://docs.example.com/" /\
  enqueue_link cfg ∅ [] "?page=2" = Some ["https://docs.example.com?page=2"] /\
  page_fetches (trace (outside (scrape_docs cfg e 10 ∅).2))
  = ["https://docs.example.com"; "https://docs.example.com?page=2"].
Proof. repeat split; vm_compute; reflexivity. Qed.

(** ** The classification of links *)

(** C2, as the code has it: a URL is classified as internal if and only
    if its authority equals the authority of the root URL and its path
    does not end in one of the ten denylisted extensions; whether it has
    a scheme is not looked at ([is_valid] is never called), while an
    internal URL has a host whenever the root has one; every URL of
    another authority and every URL whose path ends in a denylisted
    extension is excluded; and a discovered link enters the queue exactly
    when its resolved and cleaned form is internal, not visited and not
    queued. *)
Theorem internal_link_is_same_host_page
    (cfg : config) (url : string) (u b : ParseResult) :
  urlparse url = Some u ->
  urlparse (BASE_URL cfg) = Some b ->
  denylist = [".png"; ".jpg"; ".jpeg"; ".gif"; ".css"; ".js"; ".xml"; ".rss";
              ".pdf"; ".zip"] /\
  (is_internal_link cfg url = Some true <->
   netloc u = netloc b /\ endswith_any denylist (path u) = false) /\
  (netloc u <> netloc b -> is_internal_link cfg url = Some false) /\
  (forall ext, In ext denylist -> endswith ext (path u) = true ->
               is_internal_link cfg url = Some false) /\
  (is_internal_link cfg url = Some true -> netloc b <> "" -> netloc u <> "") /\
  (forall visited queue href full,
      urljoin (BASE_URL cfg) href = Some full ->
      base_url_only full = Some url ->
      enqueue_link cfg visited queue href
      = Some (if bool_decide (is_internal_link cfg url = Some true)
                 && bool_decide (url ∉ visited) && bool_decide (url ∉ queue)
              then queue ++ [url] else queue)).
Proof.
  intros Hu Hb.
  assert (Hdef : is_internal_link cfg url
                 = Some (String.eqb (netloc u) (netloc b)
                         && negb (endswith_any denylist (path u)))).
  { unfold is_internal_link. rewrite Hu, Hb. cbn [mbind option_bind].
    destruct (String.eqb (netloc u) (netloc b)); cbn [negb andb]; [|reflexivity].
    now destruct (endswith_any denylist (path u)). }
  split; [reflexivity|]. split; [|split; [|split; [|split]]].
  - rewrite Hdef. split.
    + intros H. inversion H as [H']. apply andb_true_iff in H' as [H1 H2].
      apply String.eqb_eq in H1. apply negb_true_iff in H2. now split.
    + intros [H1 H2]. apply String.eqb_eq in H1. now rewrite H1, H2.
  - intros Hne. rewrite Hdef. apply String.eqb_neq in Hne. now rewrite Hne.
  - intros ext Hin Hend. rewrite Hdef.
    assert (Hany : endswith_any denylist (path u) = true).
    { unfold endswith_any. apply List.existsb_exists. now exists ext. }
    rewrite Hany. simpl. now rewrite andb_false_r.
  - rewrite Hdef. intros H Hbn Hun. inversion H as [H'].
    apply andb_true_iff in H' as [H1 _]. apply String.eqb_eq in H1. congruence.
  - intros visited queue href full Hj Hc.
    set (i := String.eqb (netloc u) (netloc b)
              && negb (endswith_any denylist (path u))) in *.
    assert (Hbd : bool_decide (is_internal_link cfg url = Some true) = i).
    { rewrite Hdef. destruct i.
      - now apply bool_decide_eq_true_2.
      - apply bool_decide_eq_false_2. discriminate. }
    rewrite Hbd. unfold enqueue_link.
    rewrite Hj. cbn [mbind option_bind]. rewrite Hc. cbn [mbind option_bind].
    rewrite Hdef. cbn [mbind option_bind].
    destruct i; cbn [andb]; [|reflexivity].
    destruct (bool_decide (url ∉ visited)); cbn [andb]; [|reflexivity].
    now destruct (bool_decide (url ∉ queue)).
Qed.

Lemma internal_link_is_same_host_page_witness :
  let cfg := Sites.default_config in
  let url := "https://docs.sl.antimatter.io/guide/setup" in
  let u := mkParse "https" "docs.sl.antimatter.io" "/guide/setup" "" "" "" in
  let b := mkParse "https" "docs.sl.antimatter.io" "/" "" "" "" in
  (urlparse url = Some u /\ urlparse (BASE_URL cfg) = Some b) /\
  is_internal_link cfg url = Some true /\
  enqueue_link cfg ∅ [] "guide/setup#step-2" = Some [url].
Proof.
  intros cfg url u b.
  assert (H1 : urlparse url = Some u) by reflexivity.
  assert (H2 : urlparse (BASE_URL cfg) = Some b) by reflexivity.
  split; [split; assumption|].
  destruct (internal_link_is_same_host_page cfg url u b H1 H2)
    as (_ & Hiff & _ & _ & _ & Henq).
  assert (Hint : is_internal_link cfg url = Some true).
  { apply Hiff. split; reflexivity. }
  split; [exact Hint|].
  rewrite (Henq ∅ [] "guide/setup#step-2" "https://docs.sl.antimatter.io/guide/setup#step-2");
    reflexivity.
Defined.

(** C2, as stated, fails on a link whose cleaned form has no scheme: for
    the default root, [x://a//docs.sl.antimatter.io/guide] is cleaned to
    [//docs.sl.antimatter.io/guide], which has the root's host and no
    denylisted extension, is classified as internal and enters the queue,
    although it has no scheme. *)
Lemma schemeless_link_is_eligible :
  let cfg := Sites.default_config in
  let href := "x://a//docs.sl.antimatter.io/guide" in
  let url := "//docs.sl.antimatter.io/guide" in
  urljoin (BASE_URL cfg) href = Some href /\
  base_url_only href = Some url /\
  is_internal_link cfg url = Some true /\
  enqueue_link cfg ∅ [] href = Some [url] /\
  is_valid url = Some false /\
  ~ Claimed.eligible_as_claimed cfg url.
Proof.
  intros cfg href url. repeat split; try (vm_compute; reflexivity).
  intros [Hv _]. vm_compute in Hv. discriminate.
Qed.

(** ** The table of contents *)





Module TurnFacts.
Import PageFacts CrawlFacts.

Lemma iteration_turn (cfg : config) (e : env) (s : state) :
  turn_from cfg e s (iteration cfg e s).
Proof.
  unfold iteration.
  destruct (urls_to_visit s) as [|url rest] eqn:Hq; [exact (turn_finished cfg e s Hq)|].
  destruct (base_url_only url) as [c|] eqn:Hc;
    [|exact (turn_unclean cfg e s url rest Hq Hc)].
  cbn [visited_urls all_markdown_content toc_entries outside urls_to_visit].
  destruct (bool_decide (c ∈ visited_urls s)) eqn:Hv.
  { apply bool_decide_eq_true in Hv.
    exact (turn_skipped cfg e s url rest c Hq Hc Hv). }
  apply bool_decide_eq_false in Hv.
  change (emit (Get url false) (emit (LogProcessingLink c) (outside s)))
    with (fetching url c (outside s)).
  destruct (http_get e url) as [|r] eqn:Hget.
  { exact (turn_failed cfg e s url rest c Hq Hc Hv (or_introl Hget)). }
  destruct (raises_for_status r) eqn:Hst.
  { exact (turn_failed cfg e s url rest c Hq Hc Hv
             (or_intror (ex_intro _ r (conj Hget Hst)))). }
  destruct (get_markdown_content cfg e c (text r) (fetching url c (outside s)))
    as [content_data w] eqn:Hgmc.
  destruct (enqueue_links cfg ({[c]} ∪ visited_urls s) rest
              (find_all_attr "a" "href" (text r))) as [queue|] eqn:Henq.
  - destruct content_data as [[content title]|];
      exact (turn_fetched cfg e s url rest c r _ w queue Hq Hc Hv Hget Hst Hgmc Henq).
  - destruct content_data as [[content title]|];
      exact (turn_crashed cfg e s url rest c r _ w Hq Hc Hv Hget Hst Hgmc Henq).
Qed.

Lemma fetching_page_fetches (url c : string) (w : world) :
  page_fetches (trace (fetching url c w)) = page_fetches (trace w) ++ [url].
Proof.
  unfold fetching, emit. simpl. rewrite !page_fetches_app. simpl.
  now rewrite app_nil_r.
Qed.

Lemma converted_page_fetches (cfg : config) (e : env) (url c : string)
    (doc : soup) (w0 w : world) (content_data : option (string * string)) :
  get_markdown_content cfg e c doc (fetching url c w0) = (content_data, w) ->
  page_fetches (trace w) = page_fetches (trace w0) ++ [url].
Proof.
  intros H.
  pose proof (get_markdown_content_same_page_fetches cfg e c doc (fetching url c w0)) as Hs.
  rewrite H in Hs. unfold same_page_fetches in Hs. cbn [snd] in Hs.
  rewrite Hs. apply fetching_page_fetches.
Qed.

Lemma emit_log_page_fetches (ev : event) (w : world) :
  (forall u, ev <> Get u false) ->
  page_fetches (trace (emit ev w)) = page_fetches (trace w).
Proof. intros H. exact (same_page_fetches_emit ev w H). Qed.

(** A property that every outcome of a turn keeps holds wherever the
    loop stops. *)
Lemma crawl_keeps (cfg : config) (e : env) (P : state -> Prop) :
  (forall s t s', P s -> turn_from cfg e s t ->
                  t = Continue s' \/ t = Uncaught s' -> P s') ->
  forall fuel s, P s -> P (crawl cfg e fuel s).2.
Proof.
  intros Hstep. apply crawl_invariant. intros s s' Hs Hi.
  eapply Hstep; [exact Hs|apply iteration_turn|exact Hi].
Qed.

(** What the loop over the links appends: URLs that are internal, were
    not visited and were not in the queue, each once. *)
Lemma enqueue_links_added (cfg : config) (visited : gset string)
    (hrefs : list string) :
  forall queue queue',
    enqueue_links cfg visited queue hrefs = Some queue' ->
    exists added,
      queue' = queue ++ added /\
      Forall (fun u => is_internal_link cfg u = Some true /\ u ∉ visited) added /\
      (NoDup queue -> NoDup queue').
Proof.
  induction hrefs as [|href hrefs IH]; intros queue queue' H; simpl in H.
  - inversion H; subst. exists []. rewrite app_nil_r. repeat split; auto.
  - destruct (enqueue_link cfg visited queue href) as [q1|] eqn:H1;
      simpl in H; [|discriminate].
    destruct (enqueue_link_inv _ _ _ _ _ H1)
      as (full & u & internal & _ & _ & Hi & Hq1).
    destruct (IH q1 queue' H) as (added & Hq' & Hadded & Hnd).
    destruct (internal && bool_decide (u ∉ visited) && bool_decide (u ∉ queue))
      eqn:Hcond.
    + apply andb_true_iff in Hcond as [Hcond Hq].
      apply andb_true_iff in Hcond as [Hint Hv].
      apply bool_decide_eq_true in Hq, Hv. subst internal q1.
      exists (u :: added). split; [now rewrite Hq', <- app_assoc|].
      split; [constructor; [now split|exact Hadded]|].
      intros Hn. apply Hnd. apply NoDup_app. split; [exact Hn|].
      split; [|apply NoDup_singleton].
      intros x Hx Hx'. apply list_elem_of_singleton in Hx'. now subst x.
    + subst q1. exists added. repeat split; assumption.
Qed.

End TurnFacts.

(** ** What the crawl keeps *)

(** X1: every URL that is requested as a page, and every URL that waits
    in the queue, is the root URL or a URL classified as internal: no
    page of another site is fetched. *)
Theorem only_the_root_and_internal_pages_are_requested
    (cfg : config) (e : env) (fuel : nat) (files : gmap string inode) :
  let s := (crawl cfg e fuel (initial cfg files)).2 in
  Forall (fun u => u = BASE_URL cfg \/ is_internal_link cfg u = Some true)
    (page_fetches (trace (outside s)) ++ urls_to_visit s).
Proof.
  apply (TurnFacts.crawl_keeps cfg e
           (fun s => Forall (fun u => u = BASE_URL cfg \/
                                      is_internal_link cfg u = Some true)
                       (page_fetches (trace (outside s)) ++ urls_to_visit s))).
  - intros s t s' Hs Ht Hs'.
    apply Forall_app in Hs as [Hf Hq].
    destruct Ht as [Hqueue|url rest Hqueue _|url rest c Hqueue _ _
                   |url rest c Hqueue _ _ _
                   |url rest c r cd w Hqueue _ _ _ _ Hgmc _
                   |url rest c r cd w queue Hqueue _ _ _ _ Hgmc Henq];
      destruct Hs' as [Hs'|Hs']; inversion Hs'; subst s'; clear Hs';
      rewrite Hqueue in Hq; apply Forall_cons in Hq as [Hurl Hrest];
      cbn [outside urls_to_visit]; apply Forall_app.
    + split; assumption.
    + split; assumption.
    + rewrite TurnFacts.emit_log_page_fetches by discriminate.
      rewrite TurnFacts.fetching_page_fetches. split; [|exact Hrest].
      apply Forall_app. split; [exact Hf|now constructor].
    + rewrite (TurnFacts.converted_page_fetches _ _ _ _ _ _ _ _ Hgmc).
      split; [|exact Hrest]. apply Forall_app. split; [exact Hf|now constructor].
    + rewrite TurnFacts.emit_log_page_fetches by discriminate.
      rewrite (TurnFacts.converted_page_fetches _ _ _ _ _ _ _ _ Hgmc).
      split; [apply Forall_app; split; [exact Hf|now constructor]|].
      destruct (TurnFacts.enqueue_links_added _ _ _ _ _ Henq)
        as (added & -> & Hadded & _).
      apply Forall_app. split; [exact Hrest|].
      eapply Forall_impl; [exact Hadded|]. intros u [Hu _]. now right.
  - rewrite CrawlFacts.initial_trace. simpl. constructor; [now left|constructor].
Qed.

(** X2: the queue never holds a URL twice. *)
Theorem queue_has_no_duplicates
    (cfg : config) (e : env) (fuel : nat) (files : gmap string inode) :
  NoDup (urls_to_visit (crawl cfg e fuel (initial cfg files)).2).
Proof.
  apply (TurnFacts.crawl_keeps cfg e (fun s => NoDup (urls_to_visit s))).
  - intros s t s' Hs Ht Hs'.
    destruct Ht as [Hqueue|url rest Hqueue _|url rest c Hqueue _ _
                   |url rest c Hqueue _ _ _
                   |url rest c r cd w Hqueue _ _ _ _ _ _
                   |url rest c r cd w queue Hqueue _ _ _ _ _ Henq];
      destruct Hs' as [Hs'|Hs']; inversion Hs'; subst s'; clear Hs';
      rewrite Hqueue in Hs; apply NoDup_cons in Hs as [_ Hrest];
      cbn [urls_to_visit]; try exact Hrest.
    destruct (TurnFacts.enqueue_links_added _ _ _ _ _ Henq) as (_ & _ & _ & Hnd).
    now apply Hnd.
  - simpl. apply NoDup_singleton.
Qed.

(** X3: titles and blocks are collected together, and at most one of each
    per requested page. *)
Theorem one_title_per_block_and_one_block_per_page
    (cfg : config) (e : env) (fuel : nat) (files : gmap string inode) :
  let s := (crawl cfg e fuel (initial cfg files)).2 in
  List.length (toc_entries s) = List.length (all_markdown_content s) /\
  List.length (all_markdown_content s)
  <= List.length (page_fetches (trace (outside s))).
Proof.
  apply (TurnFacts.crawl_keeps cfg e
           (fun s => List.length (toc_entries s)
                     = List.length (all_markdown_content s) /\
                     List.length (all_markdown_content s)
                     <= List.length (page_fetches (trace (outside s))))).
  - intros s t s' [Heq Hle] Ht Hs'.
    assert (Hcollect : forall cd,
               List.length (collected_titles cd s)
               = List.length (collected_contents cd s) /\
               List.length (collected_contents cd s)
               <= S (List.length (all_markdown_content s))).
    { intros [[content title]|]; simpl; rewrite ?length_app; simpl; lia. }
    destruct Ht as [Hqueue|url rest Hqueue _|url rest c Hqueue _ _
                   |url rest c Hqueue _ _ _
                   |url rest c r cd w Hqueue _ _ _ _ Hgmc _
                   |url rest c r cd w queue Hqueue _ _ _ _ Hgmc Henq];
      destruct Hs' as [Hs'|Hs']; inversion Hs'; subst s'; clear Hs';
      cbn [outside toc_entries all_markdown_content];
      try (split; assumption).
    + rewrite TurnFacts.emit_log_page_fetches by discriminate.
      rewrite TurnFacts.fetching_page_fetches, length_app. simpl. lia.
    + rewrite (TurnFacts.converted_page_fetches _ _ _ _ _ _ _ _ Hgmc), length_app.
      destruct (Hcollect cd). simpl. lia.
    + rewrite TurnFacts.emit_log_page_fetches by discriminate.
      rewrite (TurnFacts.converted_page_fetches _ _ _ _ _ _ _ _ Hgmc), length_app.
      destruct (Hcollect cd). simpl. lia.
  - rewrite CrawlFacts.initial_trace. simpl. lia.
Qed.

(** X4: the visited set has exactly one URL per page request. *)
Theorem one_visited_url_per_request
    (cfg : config) (e : env) (fuel : nat) (files : gmap string inode) :
  let s := (crawl cfg e fuel (initial cfg files)).2 in
  size (visited_urls s) = List.length (page_fetches (trace (outside s))).
Proof.
  apply (TurnFacts.crawl_keeps cfg e
           (fun s => size (visited_urls s)
                     = List.length (page_fetches (trace (outside s))))).
  - intros s t s' Hs Ht Hs'.
    assert (Hsize : forall c, c ∉ visited_urls s ->
               size ({[c]} ∪ visited_urls s)
               = List.length (page_fetches (trace (outside s)) ++ [c])).
    { intros c Hc. rewrite size_union by set_solver.
      rewrite size_singleton, length_app, Hs. simpl. lia. }
    destruct Ht as [Hqueue|url rest Hqueue _|url rest c Hqueue _ _
                   |url rest c Hqueue _ Hfresh _
                   |url rest c r cd w Hqueue _ Hfresh _ _ Hgmc _
                   |url rest c r cd w queue Hqueue _ Hfresh _ _ Hgmc Henq];
      destruct Hs' as [Hs'|Hs']; inversion Hs'; subst s'; clear Hs';
      cbn [outside visited_urls]; try exact Hs.
    + rewrite TurnFacts.emit_log_page_fetches by discriminate.
      rewrite TurnFacts.fetching_page_fetches, (Hsize c Hfresh), !length_app.
      reflexivity.
    + rewrite (TurnFacts.converted_page_fetches _ _ _ _ _ _ _ _ Hgmc).
      rewrite (Hsize c Hfresh), !length_app. reflexivity.
    + rewrite TurnFacts.emit_log_page_fetches by discriminate.
      rewrite (TurnFacts.converted_page_fetches _ _ _ _ _ _ _ _ Hgmc).
      rewrite (Hsize c Hfresh), !length_app. reflexivity.
  - rewrite CrawlFacts.initial_trace. simpl.
    exact (size_empty (C := gset string)).
Qed.

(** ** Facts about titles, slugs, file names and paths *)

Module TextFacts.
Import StrFacts UrlFacts.

Lemma forallb_weaken (q q' : ascii -> bool) (s : string) :
  (forall c, q c = true -> q' c = true) ->
  Str.forallb q s = true -> Str.forallb q' s = true.
Proof.
  intros Hq. induction s as [|c s IH]; simpl; [reflexivity|].
  intros H. apply andb_true_iff in H as [Hc Hs]. now rewrite (Hq c Hc), IH.
Qed.

Lemma forallb_both (p q : ascii -> bool) (s : string) :
  Str.forallb p s = true -> Str.forallb q s = true ->
  Str.forallb (fun c => p c && q c) s = true.
Proof.
  induction s as [|c s IH]; simpl; [reflexivity|].
  intros Hp Hq. apply andb_true_iff in Hp as [Hp1 Hp2].
  apply andb_true_iff in Hq as [Hq1 Hq2]. now rewrite Hp1, Hq1, IH.
Qed.

Lemma forallb_filtered (q p : ascii -> bool) (s : string) :
  Str.forallb q s = true -> Str.forallb q (filter p s) = true.
Proof.
  induction s as [|c s IH]; simpl; [reflexivity|].
  intros H. apply andb_true_iff in H as [Hc Hs].
  destruct (p c); simpl; [rewrite Hc|]; now apply IH.
Qed.

Lemma forallb_mapped (q q' : ascii -> bool) (f : ascii -> ascii) (s : string) :
  (forall c, q c = true -> q' (f c) = true) ->
  Str.forallb q s = true -> Str.forallb q' (Str.map f s) = true.
Proof.
  intros Hq. induction s as [|c s IH]; simpl; [reflexivity|].
  intros H. apply andb_true_iff in H as [Hc Hs]. now rewrite (Hq c Hc), IH.
Qed.

Lemma strip_part (p : ascii -> bool) (s : string) : part (strip p s) s.
Proof.
  destruct (strip_split p s) as (l & r & Hs & _). now exists l, r.
Qed.

Lemma lower_char_not_upper (c : ascii) : is_upper (lower_char c) = false.
Proof. destruct c as [[] [] [] [] [] [] [] []]; reflexivity. Qed.

Lemma lower_not_upper (s : string) :
  Str.forallb (fun c => negb (is_upper c)) (lower s) = true.
Proof.
  unfold lower. induction s as [|c s IH]; simpl; [reflexivity|].
  now rewrite lower_char_not_upper, IH.
Qed.

(** The first piece of a split has no separator in it. *)
Lemma split_head_free (c : ascii) (s : string) :
  contains c (List.hd EmptyString (split c s)) = false.
Proof.
  induction s as [|d s IH]; simpl; [reflexivity|].
  destruct (Ascii.eqb_spec d c) as [->|Hdc]; [reflexivity|].
  destruct (split c s) as [|h t]; simpl in *.
  - rewrite contains_cons. destruct (Ascii.eqb_spec c d); [congruence|reflexivity].
  - rewrite contains_cons, IH. destruct (Ascii.eqb_spec c d); [congruence|reflexivity].
Qed.

Lemma string_length_app (a b : string) :
  String.length (a +:+ b) = String.length a + String.length b.
Proof. induction a as [|c a IH]; simpl; congruence. Qed.

(** *** The digest in hexadecimal *)

Lemma hex_digit_alnum (x : Z) : is_alnum (Md5.hex_digit x) = true.
Proof.
  unfold Md5.hex_digit. generalize (Z.to_nat x). intros n.
  do 16 (destruct n as [|n]; [reflexivity|]). now destruct n.
Qed.

Lemma hex_word_alnum (x : Z) :
  Str.forallb is_alnum (Md5.hex_word x) = true /\
  String.length (Md5.hex_word x) = 8.
Proof.
  unfold Md5.hex_word. cbn [Md5.le_bytes List.map String.concat].
  unfold Md5.hex_byte. cbn [String.append Str.forallb String.length].
  rewrite !hex_digit_alnum. split; reflexivity.
Qed.

Lemma hexdigest_alnum (s : string) :
  Str.forallb is_alnum (Md5.hexdigest s) = true /\
  String.length (Md5.hexdigest s) = 32.
Proof.
  unfold Md5.hexdigest.
  destruct (Md5.blocks _ _ _) as [[[a b] c] d].
  rewrite !forallb_app, !string_length_app.
  destruct (hex_word_alnum a) as [-> ->], (hex_word_alnum b) as [-> ->],
    (hex_word_alnum c) as [-> ->], (hex_word_alnum d) as [-> ->].
  split; reflexivity.
Qed.

(** *** [os.path.join] *)

Lemma startswith_slash_app (a b : string) :
  a <> "" -> startswith "/" (a +:+ b) = startswith "/" a.
Proof.
  destruct a as [|c a]; [congruence|]. intros _. simpl.
  now destruct (Ascii.eqb "/" c).
Qed.

Lemma endswith_slash_app (a b : string) :
  b <> "" -> endswith "/" (a +:+ b) = endswith "/" b.
Proof.
  intros Hb. induction a as [|c a IH]; [reflexivity|].
  change (String c a +:+ b) with (String c (a +:+ b)).
  cbn [endswith]. rewrite IH.
  destruct (String.eqb_spec "/" (String c (a +:+ b))) as [Heq|_]; [|reflexivity].
  inversion Heq as [[Hc Hab]]. destruct a; [simpl in Hab; congruence|discriminate].
Qed.

End TextFacts.

(** ** Facts about [os.path.join] *)

Module PathFacts.
Import StrFacts UrlFacts TextFacts.

Lemma join_absolute (a b : string) :
  startswith "/" b = true -> Posixpath.join a b = b.
Proof. unfold Posixpath.join. now intros ->. Qed.

Lemma join_relative (a b : string) :
  startswith "/" b = false ->
  Posixpath.join a b
  = if is_empty a || endswith "/" a then a +:+ b else a +:+ "/" +:+ b.
Proof. unfold Posixpath.join. now intros ->. Qed.

Lemma is_empty_app (a b : string) :
  is_empty (a +:+ b) = is_empty a && is_empty b.
Proof. now destruct a. Qed.

Lemma startswith_prefix (a b : string) : startswith a (a +:+ b) = true.
Proof.
  induction a as [|c a IH]; simpl; [reflexivity|].
  now rewrite Ascii.eqb_refl, IH.
Qed.

(** Joining is associative: a path may be put together from either
    end. *)
Lemma join_assoc (a b c : string) :
  Posixpath.join (Posixpath.join a b) c
  = Posixpath.join a (Posixpath.join b c).
Proof.
  destruct (startswith "/" c) eqn:Hc.
  { now rewrite !(join_absolute _ c Hc). }
  destruct (string_dec b "") as [->|Hb].
  { rewrite (join_relative "" c Hc). simpl.
    rewrite (join_relative a c Hc), (join_relative a "" eq_refl).
    destruct (is_empty a || endswith "/" a) eqn:Ha.
    - rewrite StrFacts.app_nil_r, (join_relative a c Hc). now rewrite Ha.
    - change ("/" +:+ "") with "/". rewrite (join_relative _ c Hc).
      rewrite (endswith_slash_app a "/") by discriminate.
      cbn [endswith String.eqb Ascii.eqb Bool.eqb].
      rewrite orb_true_r. now rewrite StrFacts.app_assoc. }
  assert (Hbe : is_empty b = false) by (now destruct b).
  destruct (startswith "/" b) eqn:Hsb.
  { rewrite (join_absolute a b Hsb). symmetry. apply join_absolute.
    rewrite (join_relative b c Hc).
    destruct (is_empty b || endswith "/" b);
      now rewrite startswith_slash_app. }
  assert (Hy : startswith "/" (Posixpath.join b c) = false).
  { rewrite (join_relative b c Hc).
    destruct (is_empty b || endswith "/" b);
      now rewrite startswith_slash_app. }
  rewrite (join_relative a _ Hy), (join_relative a b Hsb).
  rewrite (join_relative b c Hc), Hbe. cbn [orb].
  destruct (is_empty a || endswith "/" a) eqn:Ha.
  - rewrite (join_relative _ c Hc), is_empty_app, Hbe, andb_false_r. cbn [orb].
    rewrite (endswith_slash_app a b Hb).
    destruct (endswith "/" b); now rewrite StrFacts.app_assoc.
  - rewrite (join_relative _ c Hc), !is_empty_app, Hbe, !andb_false_r. cbn [orb].
    rewrite (endswith_slash_app a ("/" +:+ b)) by discriminate.
    rewrite (endswith_slash_app "/" b Hb).
    destruct (endswith "/" b); now rewrite !StrFacts.app_assoc.
Qed.

End PathFacts.

(** ** What titles, slugs and file names look like *)

(** X5: a title never holds a vertical bar: a title that has one is cut
    before the first. *)
Theorem title_has_no_bar (doc : soup) :
  contains "|" (page_title_of doc) = false.
Proof.
  unfold page_title_of.
  destruct (find "title" doc) as [title_tag|]; [|reflexivity].
  destruct (contains "|" (Soup.text title_tag)) eqn:Hbar; [|exact Hbar].
  eapply UrlFacts.part_contains; [apply TextFacts.strip_part|].
  apply TextFacts.split_head_free.
Qed.

(** X6: the slug of a title of ASCII characters holds only lowercase
    letters, digits, underscores, hyphens and whitespace other than the
    space: no capital, no space, no punctuation. *)
Theorem slug_alphabet (title : string) :
  Str.forallb is_ascii title = true ->
  Str.forallb
    (fun c => is_lower c || is_digit c || Ascii.eqb c "_" || Ascii.eqb c "-"
              || (is_space c && negb (Ascii.eqb c " ")))
    (slug title) = true.
Proof.
  intros Hascii. unfold slug, replace_char.
  apply (TextFacts.forallb_mapped
           (fun c => is_ascii c && (slug_keeps c && negb (is_upper c)))).
  - intros c. destruct c as [[] [] [] [] [] [] [] []];
      vm_compute; intros H; try reflexivity; discriminate H.
  - eapply UrlFacts.part_forallb; [apply TextFacts.strip_part|].
    apply TextFacts.forallb_both.
    + apply TextFacts.forallb_filtered. unfold lower.
      apply (TextFacts.forallb_mapped is_ascii); [|exact Hascii].
      intros c. destruct c as [[] [] [] [] [] [] [] []];
        vm_compute; intros H; try reflexivity; discriminate H.
    + apply TextFacts.forallb_both.
      * apply UrlFacts.forallb_filter.
      * apply TextFacts.forallb_filtered, TextFacts.lower_not_upper.
Qed.

Lemma slug_alphabet_witness :
  Str.forallb
    (fun c => is_lower c || is_digit c || Ascii.eqb c "_" || Ascii.eqb c "-"
              || (is_space c && negb (Ascii.eqb c " ")))
    (slug " Getting  Started: the FAQ_2! ") = true.
Proof. apply (slug_alphabet " Getting  Started: the FAQ_2! "). reflexivity. Defined.

(** X7: with the MD5 digest, the file name of an image is the 32
    hexadecimal digits of the digest of its URL followed by an extension of
    letters, digits and dots: it has no separator and stays in the images
    directory. *)
Theorem image_file_name_is_flat (e : env) (img_url name : string) :
  md5_hexdigest e = Md5.hexdigest ->
  img_filename e img_url = Some name ->
  startswith (Md5.hexdigest img_url) name = true /\
  String.length (Md5.hexdigest img_url) = 32 /\
  Str.forallb (fun c => is_alnum c || Ascii.eqb c ".") name = true.
Proof.
  intros Hmd5 Hname. unfold img_filename in Hname.
  destruct (urlparse img_url) as [parsed|]; [|discriminate].
  cbn [mbind option_bind] in Hname. injection Hname as <-. rewrite Hmd5.
  split; [apply PathFacts.startswith_prefix|].
  split; [apply TextFacts.hexdigest_alnum|].
  rewrite StrFacts.forallb_app. apply andb_true_iff. split.
  - eapply TextFacts.forallb_weaken; [|apply TextFacts.hexdigest_alnum].
    now intros c ->.
  - apply UrlFacts.forallb_filter.
Qed.

Lemma image_file_name_is_flat_witness :
  startswith (Md5.hexdigest "https://site/a.png")
    "053536831fcd2a6118df76019c875d58.png" = true /\
  String.length (Md5.hexdigest "https://site/a.png") = 32 /\
  Str.forallb (fun c => is_alnum c || Ascii.eqb c ".")
    "053536831fcd2a6118df76019c875d58.png" = true.
Proof.
  apply (image_file_name_is_flat (Sites.always []) "https://site/a.png").
  - reflexivity.
  - vm_compute. reflexivity.
Defined.

(** X8: the reference written into the page, read from the output
    directory, is the path the image was downloaded to. *)
Theorem local_reference_names_the_downloaded_file
    (cfg : config) (e : env) (url src rel : string) :
  img_rel_path cfg e url src = Some rel ->
  exists img_url name,
    urljoin url src = Some img_url /\
    img_filename e img_url = Some name /\
    rel = Posixpath.join (IMAGES_DIR cfg) name /\
    Posixpath.join (OUTPUT_DIR cfg) rel
    = Posixpath.join (images_fs_path cfg) name.
Proof.
  unfold img_rel_path. intros H.
  destruct (urljoin url src) as [img_url|]; [|discriminate].
  cbn [mbind option_bind] in H.
  destruct (img_filename e img_url) as [name|] eqn:Hname; [|discriminate].
  cbn [mbind option_bind] in H. injection H as <-.
  exists img_url, name.
  split; [reflexivity|]. split; [exact Hname|]. split; [reflexivity|].
  unfold images_fs_path. symmetry. apply PathFacts.join_assoc.
Qed.

Lemma local_reference_names_the_downloaded_file_witness :
  exists img_url name,
    urljoin "https://site/docs/" "a.png" = Some img_url /\
    img_filename (Sites.always []) img_url = Some name /\
    "images/e830f16f8facf51f608deba8b7ce2234.png"
    = Posixpath.join (IMAGES_DIR Sites.default_config) name /\
    Posixpath.join (OUTPUT_DIR Sites.default_config)
      "images/e830f16f8facf51f608deba8b7ce2234.png"
    = Posixpath.join (images_fs_path Sites.default_config) name.
Proof.
  apply (local_reference_names_the_downloaded_file Sites.default_config
           (Sites.always []) "https://site/docs/" "a.png").
  vm_compute. reflexivity.
Defined.

(** ** More facts about the processing of one page *)

Module ConvertFacts.
Import PageFacts.

Lemma trace_emit (ev : event) (w : world) : trace (emit ev w) = trace w ++ [ev].
Proof. reflexivity. Qed.

(** A relation between worlds that is reflexive and transitive and that
    the three messages about the page, the creation of the images
    directory and the body of the image loop respect holds across
    [get_markdown_content]. *)
Section Keeps.
Variables (cfg : config) (e : env) (url : string) (R : world -> world -> Prop).
Hypothesis R_refl : forall w, R w w.
Hypothesis R_trans : forall w1 w2 w3, R w1 w2 -> R w2 w3 -> R w1 w3.
Hypothesis R_log :
  forall ev w,
    ev = LogSelectorNotFound url \/ ev = LogNoContentElement url \/
    ev = LogProcessingError url ->
    R w (emit ev w).
Hypothesis R_dir : forall w, R w (ensure_dir (images_fs_path cfg) w).
Hypothesis R_img : forall t a w, R w (localize_img cfg e url t a w).2.

Lemma get_markdown_content_keeps (doc : soup) (w : world) :
  R w (get_markdown_content cfg e url doc w).2.
Proof.
  assert (Hlog : forall ev w0,
             ev = LogSelectorNotFound url \/ ev = LogNoContentElement url \/
             ev = LogProcessingError url ->
             R w w0 -> R w (emit ev w0)).
  { intros ev w0 Hev H. eapply R_trans; [exact H|now apply R_log]. }
  unfold get_markdown_content.
  assert (Hmain : forall el w0, R w w0 ->
    R w
      (match for_each_below (resolve_href url) el tt with
       | (None, _) => (None, emit (LogProcessingError url) w0)
       | (Some content_element, _) =>
           let w1 := ensure_dir (images_fs_path cfg) w0 in
           match for_each_below (localize_img cfg e url) content_element w1 with
           | (None, w2) => (None, emit (LogProcessingError url) w2)
           | (Some content_element, w2) =>
               let page_title := page_title_of doc in
               let cleaned_html :=
                 delete_all mojibake
                   (delete_all zero_width_space (element_str e content_element)) in
               let markdown_content := html2text_handle e cleaned_html in
               (Some (page_block page_title url markdown_content, page_title), w2)
           end
       end).2).
  { intros el w0 H0.
    destruct (for_each_below (resolve_href url) el tt) as [[el1|] []]; simpl.
    - assert (H1 : R w (ensure_dir (images_fs_path cfg) w0)).
      { eapply R_trans; [exact H0|apply R_dir]. }
      pose proof (SoupFacts.for_each_below_respects (localize_img cfg e url)
                    R R_refl R_trans R_img el1
                    (ensure_dir (images_fs_path cfg) w0)) as H2.
      destruct (for_each_below (localize_img cfg e url) el1
                  (ensure_dir (images_fs_path cfg) w0)) as [[el2|] w2]; simpl in *.
      + eapply R_trans; eassumption.
      + apply Hlog; [tauto|]. eapply R_trans; eassumption.
    - apply Hlog; [tauto|exact H0]. }
  destruct (select_one e (CONTENT_SELECTOR cfg) doc) as [|[el|]].
  - simpl. apply Hlog; [tauto|apply R_refl].
  - apply Hmain, R_refl.
  - destruct (select_one e "body" doc) as [|[el|]].
    + simpl. apply Hlog; [tauto|]. apply Hlog; [tauto|]. apply R_refl.
    + apply Hmain, Hlog; [tauto|apply R_refl].
    + simpl. apply Hlog; [tauto|]. apply Hlog; [tauto|].
      apply R_refl.
Qed.
End Keeps.

(** How a page that is returned was made. *)
Lemma get_markdown_content_some (cfg : config) (e : env) (url : string)
    (doc : soup) (w w' : world) (r : string * string) :
  get_markdown_content cfg e url doc w = (Some r, w') ->
  exists el el1 el2 w0,
    content_element_of cfg e doc = Some el /\
    for_each_below (resolve_href url) el tt = (Some el1, tt) /\
    for_each_below (localize_img cfg e url) el1
      (ensure_dir (images_fs_path cfg) w0) = (Some el2, w').
Proof.
  unfold get_markdown_content, content_element_of.
  assert (Hmain : forall el w0,
    (match for_each_below (resolve_href url) el tt with
     | (None, _) => (None, emit (LogProcessingError url) w0)
     | (Some content_element, _) =>
         let w1 := ensure_dir (images_fs_path cfg) w0 in
         match for_each_below (localize_img cfg e url) content_element w1 with
         | (None, w2) => (None, emit (LogProcessingError url) w2)
         | (Some content_element, w2) =>
             let page_title := page_title_of doc in
             let cleaned_html :=
               delete_all mojibake
                 (delete_all zero_width_space (element_str e content_element)) in
             let markdown_content := html2text_handle e cleaned_html in
             (Some (page_block page_title url markdown_content, page_title), w2)
         end
     end) = (Some r, w') ->
    exists el1 el2,
      for_each_below (resolve_href url) el tt = (Some el1, tt) /\
      for_each_below (localize_img cfg e url) el1
        (ensure_dir (images_fs_path cfg) w0) = (Some el2, w')).
  { intros el w0.
    destruct (for_each_below (resolve_href url) el tt) as [[el1|] []];
      [|discriminate].
    cbv zeta.
    destruct (for_each_below (localize_img cfg e url) el1
                (ensure_dir (images_fs_path cfg) w0)) as [[el2|] w2] eqn:H2;
      [|discriminate].
    intros H. injection H as _ <-. exists el1, el2. split; [reflexivity|exact H2]. }
  destruct (select_one e (CONTENT_SELECTOR cfg) doc) as [|[el|]].
  - discriminate.
  - intros H. destruct (Hmain _ _ H) as (el1 & el2 & H1 & H2).
    exists el, el1, el2, w. auto.
  - destruct (select_one e "body" doc) as [|[el|]].
    + discriminate.
    + intros H. destruct (Hmain _ _ H) as (el1 & el2 & H1 & H2).
      exists el, el1, el2, (emit (LogSelectorNotFound url) w). auto.
    + discriminate.
Qed.

(** How a page with a content element is lost: the message about the
    error is the last thing that happened. *)
Lemma get_markdown_content_none (cfg : config) (e : env) (url : string)
    (doc : soup) (w : world) (el : node) :
  content_element_of cfg e doc = Some el ->
  (get_markdown_content cfg e url doc w).1 = None ->
  last (trace (get_markdown_content cfg e url doc w).2)
  = Some (LogProcessingError url).
Proof.
  unfold get_markdown_content, content_element_of.
  assert (Hmain : forall el w0,
    let out :=
      match for_each_below (resolve_href url) el tt with
      | (None, _) => (None, emit (LogProcessingError url) w0)
      | (Some content_element, _) =>
          let w1 := ensure_dir (images_fs_path cfg) w0 in
          match for_each_below (localize_img cfg e url) content_element w1 with
          | (None, w2) => (None, emit (LogProcessingError url) w2)
          | (Some content_element, w2) =>
              let page_title := page_title_of doc in
              let cleaned_html :=
                delete_all mojibake
                  (delete_all zero_width_space (element_str e content_element)) in
              let markdown_content := html2text_handle e cleaned_html in
              (Some (page_block page_title url markdown_content, page_title), w2)
          end
      end in
    out.1 = None -> last (trace out.2) = Some (LogProcessingError url)).
  { intros el0 w0.
    destruct (for_each_below (resolve_href url) el0 tt) as [[el1|] []]; cbv zeta.
    - destruct (for_each_below (localize_img cfg e url) el1
                  (ensure_dir (images_fs_path cfg) w0)) as [[el2|] w2];
        cbn [fst snd]; [discriminate|].
      intros _. rewrite trace_emit. apply last_snoc.
    - cbn [fst snd]. intros _. rewrite trace_emit. apply last_snoc. }
  destruct (select_one e (CONTENT_SELECTOR cfg) doc) as [|[el0|]].
  - discriminate.
  - intros _. apply Hmain.
  - destruct (select_one e "body" doc) as [|[el0|]]; try discriminate.
    intros _. apply Hmain.
Qed.

Lemma ensure_dir_exists (p : string) (w : world) :
  exists_ p (ensure_dir p w) = true.
Proof.
  unfold ensure_dir. destruct (exists_ p w) eqn:Hex; [exact Hex|].
  unfold exists_, makedirs. simpl. apply bool_decide_eq_true.
  rewrite lookup_insert_eq. eauto.
Qed.

Lemma exists_kept (cfg : config) (e : env) (p : string) (w w' : world) :
  cache_respected cfg e w w' -> exists_ p w = true -> exists_ p w' = true.
Proof.
  intros [Hfs _] H. unfold exists_ in *.
  apply bool_decide_eq_true in H. apply bool_decide_eq_true.
  destruct H as [x Hx]. exists x. eapply lookup_weaken; eassumption.
Qed.

End ConvertFacts.

(** ** What converting a page keeps and leaves *)

(** X10: when [get_markdown_content] returns a page, the images
    directory exists, whether the page has images or not. *)
Theorem images_directory_exists_after_a_page
    (cfg : config) (e : env) (url : string) (doc : soup) (w w' : world)
    (r : string * string) :
  get_markdown_content cfg e url doc w = (Some r, w') ->
  exists_ (images_fs_path cfg) w' = true.
Proof.
  intros H.
  destruct (ConvertFacts.get_markdown_content_some _ _ _ _ _ _ _ H)
    as (el & el1 & el2 & w0 & _ & _ & H2).
  pose proof (SoupFacts.for_each_below_respects (localize_img cfg e url)
                (cache_respected cfg e)
                (PageFacts.cache_respected_refl cfg e)
                (PageFacts.cache_respected_trans cfg e)
                (PageFacts.localize_img_respects cfg e url) el1
                (ensure_dir (images_fs_path cfg) w0)) as Hr.
  rewrite H2 in Hr. cbn [snd] in Hr.
  eapply ConvertFacts.exists_kept; [exact Hr|].
  apply ConvertFacts.ensure_dir_exists.
Qed.

Lemma images_directory_exists_after_a_page_witness :
  exists_ (images_fs_path Sites.default_config)
    (mkWorld (<["output/images" := Directory]> ∅) []) = true.
Proof.
  apply (images_directory_exists_after_a_page Sites.default_config
           (Sites.always []) "https://site/" Sites.guide_page (mkWorld ∅ [])
           (mkWorld (<["output/images" := Directory]> ∅) [])
           (page_block "Intro" "https://site/" "Next", "Intro")).
  vm_compute. reflexivity.
Defined.

(** ** Facts about references that [urljoin] rejects *)

Module RejectFacts.

Lemma mismatch_rejected (n : string) :
  bracket_mismatch n = true -> netloc_rejected n = true.
Proof.
  unfold bracket_mismatch, netloc_rejected.
  destruct (contains "[" n), (contains "]" n); simpl;
    try discriminate; reflexivity.
Qed.

(** The authority does not depend on the default scheme. *)
Lemma head_split_authority (url sch : string) :
  (head_split url sch).1.2 = authority url.
Proof.
  unfold authority, head_split.
  destruct (partition ":" _) as [[pre post]|];
    [destruct (negb (is_empty pre) && _ && _)|];
    (destruct (startswith "//" _); [destruct (_splitnetloc _)|]);
    reflexivity.
Qed.

Lemma urlsplit_mismatch (url sch : string) :
  bracket_mismatch (authority url) = true -> urlsplit url sch = None.
Proof.
  intros H. rewrite UrlFacts.urlsplit_halves.
  pose proof (head_split_authority url sch) as Ha.
  destruct (head_split url sch) as [[s n] rest]. cbn [fst snd] in Ha. subst n.
  now rewrite (mismatch_rejected _ H).
Qed.

Lemma urljoin_mismatch (base url : string) :
  base <> "" -> bracket_mismatch (authority url) = true ->
  urljoin base url = None.
Proof.
  intros Hbase H. unfold urljoin.
  destruct base as [|b base]; [congruence|]. cbn [is_empty].
  destruct url as [|c url]; [discriminate H|]. cbn [is_empty].
  destruct (urlparse_with (String b base) "") as [pb|]; [|reflexivity].
  unfold urlparse_with. now rewrite (urlsplit_mismatch _ _ H).
Qed.

End RejectFacts.

(** X11: a link or an image reference of the content element whose
    authority has an opening bracket without a closing one, or the
    reverse, loses the whole page: [urljoin] raises, nothing is
    returned, and the last message is the one about the error. *)
Theorem unresolvable_reference_loses_the_page
    (cfg : config) (e : env) (url : string) (doc : soup) (w : world)
    (el : node) (ref : string) :
  content_element_of cfg e doc = Some el ->
  url <> "" ->
  ref ∈ find_all_attr "a" "href" (contents el) \/
  ref ∈ find_all_attr "img" "src" (contents el) ->
  bracket_mismatch (authority ref) = true ->
  (get_markdown_content cfg e url doc w).1 = None /\
  last (trace (get_markdown_content cfg e url doc w).2)
  = Some (LogProcessingError url).
Proof.
  intros Hel Hurl Hin Hbad.
  pose proof (RejectFacts.urljoin_mismatch url ref Hurl Hbad) as Hjoin.
  assert (Hnone : (get_markdown_content cfg e url doc w).1 = None).
  { rewrite RenderFacts.get_markdown_content_value. unfold rendered.
    rewrite Hel. cbn [mbind option_bind].
    destruct (rewritten cfg e url el) as [el'|] eqn:Hrw; [|reflexivity].
    exfalso.
    destruct (RenderFacts.rewritten_references _ _ _ _ _ Hrw) as [Hhref Hsrc].
    destruct Hin as [Hin|Hin].
    - apply list_elem_of_lookup in Hin as [i Hi].
      destruct (Forall2_lookup_l _ _ _ _ _ Hhref Hi) as (y & _ & Hy). congruence.
    - apply list_elem_of_lookup in Hin as [i Hi].
      destruct (Forall2_lookup_l _ _ _ _ _ Hsrc Hi) as (y & _ & Hy).
      unfold img_rel_path in Hy. rewrite Hjoin in Hy. discriminate. }
  split; [exact Hnone|].
  eapply ConvertFacts.get_markdown_content_none; eassumption.
Qed.

Lemma unresolvable_reference_loses_the_page_witness :
  let doc := Sites.html_page "Logo"
               [Tag "main" ∅ [Tag "img" {["src" := "http://["]} []]] in
  (get_markdown_content Sites.default_config (Sites.always [])
     "https://site/" doc (mkWorld ∅ [])).1 = None /\
  last (trace (get_markdown_content Sites.default_config (Sites.always [])
                 "https://site/" doc (mkWorld ∅ [])).2)
  = Some (LogProcessingError "https://site/").
Proof.
  intros doc.
  apply (unresolvable_reference_loses_the_page Sites.default_config
           (Sites.always []) "https://site/" doc (mkWorld ∅ [])
           (Tag "main" ∅ [Tag "img" {["src" := "http://["]} []]) "http://[").
  - reflexivity.
  - discriminate.
  - right. apply list_elem_of_In. vm_compute. tauto.
  - reflexivity.
Defined.

(** ** Facts about what a run leaves on disk *)

Module DiskFacts.
Import PageFacts ConvertFacts.

Lemma image_fetches_app (t1 t2 : list event) :
  image_fetches (t1 ++ t2) = image_fetches t1 ++ image_fetches t2.
Proof. apply omap_app. Qed.


(** *** Downloads that were answered are kept *)

Section Kept.
Variables (cfg : config) (e : env).
Hypothesis always_ok :
  forall u, exists r, http_get e u = Returns r /\ status_code r = 200%Z.







End Kept.

End DiskFacts.

(** ** What a run does to the disk and to the server *)



(** X14: a link of the root page whose authority has an opening bracket
    without a closing one, or the reverse, ends the run with an uncaught
    error: [urljoin] raises out of the loop after the one request, and
    the world [scrape_docs] leaves is the one [get_markdown_content]
    left for the root page: nothing is done after it, and the step that
    writes the output file is not reached. *)
Theorem unresolvable_link_aborts_the_run
    (cfg : config) (e : env) (files : gmap string inode) (fuel : nat)
    (c : string) (r : response) (href : string) :
  BASE_URL cfg <> "" ->
  base_url_only (BASE_URL cfg) = Some c ->
  http_get e (BASE_URL cfg) = Returns r ->
  raises_for_status r = false ->
  href ∈ find_all_attr "a" "href" (text r) ->
  bracket_mismatch (authority href) = true ->
  exists s content_data,
    crawl cfg e (S fuel) (initial cfg files) = (Aborted, s) /\
    scrape_docs cfg e (S fuel) files = (Aborted, s) /\
    get_markdown_content cfg e c (text r)
      (fetching (BASE_URL cfg) c (outside (initial cfg files)))
    = (content_data, outside s) /\
    page_fetches (trace (outside s)) = [BASE_URL cfg].
Proof.
  intros Hroot Hc Hget Hst Hin Hbad.
  pose proof (RejectFacts.urljoin_mismatch (BASE_URL cfg) href Hroot Hbad)
    as Hjoin.
  assert (Hrejected : forall visited hrefs queue,
             href ∈ hrefs -> enqueue_links cfg visited queue hrefs = None).
  { intros visited hrefs. induction hrefs as [|h hrefs IH]; intros queue Hh.
    - now apply elem_of_nil in Hh.
    - simpl. destruct (enqueue_link cfg visited queue h) as [q1|] eqn:H1;
        [|reflexivity].
      cbn [mbind option_bind]. apply elem_of_cons in Hh as [->|Hh]; [|now apply IH].
      unfold enqueue_link in H1. rewrite Hjoin in H1. discriminate. }
  pose proof (TurnFacts.iteration_turn cfg e (initial cfg files)) as T.
  assert (Huncaught : exists s content_data,
             iteration cfg e (initial cfg files) = Uncaught s /\
             get_markdown_content cfg e c (text r)
               (fetching (BASE_URL cfg) c (outside (initial cfg files)))
             = (content_data, outside s) /\
             page_fetches (trace (outside s)) = [BASE_URL cfg]).
  { inversion T as [Hq|url rest Hq Hb|url rest c' Hq Hb Hv
                   |url rest c' Hq Hb Hv Hf
                   |url rest c' r' cd w' Hq Hb Hv Hg Hs Hgmc Henq
                   |url rest c' r' cd w' queue Hq Hb Hv Hg Hs Hgmc Henq];
      cbn [initial urls_to_visit visited_urls] in *;
      try discriminate; injection Hq as <- <-.
    - congruence.
    - exfalso. destruct Hf as [Hf|(r' & Hf & Hs)]; [congruence|].
      rewrite Hget in Hf. injection Hf as <-. congruence.
    - rewrite Hc in Hb. injection Hb as <-.
      rewrite Hget in Hg. injection Hg as <-.
      eexists _, cd. split; [reflexivity|]. split; [exact Hgmc|].
      cbn [outside].
      rewrite (TurnFacts.converted_page_fetches _ _ _ _ _ _ _ _ Hgmc).
      now rewrite CrawlFacts.initial_trace.
    - exfalso. rewrite Hget in Hg. injection Hg as <-.
      rewrite (Hrejected _ _ _ Hin) in Henq. discriminate. }
  destruct Huncaught as (s & cd & Hit & Hworld & Hfetch). exists s, cd.
  assert (Hcrawl : crawl cfg e (S fuel) (initial cfg files) = (Aborted, s)).
  { cbn [crawl]. now rewrite Hit. }
  split; [exact Hcrawl|]. split; [|split; [exact Hworld|exact Hfetch]].
  unfold scrape_docs. now rewrite Hcrawl.
Qed.

Lemma unresolvable_link_aborts_the_run_witness :
  exists s content_data,
    crawl Sites.default_config (Sites.always Sites.bad_link_page) 1
      (initial Sites.default_config ∅) = (Aborted, s) /\
    scrape_docs Sites.default_config (Sites.always Sites.bad_link_page) 1 ∅
    = (Aborted, s) /\
    get_markdown_content Sites.default_config
      (Sites.always Sites.bad_link_page) "https://docs.sl.antimatter.io/"
      (text (mkResponse 200 Sites.bad_link_page [] false))
      (fetching (BASE_URL Sites.default_config)
         "https://docs.sl.antimatter.io/"
         (outside (initial Sites.default_config ∅)))
    = (content_data, outside s) /\
    page_fetches (trace (outside s)) = [BASE_URL Sites.default_config].
Proof.
  apply (unresolvable_link_aborts_the_run Sites.default_config
           (Sites.always Sites.bad_link_page)
           ∅ 0 "https://docs.sl.antimatter.io/"
           (mkResponse 200 Sites.bad_link_page [] false)
           "http://[").
  - discriminate.
  - vm_compute. reflexivity.
  - reflexivity.
  - reflexivity.
  - apply list_elem_of_In. vm_compute. tauto.
  - reflexivity.
Defined.

(** X15: when the root cannot be fetched, the loop ends by itself after
    that one request with nothing collected, and the text [scrape_docs]
    then goes on to write holds the heading of the table of contents and
    the rule and nothing else. *)
Theorem unreachable_root_gives_only_the_heading
    (cfg : config) (e : env) (files : gmap string inode) (fuel : nat)
    (c : string) :
  base_url_only (BASE_URL cfg) = Some c ->
  http_get e (BASE_URL cfg) = Raises \/
  (exists r, http_get e (BASE_URL cfg) = Returns r /\
             raises_for_status r = true) ->
  exists s,
    crawl cfg e (S (S fuel)) (initial cfg files) = (Completed, s) /\
    page_fetches (trace (outside s)) = [BASE_URL cfg] /\
    all_markdown_content s = [] /\
    toc_entries s = [] /\
    output_text s
    = "# Table of Contents" +:+ String "010" (String "010" (String "010" "---"))
        +:+ String "010" (String "010" EmptyString).
Proof.
  intros Hc Hfail.
  pose proof (TurnFacts.iteration_turn cfg e (initial cfg files)) as T.
  assert (Hfirst :
            iteration cfg e (initial cfg files)
            = Continue (mkState ({[c]} ∪ ∅) [] [] []
                          (emit (LogFetchError c)
                             (fetching (BASE_URL cfg) c
                                (outside (initial cfg files)))))).
  { inversion T as [Hq|url rest Hq Hb|url rest c' Hq Hb Hv
                   |url rest c' Hq Hb Hv Hf
                   |url rest c' r' cd w' Hq Hb Hv Hg Hs Hgmc Henq
                   |url rest c' r' cd w' queue Hq Hb Hv Hg Hs Hgmc Henq];
      cbn [initial urls_to_visit visited_urls all_markdown_content toc_entries
           outside] in *;
      try discriminate; injection Hq as <- <-.
    - congruence.
    - rewrite Hc in Hb. injection Hb as <-. reflexivity.
    - exfalso. destruct Hfail as [Hf|(r0 & Hf & Hs0)]; congruence.
    - exfalso. destruct Hfail as [Hf|(r0 & Hf & Hs0)]; congruence. }
  eexists. split; [|split; [|split; [|split]]].
  - cbn [crawl]. rewrite Hfirst. reflexivity.
  - cbn [outside].
    rewrite TurnFacts.emit_log_page_fetches by discriminate.
    rewrite TurnFacts.fetching_page_fetches.
    now rewrite CrawlFacts.initial_trace.
  - reflexivity.
  - reflexivity.
  - reflexivity.
Qed.

Lemma unreachable_root_gives_only_the_heading_witness :
  exists s,
    crawl Sites.default_config (Sites.serving (fun _ => Raises)) 2
      (initial Sites.default_config ∅) = (Completed, s) /\
    page_fetches (trace (outside s)) = [BASE_URL Sites.default_config] /\
    all_markdown_content s = [] /\
    toc_entries s = [] /\
    output_text s
    = "# Table of Contents" +:+ String "010" (String "010" (String "010" "---"))
        +:+ String "010" (String "010" EmptyString).
Proof.
  apply (unreachable_root_gives_only_the_heading Sites.default_config
           (Sites.serving (fun _ => Raises)) ∅ 0
           "https://docs.sl.antimatter.io/").
  - vm_compute. reflexivity.
  - left. reflexivity.
Defined.

(** X16: the run directory.  An empty [--run-name] counts as none; a
    subdirectory name that is an absolute path is the run directory
    itself, whatever [--output-dir] is; any other lies under
    [--output-dir]. *)
Theorem run_directory (timestamp : string) (a : Main.args) :
  let sub := Main.subdir_name timestamp a in
  let dir := OUTPUT_DIR (Main.configure timestamp a) in
  (Main.run_name a = None \/ Main.run_name a = Some ""
   -> sub = timestamp) /\
  (startswith "/" sub = true -> dir = sub) /\
  (startswith "/" sub = false ->
   startswith (Main.output_dir a) dir = true /\ endswith sub dir = true).
Proof.
  intros sub dir. split; [|split].
  - unfold sub, Main.subdir_name. now intros [->| ->].
  - intros Habs. unfold dir. cbn [Main.configure OUTPUT_DIR].
    now apply PathFacts.join_absolute.
  - intros Hrel. unfold dir. cbn [Main.configure OUTPUT_DIR].
    fold sub. rewrite (PathFacts.join_relative _ _ Hrel).
    assert (Hsuffix : forall x y, endswith y (x +:+ y) = true).
    { intros x y. induction x as [|ch x IH]; simpl.
      - destruct y as [|ch y]; [reflexivity|].
        cbn [endswith]. now rewrite String.eqb_refl.
      - now rewrite IH, orb_true_r. }
    destruct (is_empty (Main.output_dir a) || endswith "/" (Main.output_dir a)).
    + split; [apply PathFacts.startswith_prefix|apply Hsuffix].
    + split; [apply PathFacts.startswith_prefix|].
      rewrite <- StrFacts.app_assoc. apply Hsuffix.
Qed.

(** ** Facts about pauses and repeated downloads *)

Module PaceFacts.
Import PageFacts ConvertFacts DiskFacts.

Lemma pauses_app (t1 t2 : list event) :
  pauses (t1 ++ t2) = pauses t1 + pauses t2.
Proof. unfold pauses. now rewrite List.filter_app, length_app. Qed.

Lemma fetch_errors_app (t1 t2 : list event) :
  fetch_errors (t1 ++ t2) = fetch_errors t1 + fetch_errors t2.
Proof. unfold fetch_errors. now rewrite List.filter_app, length_app. Qed.

(** The pauses and the failed fetches of [w'] are those of [w]. *)
Lemma same_pace_emit (ev : event) (w : world) :
  ev <> Sleep -> (forall u, ev <> LogFetchError u) ->
  pauses (trace (emit ev w)) = pauses (trace w) /\
  fetch_errors (trace (emit ev w)) = fetch_errors (trace w).
Proof.
  intros Hs He. rewrite trace_emit, pauses_app, fetch_errors_app.
  destruct ev as [x|x|x|x|x|x|u|x b|]; try (unfold pauses, fetch_errors; simpl; lia).
  - now destruct (He u).
  - now destruct Hs.
Qed.

Lemma same_pace_download (e : env) (img_url p : string) (w : world) :
  pauses (trace (download_image e img_url p w)) = pauses (trace w) /\
  fetch_errors (trace (download_image e img_url p w)) = fetch_errors (trace w).
Proof.
  unfold download_image.
  assert (H0 : forall evs,
             pauses evs = 0 -> fetch_errors evs = 0 ->
             pauses (((trace w ++ [LogDownloadingImage img_url])
                      ++ [Get img_url true]) ++ evs) = pauses (trace w) /\
             fetch_errors (((trace w ++ [LogDownloadingImage img_url])
                            ++ [Get img_url true]) ++ evs)
             = fetch_errors (trace w)).
  { intros evs H1 H2. rewrite !pauses_app, !fetch_errors_app, H1, H2.
    unfold pauses, fetch_errors in *. simpl. lia. }
  destruct (http_get e img_url) as [|r].
  - exact (H0 [LogImageError img_url] eq_refl eq_refl).
  - destruct (status_code r =? 200)%Z.
    + destruct (stream_breaks r).
      * exact (H0 [LogImageError img_url] eq_refl eq_refl).
      * destruct (H0 [] eq_refl eq_refl) as [H1 H2].
        rewrite app_nil_r in H1, H2. split; assumption.
    + destruct (H0 [] eq_refl eq_refl) as [H1 H2].
      rewrite app_nil_r in H1, H2. split; assumption.
Qed.

Lemma same_pace_get_markdown_content (cfg : config) (e : env) (url : string)
    (doc : soup) (w : world) :
  pauses (trace (get_markdown_content cfg e url doc w).2) = pauses (trace w) /\
  fetch_errors (trace (get_markdown_content cfg e url doc w).2)
  = fetch_errors (trace w).
Proof.
  apply (get_markdown_content_keeps cfg e url
           (fun w w' => pauses (trace w') = pauses (trace w) /\
                        fetch_errors (trace w') = fetch_errors (trace w))).
  - now split.
  - intros w1 w2 w3 [H1 H2] [H3 H4]. split; congruence.
  - intros ev w0 Hev. apply same_pace_emit.
    + destruct Hev as [->|[->| ->]]; discriminate.
    + intros u. destruct Hev as [->|[->| ->]]; discriminate.
  - intros w0. unfold ensure_dir. now destruct (exists_ _ w0).
  - intros t a w0. unfold localize_img.
    destruct (String.eqb t "img"); [|now split].
    destruct (a !! "src") as [src|]; [|now split].
    destruct (urljoin url src) as [img_url|]; [|now split].
    destruct (img_filename e img_url) as [name|]; [|now split].
    cbn [snd]. destruct (exists_ _ w0); cbn [negb]; [now split|].
    apply same_pace_download.
Qed.

(** A download that fails leaves the disk as it was. *)
Lemma failed_download (e : env) (img_url p : string) (w : world) :
  http_get e img_url = Raises \/
  (exists r, http_get e img_url = Returns r /\ status_code r <> 200%Z) ->
  fs (download_image e img_url p w) = fs w /\
  image_fetches (trace (download_image e img_url p w))
  = image_fetches (trace w) ++ [img_url].
Proof.
  intros Hfail. unfold download_image.
  destruct Hfail as [->|(r & -> & Hr)].
  - split; [reflexivity|]. cbn [trace emit].
    rewrite !image_fetches_app. simpl. now rewrite !app_nil_r.
  - apply Z.eqb_neq in Hr. rewrite Hr. split; [reflexivity|].
    cbn [trace emit]. rewrite !image_fetches_app. simpl. now rewrite !app_nil_r.
Qed.

End PaceFacts.

(** ** Pauses and retries *)

(** X17: an image whose download failed (the request raised, or the
    status was not 200) has no file, so the next reference to it
    requests it again. *)
Theorem failed_download_is_tried_again
    (cfg : config) (e : env) (url : string) (a : attrs)
    (src img_url name : string) (w : world) :
  a !! "src" = Some src ->
  urljoin url src = Some img_url ->
  img_filename e img_url = Some name ->
  exists_ (Posixpath.join (images_fs_path cfg) name) w = false ->
  http_get e img_url = Raises \/
  (exists r, http_get e img_url = Returns r /\ status_code r <> 200%Z) ->
  let w1 := (localize_img cfg e url "img" a w).2 in
  let w2 := (localize_img cfg e url "img" a w1).2 in
  image_fetches (trace w2) = image_fetches (trace w) ++ [img_url; img_url].
Proof.
  intros Hsrc Hjoin Hname Hex Hfail.
  assert (Hstep : forall w0,
             exists_ (Posixpath.join (images_fs_path cfg) name) w0 = false ->
             let w' := (localize_img cfg e url "img" a w0).2 in
             exists_ (Posixpath.join (images_fs_path cfg) name) w' = false /\
             image_fetches (trace w') = image_fetches (trace w0) ++ [img_url]).
  { intros w0 Hex0. unfold localize_img. cbn [String.eqb Ascii.eqb Bool.eqb].
    rewrite Hsrc, Hjoin, Hname. cbn [snd]. rewrite Hex0. cbn [negb].
    destruct (PaceFacts.failed_download e img_url
                (Posixpath.join (images_fs_path cfg) name) w0 Hfail)
      as [Hfs Htrace].
    split; [|exact Htrace]. unfold exists_ in *. now rewrite Hfs. }
  intros w1 w2.
  destruct (Hstep w Hex) as [Hex1 Ht1].
  destruct (Hstep _ Hex1) as [_ Ht2].
  unfold w2, w1. rewrite Ht2, Ht1. now rewrite <- app_assoc.
Qed.

Lemma failed_download_is_tried_again_witness :
  let cfg := Sites.default_config in
  let e := Sites.serving (fun _ => Raises) in
  let a : attrs := {["src" := "https://site/a.png"]} in
  let w := mkWorld ∅ [] in
  let w1 := (localize_img cfg e "https://site/" "img" a w).2 in
  let w2 := (localize_img cfg e "https://site/" "img" a w1).2 in
  image_fetches (trace w2)
  = image_fetches (trace w) ++ ["https://site/a.png"; "https://site/a.png"].
Proof.
  intros cfg e a w.
  apply (failed_download_is_tried_again cfg e "https://site/" a
           "https://site/a.png" "https://site/a.png"
           "053536831fcd2a6118df76019c875d58.png" w).
  - reflexivity.
  - reflexivity.
  - reflexivity.
  - vm_compute. reflexivity.
  - left. reflexivity.
Defined.

(** X18: every page request is followed by a pause or by the message
    about a failed fetch, one for one: the script pauses after a page
    it got, and goes on without a pause after a page it did not get.
    Only the request of a run that aborts is followed by neither. *)
Theorem every_page_request_ends_in_a_pause_or_an_error
    (cfg : config) (e : env) (fuel : nat) (files : gmap string inode) :
  let out := crawl cfg e fuel (initial cfg files) in
  let t := trace (outside out.2) in
  pauses t + fetch_errors t <= List.length (page_fetches t) /\
  List.length (page_fetches t) <= pauses t + fetch_errors t + 1 /\
  (out.1 <> Aborted ->
   pauses t + fetch_errors t = List.length (page_fetches t)).
Proof.
  set (paced := fun s : state =>
         pauses (trace (outside s)) + fetch_errors (trace (outside s))
         = List.length (page_fetches (trace (outside s)))).
  set (open := fun s : state =>
         pauses (trace (outside s)) + fetch_errors (trace (outside s)) + 1
         = List.length (page_fetches (trace (outside s)))).
  assert (Hfetching : forall s url c,
             paced s ->
             pauses (trace (fetching url c (outside s)))
             + fetch_errors (trace (fetching url c (outside s))) + 1
             = List.length (page_fetches (trace (fetching url c (outside s))))).
  { intros s url c Hs. unfold paced in Hs. unfold fetching.
    rewrite !ConvertFacts.trace_emit, !PaceFacts.pauses_app,
      !PaceFacts.fetch_errors_app, !PageFacts.page_fetches_app, !length_app.
    unfold pauses, fetch_errors in *. simpl. lia. }
  assert (Hconv : forall s url c doc cd w,
             paced s ->
             get_markdown_content cfg e c doc (fetching url c (outside s))
             = (cd, w) ->
             pauses (trace w) + fetch_errors (trace w) + 1
             = List.length (page_fetches (trace w))).
  { intros s url c doc cd w Hs Hgmc.
    pose proof (PaceFacts.same_pace_get_markdown_content cfg e c doc
                  (fetching url c (outside s))) as [Hp He].
    pose proof (PageFacts.get_markdown_content_same_page_fetches cfg e c doc
                  (fetching url c (outside s))) as Hf.
    unfold same_page_fetches in Hf.
    rewrite Hgmc in Hp, He, Hf. cbn [snd] in Hp, He, Hf.
    rewrite Hp, He, Hf. now apply Hfetching. }
  assert (Hstep : forall s, paced s ->
             match iteration cfg e s with
             | Finished => True
             | Continue s' => paced s'
             | Uncaught s' => paced s' \/ open s'
             end).
  { intros s Hs.
    destruct (TurnFacts.iteration_turn cfg e s)
      as [Hqueue|url rest Hqueue _|url rest c Hqueue _ _
         |url rest c Hqueue _ _ _
         |url rest c r cd w Hqueue _ _ _ _ Hgmc _
         |url rest c r cd w queue Hqueue _ _ _ _ Hgmc _].
    - exact I.
    - left. exact Hs.
    - exact Hs.
    - unfold paced. cbn [outside].
      pose proof (Hfetching s url c Hs) as H.
      revert H. generalize (fetching url c (outside s)). intros w0 H.
      rewrite ConvertFacts.trace_emit, PaceFacts.pauses_app,
        PaceFacts.fetch_errors_app, PageFacts.page_fetches_app, length_app.
      unfold pauses, fetch_errors in *. simpl. lia.
    - right. unfold open. cbn [outside]. eapply Hconv; eassumption.
    - unfold paced. cbn [outside].
      pose proof (Hconv s url c _ cd w Hs Hgmc) as H.
      rewrite ConvertFacts.trace_emit, PaceFacts.pauses_app,
        PaceFacts.fetch_errors_app, PageFacts.page_fetches_app, length_app.
      unfold pauses, fetch_errors in *. simpl. lia. }
  assert (Hcrawl : forall n s, paced s ->
             let out := crawl cfg e n s in
             (out.1 <> Aborted -> paced out.2) /\
             (out.1 = Aborted -> paced out.2 \/ open out.2)).
  { induction n as [|n IH]; intros s Hs; simpl.
    - split; [now intros _|discriminate].
    - specialize (Hstep s Hs). destruct (iteration cfg e s) as [|s'|s']; simpl.
      + split; [now intros _|discriminate].
      + now apply IH.
      + split; [congruence|now intros _]. }
  assert (Hinit : paced (initial cfg files)).
  { unfold paced. now rewrite CrawlFacts.initial_trace. }
  intros out t. destruct (Hcrawl fuel _ Hinit) as [Hgood Hbad].
  fold out in Hgood, Hbad. unfold paced, open in Hgood, Hbad. fold t in Hgood, Hbad.
  assert (Hdec : out.1 = Aborted \/ out.1 <> Aborted)
    by (destruct out.1; [right|left|right]; congruence).
  destruct Hdec as [Ha|Ha].
  - destruct (Hbad Ha) as [H|H]; (split; [lia|split; [lia|congruence]]).
  - specialize (Hgood Ha). split; [lia|split; [lia|now intros _]].
Qed.

(** ** The crawl of a finite site ends *)

Module EndFacts.

Lemma enqueue_links_within (cfg : config) (visited U : gset string)
    (hrefs : list string) :
  (forall href full fb,
      href ∈ hrefs -> urljoin (BASE_URL cfg) href = Some full ->
      base_url_only full = Some fb -> fb ∈ U) ->
  forall queue queue',
    (forall u, u ∈ queue -> u ∈ U) ->
    enqueue_links cfg visited queue hrefs = Some queue' ->
    forall u, u ∈ queue' -> u ∈ U.
Proof.
  induction hrefs as [|href hrefs IH]; intros Hlinks queue queue' Hq H; simpl in H.
  - now injection H as <-.
  - destruct (enqueue_link cfg visited queue href) as [q1|] eqn:H1;
      [|discriminate].
    cbn [mbind option_bind] in H.
    destruct (enqueue_link_inv _ _ _ _ _ H1)
      as (full & fb & internal & Hjoin & Hbase & _ & Hq1).
    apply (IH (fun h f b Hh => Hlinks h f b (proj2 (elem_of_cons _ _ _) (or_intror Hh)))
              q1 queue'); [|exact H].
    intros u Hu. rewrite Hq1 in Hu.
    destruct (internal && bool_decide (fb ∉ visited) && bool_decide (fb ∉ queue));
      [|now apply Hq].
    apply elem_of_app in Hu as [Hu|Hu]; [now apply Hq|].
    apply list_elem_of_singleton in Hu. subst u.
    eapply Hlinks; [apply elem_of_cons; now left|exact Hjoin|exact Hbase].
Qed.

Lemma nodup_within_size (l : list string) (U : gset string) :
  NoDup l -> (forall u, u ∈ l -> u ∈ U) -> List.length l <= size U.
Proof.
  intros Hnd Hin.
  rewrite <- (size_list_to_set (C := gset string) l Hnd).
  apply subseteq_size. intros x Hx. apply elem_of_list_to_set in Hx. now apply Hin.
Qed.

Lemma size_visit (c : string) (visited U : gset string) :
  c ∈ U -> c ∉ visited -> visited ⊆ U ->
  size ({[c]} ∪ visited) = S (size visited) /\ {[c]} ∪ visited ⊆ U /\
  S (size visited) <= size U.
Proof.
  intros Hc Hfresh Hsub.
  assert (Hsize : size ({[c]} ∪ visited) = S (size visited)).
  { rewrite size_union by set_solver. now rewrite size_singleton. }
  assert (Hsub' : {[c]} ∪ visited ⊆ U)
    by (apply union_subseteq; split; [now apply singleton_subseteq_l|exact Hsub]).
  split; [exact Hsize|]. split; [exact Hsub'|].
  rewrite <- Hsize. now apply subseteq_size.
Qed.

End EndFacts.

(** X19: on a site whose links stay within a finite set [U] of URLs,
    the loop of [scrape_docs] ends: it stops by itself, on an empty queue
    or on an uncaught error, within [size U * (size U + 2) + 1] turns. *)
Theorem crawl_of_a_finite_site_ends
    (cfg : config) (e : env) (files : gmap string inode) (U : gset string)
    (fuel : nat) :
  BASE_URL cfg ∈ U ->
  (forall u c, u ∈ U -> base_url_only u = Some c -> c ∈ U) ->
  (forall u r href full fb,
      u ∈ U -> http_get e u = Returns r ->
      href ∈ find_all_attr "a" "href" (text r) ->
      urljoin (BASE_URL cfg) href = Some full ->
      base_url_only full = Some fb -> fb ∈ U) ->
  size U * (size U + 2) + 1 < fuel ->
  (crawl cfg e fuel (initial cfg files)).1 <> OutOfFuel.
Proof.
  intros Hroot Hclean Hlinks Hfuel.
  set (N := size U) in *.
  set (within := fun s : state =>
         NoDup (urls_to_visit s) /\
         (forall u, u ∈ urls_to_visit s -> u ∈ U) /\
         visited_urls s ⊆ U).
  set (left_over := fun s : state =>
         (N - size (visited_urls s)) * (N + 2) + List.length (urls_to_visit s)).
  assert (Hstep : forall s, within s ->
             match iteration cfg e s with
             | Continue s' => within s' /\ left_over s' < left_over s
             | _ => True
             end).
  { intros s (Hnd & Hq & Hv).
    destruct (TurnFacts.iteration_turn cfg e s)
      as [Hqueue|url rest Hqueue _|url rest c Hqueue Hb Hin
         |url rest c Hqueue Hb Hfresh _
         |url rest c r cd w Hqueue _ _ _ _ _ _
         |url rest c r cd w queue Hqueue Hb Hfresh Hget _ _ Henq];
      try exact I; unfold within, left_over;
      cbn [urls_to_visit visited_urls];
      rewrite Hqueue in Hnd, Hq; apply NoDup_cons in Hnd as [_ Hnd];
      assert (Hurl : url ∈ U) by (apply Hq, elem_of_cons; now left);
      assert (Hrest : forall u, u ∈ rest -> u ∈ U)
        by (intros u Hu; apply Hq, elem_of_cons; now right).
    - rewrite Hqueue. simpl. split; [now repeat split|lia].
    - destruct (EndFacts.size_visit c (visited_urls s) U
                  (Hclean _ _ Hurl Hb) Hfresh Hv) as (Hsize & Hsub & Hle).
      rewrite Hsize, Hqueue. fold N in Hle. simpl List.length.
      split; [now repeat split|nia].
    - destruct (EndFacts.size_visit c (visited_urls s) U
                  (Hclean _ _ Hurl Hb) Hfresh Hv) as (Hsize & Hsub & Hle).
      destruct (TurnFacts.enqueue_links_added _ _ _ _ _ Henq)
        as (_ & _ & _ & Hnd').
      assert (Hq' : forall u, u ∈ queue -> u ∈ U).
      { eapply EndFacts.enqueue_links_within; [|exact Hrest|exact Henq].
        intros href full fb. now apply (Hlinks url r). }
      pose proof (EndFacts.nodup_within_size queue U (Hnd' Hnd) Hq') as Hlen.
      rewrite Hsize, Hqueue. fold N in Hle, Hlen. simpl List.length.
      split; [repeat split; auto|nia]. }
  assert (Hcrawl : forall n s, within s -> left_over s < n ->
             (crawl cfg e n s).1 <> OutOfFuel).
  { induction n as [|n IH]; intros s Hs Hn; [lia|]. simpl.
    specialize (Hstep s Hs).
    destruct (iteration cfg e s) as [|s'|s']; simpl; try discriminate.
    destruct Hstep as [Hs' Hless]. apply IH; [exact Hs'|lia]. }
  apply Hcrawl.
  - unfold within, initial. cbn [urls_to_visit visited_urls].
    split; [apply NoDup_singleton|]. split; [|set_solver].
    intros u Hu. apply list_elem_of_singleton in Hu. now subst u.
  - unfold left_over, initial. cbn [urls_to_visit visited_urls].
    rewrite size_empty. simpl List.length. lia.
Qed.

Lemma crawl_of_a_finite_site_ends_witness :
  (crawl Sites.default_config (Sites.always Sites.anchors_page) 5
     (initial Sites.default_config ∅)).1 <> OutOfFuel.
Proof.
  apply (crawl_of_a_finite_site_ends Sites.default_config
           (Sites.always Sites.anchors_page) ∅
           {["https://docs.sl.antimatter.io/"]} 5).
  - now apply elem_of_singleton.
  - intros u c Hu Hc. apply elem_of_singleton in Hu. subst u.
    vm_compute in Hc. injection Hc as <-. now apply elem_of_singleton.
  - intros u r href full fb Hu Hget Hhref Hfull Hfb.
    injection Hget as <-.
    apply list_elem_of_In in Hhref. vm_compute in Hhref.
    destruct Hhref as [<-|[<-|[]]].
    + vm_compute in Hfull. injection Hfull as <-.
      vm_compute in Hfb. injection Hfb as <-. now apply elem_of_singleton.
    + vm_compute in Hfull. injection Hfull as <-.
      vm_compute in Hfb. injection Hfb as <-. now apply elem_of_singleton.
  - rewrite size_singleton. simpl. lia.
Defined.
